(** * SmartAIManager: discovery, ranking, fallback and quota accounting

    A shallow embedding of [src/ai_manager.py] (class [SmartAIManager]) and
    the properties of its provider registry, model catalogue, fallback
    engine and per-user quota cache, with the commands of [src/bot.py]
    that call it.

    Conventions of the embedding.
    - A Python [str] is a Rocq [string] holding its UTF-8 bytes.  Lengths
      and slices count code points (bytes that are not continuation bytes),
      substring tests work on bytes, which is the same thing for UTF-8.
      [lower] folds the ASCII letters only.
    - Python integers are [Z].
    - A raised exception is a value [Raise msg] of the type [exc]; [msg] is
      [str(e)].  Every exception of the model is an [Exception].
    - The object graph reachable from [self] is one record,
      [SmartAIManager]; provider configurations are read and written
      through [self.providers], so a configuration held in a local variable
      of the source is the same object as the one in the registry.
    - What the collaborators answer (environment variables, the SDK
      clients, the durable store, the clock) is an input of the model,
      gathered in [Environment].  A backend call is one question to the
      environment; what the text of the request is plays no part in it.
    - The clock reads one day, [today], for the whole of a request, and
      the numeric environment variables hold integers.
    - The chat sessions are a dictionary of their own, [ChatSessions.t],
      beside the record: a session is touched by [_chat_with_google]
      only, past the point where the model sees a backend call.
    - Left out, as no property below reads them: the cache of generated
      files, [avg_response_time], the lock of [ensure_discovery] (runs are
      sequential) and the log. *)

From Stdlib Require Import String Ascii List ZArith Bool Lia.
From Stdlib Require Import Sorted Permutation DecimalString.
Import ListNotations.

Open Scope string_scope.
Open Scope Z_scope.

(** ** Python strings *)

Module Py.

Definition lower_char (c : ascii) : ascii :=
  let n := nat_of_ascii c in
  if (Nat.leb 65 n && Nat.leb n 90)%bool then ascii_of_nat (n + 32) else c.

(** [s.lower()] *)
Fixpoint lower (s : string) : string :=
  match s with
  | EmptyString => EmptyString
  | String c s' => String (lower_char c) (lower s')
  end.

(** [s.startswith(p)] *)
Definition startswith (s p : string) : bool := String.prefix p s.

(** [sub in s] *)
Fixpoint contains (sub s : string) : bool :=
  if String.prefix sub s then true
  else match s with
       | EmptyString => false
       | String _ s' => contains sub s'
       end.

(** [any(k in s for k in keywords)] *)
Definition any_in (keywords : list string) (s : string) : bool :=
  existsb (fun k => contains k s) keywords.

(** A byte that continues a UTF-8 sequence (10xxxxxx). *)
Definition is_continuation (c : ascii) : bool :=
  let n := nat_of_ascii c in (Nat.leb 128 n && Nat.ltb n 192)%bool.

(** [len(s)], in code points. *)
Fixpoint len (s : string) : Z :=
  match s with
  | EmptyString => 0
  | String c s' => (if is_continuation c then 0 else 1) + len s'
  end.

(** [s[:n]], in code points: a leading byte is kept while the budget
    lasts, the continuation bytes that follow a kept byte are kept. *)
Fixpoint slice_to (n : nat) (s : string) : string :=
  match s with
  | EmptyString => EmptyString
  | String c s' =>
      if is_continuation c then String c (slice_to n s')
      else match n with
           | O => EmptyString
           | S n' => String c (slice_to n' s')
           end
  end.

(** [s.strip() == ""]: only white space (ASCII white space here). *)
Definition is_space (c : ascii) : bool :=
  let n := nat_of_ascii c in
  ((Nat.leb 9 n && Nat.leb n 13) || (Nat.leb 28 n && Nat.leb n 32))%bool.

Fixpoint strip_is_empty (s : string) : bool :=
  match s with
  | EmptyString => true
  | String c s' => (is_space c && strip_is_empty s')%bool
  end.

(** [s.strip()] *)
Fixpoint lstrip (s : string) : string :=
  match s with
  | String c s' => if is_space c then lstrip s' else s
  | EmptyString => EmptyString
  end.

Fixpoint rstrip (s : string) : string :=
  match s with
  | String c s' =>
      match rstrip s' with
      | EmptyString => if is_space c then EmptyString else String c EmptyString
      | r => String c r
      end
  | EmptyString => EmptyString
  end.

Definition strip (s : string) : string := rstrip (lstrip s).

(** [s.replace(pat, '')] for a non-empty [pat]: [skip] counts the
    characters of a match still to be dropped. *)
Fixpoint remove_all_from (pat : string) (skip : nat) (s : string) : string :=
  match s with
  | EmptyString => EmptyString
  | String c s' =>
      match skip with
      | S k => remove_all_from pat k s'
      | O =>
          if String.prefix pat s
          then remove_all_from pat (String.length pat - 1) s'
          else String c (remove_all_from pat O s')
      end
  end.

Definition remove_all (pat s : string) : string := remove_all_from pat O s.

(** [sep.join(l)] *)
Fixpoint join (sep : string) (l : list string) : string :=
  match l with
  | [] => EmptyString
  | [x] => x
  | x :: l' => x ++ sep ++ join sep l'
  end.

(** [str(n)] for an integer. *)
Definition str_of_Z (n : Z) : string := NilZero.string_of_int (Z.to_int n).

(** Truth value of an [Optional[str]]: [None] and [""] are false. *)
Definition truthy (o : option string) : bool :=
  match o with
  | Some (String _ _) => true
  | _ => false
  end.

(** [s.endswith(suffix)]: [suffix] is one of the tails of [s]. *)
Fixpoint endswith (s suffix : string) : bool :=
  if String.eqb s suffix then true
  else match s with
       | EmptyString => false
       | String _ s' => endswith s' suffix
       end.

End Py.

(** ** The data model *)

Inductive ServiceType := CHAT | IMAGE | VIDEO.

Inductive Provider := GOOGLE | OPENAI | STABILITY | LUMA | KLING.

Definition ServiceType_value (st : ServiceType) : string :=
  match st with CHAT => "chat" | IMAGE => "image" | VIDEO => "video" end.

Definition Provider_value (p : Provider) : string :=
  match p with
  | GOOGLE => "google" | OPENAI => "openai" | STABILITY => "stability"
  | LUMA => "luma" | KLING => "kling"
  end.

Definition ServiceType_eqb (a b : ServiceType) : bool :=
  match a, b with
  | CHAT, CHAT | IMAGE, IMAGE | VIDEO, VIDEO => true
  | _, _ => false
  end.

Definition Provider_eqb (a b : Provider) : bool :=
  match a, b with
  | GOOGLE, GOOGLE | OPENAI, OPENAI | STABILITY, STABILITY
  | LUMA, LUMA | KLING, KLING => true
  | _, _ => false
  end.

(** Insertion order of the [providers] dict built by [_init_providers]. *)
Definition all_providers : list Provider := [GOOGLE; OPENAI; STABILITY; LUMA; KLING].

Definition all_service_types : list ServiceType := [CHAT; IMAGE; VIDEO].

Module ModelInfo.
Record t := mk {
  name : string;
  provider : Provider;
  service_type : ServiceType;
  version : string;
  release_date : option string;
  max_tokens : Z;
  is_latest : bool;
  is_deprecated : bool;
  priority : Z;
  supports_enhancement : bool
}.

(** The dataclass constructor with its defaults. *)
Definition make (name : string) (provider : Provider) (service_type : ServiceType)
    (version : string) (is_latest : bool) (priority : Z) : t :=
  mk name provider service_type version None 2048 is_latest false priority true.
End ModelInfo.

(** A [Dict[ServiceType, _]]: [None] is an absent key. *)
Definition ServiceDict (A : Type) : Type := ServiceType -> option A.

Definition sd_empty {A} : ServiceDict A := fun _ => None.

Definition sd_set {A} (d : ServiceDict A) (st : ServiceType) (v : A) : ServiceDict A :=
  fun st' => if ServiceType_eqb st st' then Some v else d st'.

Module ProviderConfig.
Record t := mk {
  name : Provider;
  api_key : option string;
  enabled : bool;
  daily_limit : Z;
  usage_today : Z;
  errors_today : Z;
  last_error : option string;
  discovered_models : ServiceDict (list ModelInfo.t);
  active_models : ServiceDict string
}.

(** The dataclass constructor as [_init_providers] calls it. *)
Definition make (name : Provider) (api_key : option string) (daily_limit : Z) : t :=
  mk name api_key false daily_limit 0 0 None sd_empty sd_empty.

Definition set_enabled (c : t) (b : bool) : t :=
  mk (name c) (api_key c) b (daily_limit c) (usage_today c) (errors_today c)
     (last_error c) (discovered_models c) (active_models c).

Definition set_discovered_models (c : t) (d : ServiceDict (list ModelInfo.t)) : t :=
  mk (name c) (api_key c) (enabled c) (daily_limit c) (usage_today c)
     (errors_today c) (last_error c) d (active_models c).

Definition set_active_models (c : t) (d : ServiceDict string) : t :=
  mk (name c) (api_key c) (enabled c) (daily_limit c) (usage_today c)
     (errors_today c) (last_error c) (discovered_models c) d.

Definition set_active_model (c : t) (st : ServiceType) (m : string) : t :=
  set_active_models c (sd_set (active_models c) st m).

(** [usage_today += 1] *)
Definition incr_usage (c : t) : t :=
  mk (name c) (api_key c) (enabled c) (daily_limit c) (usage_today c + 1)
     (errors_today c) (last_error c) (discovered_models c) (active_models c).

(** [errors_today += 1; last_error = msg] *)
Definition record_error (c : t) (msg : string) : t :=
  mk (name c) (api_key c) (enabled c) (daily_limit c) (usage_today c)
     (errors_today c + 1) (Some msg) (discovered_models c) (active_models c).
End ProviderConfig.

(** ** Model catalogue: classification and priorities *)

(** [_analyze_google_model]: the service type is read off the name, then a
    priority from the cascade of patterns.  [None] discards the model. *)
Definition _analyze_google_model (model_name : string) : option ModelInfo.t :=
  let model_lower := Py.lower model_name in
  let has k := Py.contains k model_lower in
  let classified :=
    if (has "gemini" && negb (has "tts"))%bool then Some CHAT
    else if (has "imagen" || has "banana")%bool then Some IMAGE
    else if has "veo" then Some VIDEO
    else None in
  match classified with
  | None => None
  | Some st =>
      let '(version, priority) :=
        match st with
        | CHAT =>
            if has "gemini-3" then ("3.0", 10)
            else if (has "gemini-2.5" || has "gemini-2-5")%bool then ("2.5", 15)
            else if (has "gemini-2.0" || has "gemini-2-0")%bool then ("2.0", 20)
            else if (has "gemini-1.5" || has "gemini-1-5")%bool then ("1.5", 30)
            else if (has "gemini-1.0" || has "gemini-1-0" || has "gemini-pro")%bool
                 then ("1.0", 40)
            else ("1.0", 100)
        | IMAGE =>
            if has "banana" then ("1.0", 5)
            else if has "imagen-4" then ("1.0", 10)
            else if has "imagen-3" then ("1.0", 20)
            else if has "imagen-2" then ("1.0", 30)
            else ("1.0", 50)
        | VIDEO =>
            if has "veo" then ("1.0", 10) else ("1.0", 100)
        end in
      Some (ModelInfo.make model_name GOOGLE st version (has "latest") priority)
  end.

(** [_analyze_openai_model] *)
Definition _analyze_openai_model (model_name : string) (st : ServiceType)
  : option ModelInfo.t :=
  let model_lower := Py.lower model_name in
  let has k := Py.contains k model_lower in
  let ranked : option (string * Z) :=
    match st with
    | CHAT =>
        if has "gpt-4o" then Some ("4.0", if has "mini" then 5 else 10)
        else if has "gpt-4-turbo" then Some ("4.0", 15)
        else if has "gpt-4" then Some ("4.0", 20)
        else if has "gpt-3.5-turbo" then Some ("3.5", if has "instruct" then 30 else 25)
        else None
    | IMAGE =>
        if has "dall-e-3" then Some ("3.0", 5)
        else if has "dall-e-2" then Some ("2.0", 10)
        else None
    | VIDEO => Some ("1.0", 100)
    end in
  match ranked with
  | None => None
  | Some (version, priority) =>
      Some (ModelInfo.make model_name OPENAI st version false priority)
  end.

(** ** [list.sort(key=...)]: a stable sort

    Python's sort is stable, and a stable sort has one possible result; it
    is computed here by insertion from the right. *)
Section StableSort.
Context {A : Type} (leb : A -> A -> bool).

Fixpoint insert_sorted (x : A) (l : list A) : list A :=
  match l with
  | [] => [x]
  | y :: l' => if leb x y then x :: l else y :: insert_sorted x l'
  end.

Fixpoint stable_sort (l : list A) : list A :=
  match l with
  | [] => []
  | x :: l' => insert_sorted x (stable_sort l')
  end.

End StableSort.

Definition priority_leb (a b : ModelInfo.t) : bool :=
  ModelInfo.priority a <=? ModelInfo.priority b.

(** [models.sort(key=lambda x: x.priority)] *)
Definition sort_by_priority (l : list ModelInfo.t) : list ModelInfo.t :=
  stable_sort priority_leb l.

(** [min(models, key=lambda x: x.priority)] on a non-empty list: the first
    of the minimal elements. *)
Fixpoint min_by_priority (best : ModelInfo.t) (l : list ModelInfo.t) : ModelInfo.t :=
  match l with
  | [] => best
  | m :: l' =>
      min_by_priority
        (if ModelInfo.priority m <? ModelInfo.priority best then m else best) l'
  end.

(** [[f(x) for x in l if f(x)]] *)
Fixpoint filter_map {A B} (f : A -> option B) (l : list A) : list B :=
  match l with
  | [] => []
  | x :: l' =>
      match f x with
      | Some y => y :: filter_map f l'
      | None => filter_map f l'
      end
  end.

(** ** The manager and its collaborators *)

(** A key of the quota cache, [f"{user_id}_{today}_{service_type}"], and of
    the [ai_usage] table: the three components determine the string, so the
    triple stands for it. *)
Definition UsageKey : Type := (Z * string * string)%type.

Definition UsageKey_eqb (a b : UsageKey) : bool :=
  let '(u1, d1, s1) := a in
  let '(u2, d2, s2) := b in
  ((u1 =? u2) && String.eqb d1 d2 && String.eqb s1 s2)%bool.

(** A call that leaves the process for a backend: a generation call made by
    the fallback engine for a provider, or a prompt-enhancement call.  The
    API a generation call reaches is a function of the provider and the
    service, [api_of] below. *)
Inductive Contact :=
| Generate (p : Provider) (st : ServiceType) (model : string)
| Enhance (model : string).

Record SmartAIManager := mkManager {
  (** [OrderedDict], least recently touched first *)
  user_limits_cache : list (UsageKey * Z);
  max_cache_size : nat;
  providers : Provider -> ProviderConfig.t;
  discovery_completed : bool;
  (** the [ai_usage] table behind [self.db]; [None] is a missing row *)
  ai_usage : UsageKey -> option Z;
  (** how many times the store has been accessed *)
  db_ops : nat;
  (** the calls made so far, oldest first *)
  calls : list Contact
}.

Definition set_providers (s : SmartAIManager) (ps : Provider -> ProviderConfig.t) :=
  mkManager (user_limits_cache s) (max_cache_size s) ps (discovery_completed s)
            (ai_usage s) (db_ops s) (calls s).

(** [self.providers[p] = c], or a mutation of the object stored there. *)
Definition set_provider (s : SmartAIManager) (p : Provider) (c : ProviderConfig.t) :=
  set_providers s (fun q => if Provider_eqb p q then c else providers s q).

Definition set_discovery_completed (s : SmartAIManager) (b : bool) :=
  mkManager (user_limits_cache s) (max_cache_size s) (providers s) b
            (ai_usage s) (db_ops s) (calls s).

Definition set_cache (s : SmartAIManager) (c : list (UsageKey * Z)) :=
  mkManager c (max_cache_size s) (providers s) (discovery_completed s)
            (ai_usage s) (db_ops s) (calls s).

Definition set_ai_usage (s : SmartAIManager) (t : UsageKey -> option Z) :=
  mkManager (user_limits_cache s) (max_cache_size s) (providers s)
            (discovery_completed s) t (db_ops s) (calls s).

Definition tick_db (s : SmartAIManager) :=
  mkManager (user_limits_cache s) (max_cache_size s) (providers s)
            (discovery_completed s) (ai_usage s) (S (db_ops s)) (calls s).

Definition log_call (s : SmartAIManager) (c : Contact) :=
  mkManager (user_limits_cache s) (max_cache_size s) (providers s)
            (discovery_completed s) (ai_usage s) (db_ops s) (calls s ++ [c]).

(** What a call gives: a value, or an exception with its [str(e)]. *)
Inductive exc (A : Type) :=
| Return (a : A)
| Raise (msg : string).
Arguments Return {A} a.
Arguments Raise {A} msg.

(** The steps of [_setup_and_discover_async]. *)
Inductive DiscoveryStep :=
| StepGoogle | StepOpenAI | StepOther | StepLog | StepSelect.

(** What the outside world answers. *)
Record Environment := mkEnv {
  (** [os.getenv(name)] *)
  getenv : string -> option string;
  (** [int(os.getenv(name))] where the variable is set *)
  getenv_int : string -> option Z;
  (** [genai.configure]: [Some msg] when it raises *)
  genai_configure : option string;
  (** [genai.list_models()]: the [name] of each model, or the exception *)
  genai_list_models : string + list string;
  (** [OpenAIClient(...)]: [Some msg] when it raises *)
  openai_client : option string;
  (** An exception raised as a discovery step starts, by code outside the
      model (logging, the interpreter); [None] lets the step run. *)
  step_fault : DiscoveryStep -> option string;
  (** What the API of a backend answers to a generation call for a
      service and a model, at the moment when [n] calls have been made *)
  backend : Provider -> ServiceType -> string -> nat -> exc string;
  (** A store access at the moment when [n] accesses have been made:
      [Some msg] when it raises *)
  db_fault : nat -> option string
}.

(** ** State and exceptions *)

Definition M (A : Type) : Type := SmartAIManager -> exc A * SmartAIManager.

Definition ret {A} (a : A) : M A := fun s => (Return a, s).
Definition raise {A} (msg : string) : M A := fun s => (Raise msg, s).

Definition bind {A B} (m : M A) (f : A -> M B) : M B :=
  fun s => match m s with
           | (Return a, s') => f a s'
           | (Raise msg, s') => (Raise msg, s')
           end.

(** [try: m  except Exception as e: handler(str(e))] *)
Definition try_except {A} (m : M A) (handler : string -> M A) : M A :=
  fun s => match m s with
           | (Return a, s') => (Return a, s')
           | (Raise msg, s') => handler msg s'
           end.

Definition modify (f : SmartAIManager -> SmartAIManager) : M unit :=
  fun s => (Return tt, f s).

Definition get {A} (f : SmartAIManager -> A) : M A := fun s => (Return (f s), s).

Declare Scope py_scope.
Delimit Scope py_scope with py.
Notation "x <- m ;; k" := (bind m (fun x => k))
  (at level 61, m at next level, right associativity) : py_scope.
Notation "m ;;; k" := (bind m (fun _ => k))
  (at level 61, right associativity) : py_scope.
Open Scope py_scope.

(** ** Provider registry and discovery *)

Section Engine.
Variable env : Environment.

Definition api_key_var (p : Provider) : string :=
  match p with
  | GOOGLE => "GOOGLE_AI_API_KEY" | OPENAI => "OPENAI_API_KEY"
  | STABILITY => "STABILITY_API_KEY" | LUMA => "LUMAAI_API_KEY"
  | KLING => "KLING_API_KEY"
  end.

Definition daily_limit_var (p : Provider) : string * Z :=
  match p with
  | GOOGLE => ("GOOGLE_DAILY_LIMIT", 50) | OPENAI => ("OPENAI_DAILY_LIMIT", 30)
  | STABILITY => ("STABILITY_DAILY_LIMIT", 20) | LUMA => ("LUMA_DAILY_LIMIT", 10)
  | KLING => ("KLING_DAILY_LIMIT", 5)
  end.

(** [int(os.getenv(name, default))] *)
Definition getenv_int_default (nd : string * Z) : Z :=
  match getenv_int env (fst nd) with
  | Some v => v
  | None => snd nd
  end.

(** The body of the validation loop of [_init_providers]. *)
Definition validate_api_key (config : ProviderConfig.t) : ProviderConfig.t :=
  match ProviderConfig.api_key config with
  | None => ProviderConfig.set_enabled config false
  | Some key =>
      if (negb (Py.truthy (Some key)) || Py.strip_is_empty key)%bool
      then ProviderConfig.set_enabled config false
      else if Py.len key <? 10 then ProviderConfig.set_enabled config false
      else config
  end.

Definition _init_providers : Provider -> ProviderConfig.t :=
  fun p =>
    validate_api_key
      (ProviderConfig.make p (getenv env (api_key_var p))
         (getenv_int_default (daily_limit_var p))).

(** [SmartAIManager.__init__], over the rows the store holds. *)
Definition init (rows : UsageKey -> option Z) : SmartAIManager :=
  mkManager [] 1000 _init_providers false rows 0 [].

(** The static list used when the live query fails. *)
Definition google_fallback_models : list string :=
  [ "nano-banana-pro-preview"; "imagen-4.0-generate-preview-06-06";
    "imagen-3.0-generate-001"; "gemini-2.5-flash"; "gemini-2.5-pro";
    "gemini-3-flash-preview"; "gemini-3-pro-preview"; "gemini-2.0-flash";
    "veo-3.0-generate-001" ].

(** The models of one service type, in discovery order, then sorted. *)
Definition classify_and_sort (infos : list ModelInfo.t) : ServiceDict (list ModelInfo.t) :=
  fun st =>
    Some (sort_by_priority
            (filter (fun m => ServiceType_eqb (ModelInfo.service_type m) st) infos)).

(** The names discovery works on: the live list with its ["models/"]
    prefixes removed, or the static list when the query raises. *)
Definition google_all_models : list string :=
  match genai_list_models env with
  | inr names => map (Py.remove_all "models/") names
  | inl _ => google_fallback_models
  end.

Definition google_discovered : ServiceDict (list ModelInfo.t) :=
  classify_and_sort (filter_map _analyze_google_model google_all_models).

(** The configuration once [genai.configure] has succeeded. *)
Definition google_configured (google_config : ProviderConfig.t) : ProviderConfig.t :=
  let c1 := ProviderConfig.set_enabled google_config true in
  let c2 := ProviderConfig.set_discovered_models c1 google_discovered in
  match google_discovered CHAT with
  | Some (top_model :: _) =>
      ProviderConfig.set_active_model c2 CHAT (ModelInfo.name top_model)
  | _ => c2
  end.

Definition _setup_and_discover_google : M unit :=
  fun s =>
    let google_config := providers s GOOGLE in
    if negb (Py.truthy (ProviderConfig.api_key google_config)) then (Return tt, s)
    else
      (* a key that does not start with "AI" is only logged *)
      match genai_configure env with
      | Some _ =>
          (* except Exception: enabled = False *)
          (Return tt, set_provider s GOOGLE (ProviderConfig.set_enabled google_config false))
      | None =>
          (Return tt, set_provider s GOOGLE (google_configured google_config))
      end.

Definition known_openai_models (st : ServiceType) : list string :=
  match st with
  | CHAT => [ "gpt-4o"; "gpt-4o-mini"; "gpt-4-turbo"; "gpt-4";
              "gpt-3.5-turbo"; "gpt-3.5-turbo-instruct" ]
  | IMAGE => [ "dall-e-3"; "dall-e-2" ]
  | VIDEO => []
  end.

Definition openai_discovered : ServiceDict (list ModelInfo.t) :=
  fun st =>
    Some (sort_by_priority
            (filter_map (fun n => _analyze_openai_model n st) (known_openai_models st))).

Definition _setup_and_discover_openai : M unit :=
  fun s =>
    let openai_config := providers s OPENAI in
    if negb (Py.truthy (ProviderConfig.api_key openai_config)) then (Return tt, s)
    else
      (* a key that does not start with "sk-" is only logged *)
      match openai_client env with
      | Some _ =>
          (Return tt, set_provider s OPENAI (ProviderConfig.set_enabled openai_config false))
      | None =>
          let c1 := ProviderConfig.set_enabled openai_config true in
          (Return tt,
           set_provider s OPENAI (ProviderConfig.set_discovered_models c1 openai_discovered))
      end.

(** One of the three blocks of [_setup_other_apis]. *)
Definition setup_bearer_api (p : Provider) (s : SmartAIManager) : SmartAIManager :=
  let config := providers s p in
  match ProviderConfig.api_key config with
  | Some key =>
      if (Py.truthy (Some key) && (20 <? Py.len key))%bool
      then set_provider s p (ProviderConfig.set_enabled config true)
      else s
  | None => s
  end.

Definition _setup_other_apis : M unit :=
  modify (fun s => setup_bearer_api KLING (setup_bearer_api LUMA (setup_bearer_api STABILITY s))).

(** [_log_discovery_results] only writes to the log. *)
Definition _log_discovery_results : M unit := ret tt.

(** The inner loop of [_select_best_models] for one service type. *)
Definition select_best_for (st : ServiceType) (config : ProviderConfig.t) : ProviderConfig.t :=
  match ProviderConfig.discovered_models config st with
  | Some (m :: models) =>
      ProviderConfig.set_active_model config st (ModelInfo.name (min_by_priority m models))
  | _ => config
  end.

Definition select_best_of (p : Provider) (s : SmartAIManager) : SmartAIManager :=
  let config := providers s p in
  if negb (ProviderConfig.enabled config) then s
  else set_provider s p (fold_left (fun c st => select_best_for st c) all_service_types config).

Definition _select_best_models : M unit :=
  modify (fun s => fold_left (fun s p => select_best_of p s) all_providers s).

(** A step of the discovery routine, or the exception the environment
    raises in its place. *)
Definition discovery_step (step : DiscoveryStep) (m : M unit) : M unit :=
  match step_fault env step with
  | Some msg => raise msg
  | None => m
  end.

Definition _setup_and_discover_async : M unit :=
  try_except
    (discovery_step StepGoogle _setup_and_discover_google ;;;
     discovery_step StepOpenAI _setup_and_discover_openai ;;;
     discovery_step StepOther _setup_other_apis ;;;
     discovery_step StepLog _log_discovery_results ;;;
     discovery_step StepSelect _select_best_models)
    (fun _ => (* logger.error *) ret tt).

(** [ensure_discovery]; the lock does nothing in a sequential run. *)
Definition ensure_discovery : M unit :=
  fun s =>
    if negb (discovery_completed s)
    then (_setup_and_discover_async ;;;
          modify (fun s => set_discovery_completed s true)) s
    else (Return tt, s).

(** ** Provider selection *)

(** The service a provider may serve, as [get_available_providers] and
    the three [execute_*] closures list them. *)
Definition supports (st : ServiceType) (p : Provider) : bool :=
  match st, p with
  | CHAT, (GOOGLE | OPENAI) => true
  | IMAGE, (GOOGLE | OPENAI | STABILITY) => true
  | VIDEO, (GOOGLE | LUMA | KLING) => true
  | _, _ => false
  end.

(** [(a.errors_today, a.usage_today) <= (b.errors_today, b.usage_today)] *)
Definition selection_key_leb (s : SmartAIManager) (a b : Provider) : bool :=
  let ca := providers s a in
  let cb := providers s b in
  ((ProviderConfig.errors_today ca <? ProviderConfig.errors_today cb)
   || ((ProviderConfig.errors_today ca =? ProviderConfig.errors_today cb)
       && (ProviderConfig.usage_today ca <=? ProviderConfig.usage_today cb)))%bool.

(** The test of the loop of [get_available_providers]. *)
Definition is_available (s : SmartAIManager) (st : ServiceType) (p : Provider) : bool :=
  let provider := providers s p in
  if (negb (ProviderConfig.enabled provider)
      || (ProviderConfig.daily_limit provider <=? ProviderConfig.usage_today provider))%bool
  then false
  else supports st (ProviderConfig.name provider).

(** [get_available_providers]: the configurations are named by their key
    in the registry. *)
Definition get_available_providers (st : ServiceType) (s : SmartAIManager) : list Provider :=
  stable_sort (selection_key_leb s) (filter (is_available s st) all_providers).

Definition get_active_model (provider : Provider) (st : ServiceType)
    (s : SmartAIManager) : option string :=
  let config := providers s provider in
  if negb (ProviderConfig.enabled config) then None
  else ProviderConfig.active_models config st.

(** ** Model rotation *)

(** The index of the first model named [n]. *)
Fixpoint index_of (n : string) (models : list ModelInfo.t) : option nat :=
  match models with
  | [] => None
  | m :: models' =>
      if String.eqb (ModelInfo.name m) n then Some O
      else option_map S (index_of n models')
  end.

Definition next_model_name (models : list ModelInfo.t) (m0 : ModelInfo.t)
    (current_model : option string) : string :=
  match current_model with
  | Some cur =>
      if (negb (Py.truthy current_model)
          || negb (existsb (String.eqb cur) (map ModelInfo.name models)))%bool
      then ModelInfo.name m0
      else match index_of cur models with
           | None => ModelInfo.name m0
           | Some current_index =>
               if (length models - 1 <=? current_index)%nat then ModelInfo.name m0
               else ModelInfo.name (nth (current_index + 1) models m0)
           end
  | None => ModelInfo.name m0
  end.

Definition rotate_model (provider : Provider) (st : ServiceType)
    (current_model : option string) : M (option string) :=
  fun s =>
    let config := providers s provider in
    match ProviderConfig.discovered_models config st with
    | None | Some [] => (Return None, s)
    | Some ((m0 :: _) as models) =>
        let new_model := next_model_name models m0 current_model in
        (Return (Some new_model),
         set_provider s provider (ProviderConfig.set_active_model config st new_model))
    end.

(** ** The fallback engine *)

Definition not_enabled_msg (p : Provider) : string :=
  "المزود " ++ Provider_value p ++ " غير مفعل".

Definition no_models_msg (st : ServiceType) : string :=
  "لا توجد موديلات لـ " ++ ServiceType_value st.

Definition all_attempts_failed_msg (p : Provider) (max_retries : nat) : string :=
  "فشلت جميع محاولات " ++ Provider_value p
    ++ " (" ++ Py.str_of_Z (Z.of_nat max_retries) ++ " محاولات)".

(** [str(provider)] of an enum member. *)
Definition Provider_str (p : Provider) : string :=
  "Provider." ++
  match p with
  | GOOGLE => "GOOGLE" | OPENAI => "OPENAI" | STABILITY => "STABILITY"
  | LUMA => "LUMA" | KLING => "KLING"
  end.

Definition unsupported_msg (st : ServiceType) (p : Provider) : string :=
  match st with
  | CHAT => "مزود غير مدعوم: "
  | IMAGE => "مزود غير مدعوم للصور: "
  | VIDEO => "مزود غير مدعوم للفيديو: "
  end ++ Provider_str p.

Definition is_quota_error (error_msg : string) : bool :=
  Py.any_in ["429"; "quota"; "rate limit"; "resource exhausted"] (Py.lower error_msg).

Definition is_model_error (error_msg : string) : bool :=
  Py.any_in ["404"; "not found"; "invalid model"; "model not found"] (Py.lower error_msg).

(** The backend whose API a generation call reaches.  Google and Kling
    have no video call of their own: [_generate_video_google] and
    [_generate_video_kling] call [_generate_video_luma]. *)
Definition api_of (st : ServiceType) (provider : Provider) : Provider :=
  match st, provider with
  | VIDEO, (GOOGLE | KLING) => LUMA
  | _, _ => provider
  end.

(** One generation call made for [provider]: it goes to the API of
    [api_of st provider], whose answer is the environment's, and is
    logged under [provider].  [_generate_video_luma] is not given the
    name of the model; the name is kept for the log. *)
Definition call_backend (st : ServiceType) (provider : Provider) (model_name : string)
  : M string :=
  fun s =>
    (backend env (api_of st provider) st model_name (length (calls s)),
     log_call s (Generate provider st model_name)).

(** [_generate_video_google] and [_generate_video_kling]: the call of
    Luma when Luma is enabled, whatever Luma's usage is, and an exception
    otherwise. *)
Definition video_by_luma (provider : Provider) (unavailable : string)
    (model_name : string) : M string :=
  fun s =>
    let luma_config := providers s LUMA in
    if ProviderConfig.enabled luma_config
    then call_backend VIDEO provider model_name s
    else (Raise unavailable, s).

Definition veo_unavailable_msg : string := "Google Veo غير متوفر حالياً".

Definition kling_unavailable_msg : string := "Kling AI غير متوفر حالياً".

(** The closures [execute_chat], [execute_image], [execute_video]. *)
Definition execute_func (st : ServiceType) (provider : Provider) (model_name : string)
  : M string :=
  match st, provider with
  | CHAT, (GOOGLE | OPENAI) => call_backend st provider model_name
  | IMAGE, (GOOGLE | OPENAI | STABILITY) => call_backend st provider model_name
  | VIDEO, GOOGLE => video_by_luma GOOGLE veo_unavailable_msg model_name
  | VIDEO, LUMA => call_backend st provider model_name
  | VIDEO, KLING => video_by_luma KLING kling_unavailable_msg model_name
  | _, _ => raise (unsupported_msg st provider)
  end.

(** The [try] block of one attempt.  It returns the outcome together
    with the value the local [current_model] has when the block ends. *)
Definition attempt_body (provider : Provider) (st : ServiceType)
    (current_model : option string) (s : SmartAIManager)
  : (exc string * option string) * SmartAIManager :=
  if negb (Py.truthy current_model) then
    let config := providers s provider in
    match ProviderConfig.discovered_models config st with
    | Some (m0 :: _) =>
        let chosen := ModelInfo.name m0 in
        let s1 := set_provider s provider (ProviderConfig.set_active_model config st chosen) in
        let '(r, s2) := execute_func st provider chosen s1 in
        ((r, Some chosen), s2)
    | _ => ((Raise (no_models_msg st), current_model), s)
    end
  else
    let '(r, s1) := execute_func st provider (match current_model with
                                              | Some m => m
                                              | None => EmptyString
                                              end) s in
    ((r, current_model), s1).

(** What the [except] block decides. *)
Inductive LoopControl :=
| Continue (current_model : option string)
| Break.

Definition on_attempt_error (provider : Provider) (st : ServiceType)
    (current_model : option string) (error_msg : string) (s : SmartAIManager)
  : LoopControl * SmartAIManager :=
  if (is_quota_error error_msg || is_model_error error_msg)%bool then
    match rotate_model provider st current_model s with
    | (Return next_model, s1) =>
        if (Py.truthy next_model
            && negb (match next_model, current_model with
                     | Some a, Some b => String.eqb a b
                     | None, None => true
                     | _, _ => false
                     end))%bool
        then (Continue next_model, s1)
        else (Break, s1)
    | (Raise _, s1) => (Break, s1)
    end
  else (Break, s).

(** [for attempt in range(n): ...] followed by the final [raise]. *)
Fixpoint attempts (provider : Provider) (st : ServiceType) (max_retries : nat)
    (n : nat) (current_model : option string) : M string :=
  match n with
  | O => raise (all_attempts_failed_msg provider max_retries)
  | S n' =>
      fun s =>
        match attempt_body provider st current_model s with
        | ((Return result, _), s1) => (Return result, s1)
        | ((Raise error_msg, current_model1), s1) =>
            match on_attempt_error provider st current_model1 error_msg s1 with
            | (Continue next_model, s2) =>
                attempts provider st max_retries n' next_model s2
            | (Break, s2) =>
                (Raise (all_attempts_failed_msg provider max_retries), s2)
            end
        end
  end.

Definition _execute_with_fallback (provider : Provider) (st : ServiceType)
    (max_retries : nat) : M string :=
  fun s =>
    if negb (ProviderConfig.enabled (providers s provider))
    then (Raise (not_enabled_msg provider), s)
    else attempts provider st max_retries max_retries
                  (get_active_model provider st s) s.

(** ** The quota cache *)

(** [key in cache] and [cache[key]] *)
Fixpoint cache_get (k : UsageKey) (c : list (UsageKey * Z)) : option Z :=
  match c with
  | [] => None
  | (k', v) :: c' => if UsageKey_eqb k' k then Some v else cache_get k c'
  end.

Definition cache_remove (k : UsageKey) (c : list (UsageKey * Z)) : list (UsageKey * Z) :=
  filter (fun kv => negb (UsageKey_eqb (fst kv) k)) c.

(** [cache.move_to_end(key)] for a key that is present with value [v] *)
Definition cache_move_to_end (k : UsageKey) (v : Z) (c : list (UsageKey * Z)) :=
  (cache_remove k c ++ [(k, v)])%list.

(** [cache[key] = v]: a present key keeps its place, a new one goes last *)
Fixpoint cache_set (k : UsageKey) (v : Z) (c : list (UsageKey * Z)) :=
  match c with
  | [] => [(k, v)]
  | (k', v') :: c' =>
      if UsageKey_eqb k' k then (k, v) :: c' else (k', v') :: cache_set k v c'
  end.

(** [limits_config.get(service_type, 20)] *)
Definition user_daily_limit (service_type : string) : Z :=
  if String.eqb service_type "ai_chat" then getenv_int_default ("DAILY_AI_LIMIT", 20)
  else if String.eqb service_type "image_gen" then getenv_int_default ("DAILY_IMAGE_LIMIT", 5)
  else if String.eqb service_type "video_gen" then getenv_int_default ("DAILY_VIDEO_LIMIT", 2)
  else 20.

(** A statement run on a connection of the store: it raises when the
    environment says so, and counts as one access either way. *)
Definition with_connection {A} (f : SmartAIManager -> A * SmartAIManager) : M A :=
  fun s =>
    match db_fault env (db_ops s) with
    | Some msg => (Raise msg, tick_db s)
    | None => let '(a, s') := f (tick_db s) in (Return a, s')
    end.

(** [check_user_limit], at a moment when the clock reads the day [today]. *)
Definition check_user_limit (today : string) (user_id : Z) (service_type : string)
  : M (bool * Z) :=
  let cache_key : UsageKey := (user_id, today, service_type) in
  try_except
    (current_usage <-
       (fun s =>
          match cache_get cache_key (user_limits_cache s) with
          | Some current_usage =>
              (Return current_usage,
               set_cache s (cache_move_to_end cache_key current_usage (user_limits_cache s)))
          | None =>
              with_connection
                (fun s =>
                   let current_usage :=
                     match ai_usage s cache_key with
                     | Some result => result
                     | None => 0
                     end in
                   (current_usage,
                    set_cache s (cache_set cache_key current_usage (user_limits_cache s)))) s
          end) ;;
     modify (fun s =>
               if (max_cache_size s <? length (user_limits_cache s))%nat
               then set_cache s (tl (user_limits_cache s))
               else s) ;;;
     let limit := user_daily_limit service_type in
     if limit <=? current_usage then ret (false, 0)
     else ret (true, limit - current_usage))
    (fun _ => ret (true, 999)).

(** [update_user_usage] *)
Definition update_user_usage (today : string) (user_id : Z) (service_type : string)
  : M bool :=
  let cache_key : UsageKey := (user_id, today, service_type) in
  try_except
    (modify (fun s =>
               let current :=
                 match cache_get cache_key (user_limits_cache s) with
                 | Some v => v
                 | None => 0
                 end in
               set_cache s (cache_set cache_key (current + 1) (user_limits_cache s))) ;;;
     with_connection
       (fun s =>
          (tt, set_ai_usage s
                 (fun k => if UsageKey_eqb cache_key k
                           then match ai_usage s cache_key with
                                | Some n => Some (n + 1)
                                | None => Some 1
                                end
                           else ai_usage s k))) ;;;
     ret true)
    (fun _ => ret false).

(** [self.db.save_ai_conversation] and [self.db.save_generated_file]:
    one access to the store; what is written is not read back here. *)
Definition db_save : M unit := with_connection (fun s => (tt, s)).

(** ** The request entry points *)

(** What an entry point returns.  [chat_with_ai] returns the text of
    the reply or one of its fixed messages; [generate_image] and
    [generate_video] return a pair whose first component is the location
    on success and [None] otherwise. *)
Inductive Outcome :=
| Success (payload : string)
| InvalidUser                       (* "معرف مستخدم غير صالح" *)
| InvalidInput                      (* empty or too short *)
| QuotaRefused (remaining : Z)      (* "... ({remaining} متبقي)" *)
| NoProviders                       (* "جميع خدمات ... غير متاحة" *)
| AllFailed (error_summary : string)  (* "جميع خدمات ... فشلت:\n{error_summary}" *)
| Unexpected                        (* "حدث خطأ غير متوقع." *)
| SystemError.                      (* the message of the outer handler *)

(** [f"{provider_config.name.value}: {error_msg[:100]}"] *)
Definition error_summary_of (p : Provider) (error_msg : string) : string :=
  Provider_value p ++ ": " ++ Py.slice_to 100 error_msg.

(** The newline of ["\n".join(...)]. *)
Definition newline : string := String (ascii_of_nat 10) EmptyString.

(** What follows the loop over the providers. *)
Definition after_loop (errors : list string) : Outcome :=
  match errors with
  | [] => Unexpected
  | _ => AllFailed (Py.join newline (firstn 3 errors))
  end.

(** The [try] block of the loop body: [Some o] when the function returns
    [o], [None] when the block ends and the loop goes on. *)
Definition try_provider (st : ServiceType) (service_type : string) (max_retries : nat)
    (today : string) (user_id : Z) (provider_config : Provider) : M (option Outcome) :=
  provider <- get (fun s => ProviderConfig.name (providers s provider_config)) ;;
  response <- _execute_with_fallback provider st max_retries ;;
  if Py.truthy (Some response) then
    update_user_usage today user_id service_type ;;;
    modify (fun s => set_provider s provider_config
                       (ProviderConfig.incr_usage (providers s provider_config))) ;;;
    db_save ;;;
    ret (Some (Success response))
  else ret None.

(** [for provider_config in providers: try: ... except Exception ...],
    then the lines after the loop. *)
Fixpoint provider_loop (st : ServiceType) (service_type : string) (max_retries : nat)
    (today : string) (user_id : Z) (ps : list Provider) (errors : list string)
  : M Outcome :=
  match ps with
  | [] => ret (after_loop errors)
  | provider_config :: rest =>
      fun s =>
        match try_provider st service_type max_retries today user_id provider_config s with
        | (Return (Some o), s1) => (Return o, s1)
        | (Return None, s1) =>
            provider_loop st service_type max_retries today user_id rest errors s1
        | (Raise error_msg, s1) =>
            let config := providers s1 provider_config in
            let errors1 :=
              (errors ++ [error_summary_of (ProviderConfig.name config) error_msg])%list in
            let s2 := set_provider s1 provider_config
                        (ProviderConfig.record_error config error_msg) in
            provider_loop st service_type max_retries today user_id rest errors1 s2
        end
  end.

(** [_enhance_image_prompt] and [_enhance_video_prompt]: one call to the
    active chat model of Google when there is one; every failure is
    caught there, and the manager is left as it was. *)
Definition _enhance_prompt : M unit :=
  fun s =>
    let google_config := providers s GOOGLE in
    if (ProviderConfig.enabled google_config
        && Py.truthy (ProviderConfig.active_models google_config CHAT))%bool
    then match ProviderConfig.active_models google_config CHAT with
         | Some model_name => (Return tt, log_call s (Enhance model_name))
         | None => (Return tt, s)
         end
    else (Return tt, s).

(** The part the three entry points share after validation. *)
Definition serve (st : ServiceType) (service_type : string) (max_retries : nat)
    (enhance : bool) (today : string) (user_id : Z) : M Outcome :=
  limit <- check_user_limit today user_id service_type ;;
  let '(allowed, remaining) := limit in
  if negb allowed then ret (QuotaRefused remaining)
  else
    ps <- get (get_available_providers st) ;;
    match ps with
    | [] => ret NoProviders
    | _ =>
        (if enhance then _enhance_prompt else ret tt) ;;;
        provider_loop st service_type max_retries today user_id ps []
    end.

(** [not text or len(text.strip()) < n] *)
Definition too_short (text : string) (n : Z) : bool :=
  (negb (Py.truthy (Some text)) || (Py.len (Py.strip text) <? n))%bool.

Definition chat_with_ai (today : string) (user_id : Z) (message : string) : M Outcome :=
  try_except
    (ensure_discovery ;;;
     if user_id <=? 0 then ret InvalidUser
     else if too_short message 1 then ret InvalidInput
     else serve CHAT "ai_chat" 16 false today user_id)
    (fun _ => ret SystemError).

Definition generate_image (today : string) (user_id : Z) (prompt : string) : M Outcome :=
  try_except
    (ensure_discovery ;;;
     if user_id <=? 0 then ret InvalidUser
     else if too_short prompt 3 then ret InvalidInput
     else serve IMAGE "image_gen" 6 true today user_id)
    (fun _ => ret SystemError).

Definition generate_video (today : string) (user_id : Z) (prompt : string) : M Outcome :=
  try_except
    (ensure_discovery ;;;
     if user_id <=? 0 then ret InvalidUser
     else if too_short prompt 5 then ret InvalidInput
     else serve VIDEO "video_gen" 6 true today user_id)
    (fun _ => ret SystemError).

(** The entry point of a service type. *)
Definition entry_point (st : ServiceType) : string -> Z -> string -> M Outcome :=
  match st with
  | CHAT => chat_with_ai
  | IMAGE => generate_image
  | VIDEO => generate_video
  end.

End Engine.

(** The [max_retries] each entry point passes to the fallback engine, and
    the name under which it counts the user's requests. *)
Definition max_retries_of (st : ServiceType) : nat :=
  match st with CHAT => 16 | IMAGE => 6 | VIDEO => 6 end.

Definition usage_service_of (st : ServiceType) : string :=
  match st with CHAT => "ai_chat" | IMAGE => "image_gen" | VIDEO => "video_gen" end.

Definition enhances_prompt (st : ServiceType) : bool :=
  match st with CHAT => false | IMAGE | VIDEO => true end.

(** The shortest text each entry point accepts, after [strip()]. *)
Definition min_length_of (st : ServiceType) : Z :=
  match st with CHAT => 1 | IMAGE => 3 | VIDEO => 5 end.

(** The three entry points are one text with these constants filled in. *)
Definition handle_request (env : Environment) (st : ServiceType)
    (today : string) (user_id : Z) (text : string) : M Outcome :=
  try_except
    (ensure_discovery env ;;;
     if user_id <=? 0 then ret InvalidUser
     else if too_short text (min_length_of st) then ret InvalidInput
     else serve env st (usage_service_of st) (max_retries_of st) (enhances_prompt st)
                today user_id)
    (fun _ => ret SystemError).

(** [ensure_discovery] and an entry point around a discovery routine:
    [routine] stands for [self._setup_and_discover_async()], so that what
    the two do with an exception that leaves the routine can be stated.
    With the routine of the class they are [ensure_discovery] and
    [handle_request]. *)
Definition ensure_discovery_around (routine : M unit) : M unit :=
  fun s =>
    if negb (discovery_completed s)
    then (routine ;;;
          modify (fun s => set_discovery_completed s true)) s
    else (Return tt, s).

Definition handle_request_around (routine : M unit) (env : Environment)
    (st : ServiceType) (today : string) (user_id : Z) (text : string) : M Outcome :=
  try_except
    (ensure_discovery_around routine ;;;
     if user_id <=? 0 then ret InvalidUser
     else if too_short text (min_length_of st) then ret InvalidInput
     else serve env st (usage_service_of st) (max_retries_of st) (enhances_prompt st)
                today user_id)
    (fun _ => ret SystemError).

(** ** The daily reset and the statistics *)

(** The text of a cache key, [f"{user_id}_{today}_{service_type}"]. *)
Definition cache_key_str (k : UsageKey) : string :=
  let '(user_id, today, service_type) := k in
  Py.str_of_Z user_id ++ "_" ++ today ++ "_" ++ service_type.

(** [usage_today = 0; errors_today = 0; last_error = None] *)
Definition reset_counters (c : ProviderConfig.t) : ProviderConfig.t :=
  ProviderConfig.mk (ProviderConfig.name c) (ProviderConfig.api_key c)
    (ProviderConfig.enabled c) (ProviderConfig.daily_limit c) 0 0 None
    (ProviderConfig.discovered_models c) (ProviderConfig.active_models c).

(** [reset_daily_counts], at a moment when the clock reads the day
    [today]: the keys that do not end with [today] are deleted, and the
    counters of every provider are reset. *)
Definition reset_daily_counts (today : string) : M unit :=
  modify (fun s =>
    let keys_to_delete :=
      filter (fun key => negb (Py.endswith (cache_key_str key) today))
             (map fst (user_limits_cache s)) in
    let s1 := fold_left (fun s key => set_cache s (cache_remove key (user_limits_cache s)))
                        keys_to_delete s in
    set_providers s1 (fun p => reset_counters (providers s1 p))).

(** [get_available_services] *)
Definition get_available_services (s : SmartAIManager) : list (string * bool) :=
  [ ("chat", (0 <? length (get_available_providers CHAT s))%nat);
    ("image_generation", (0 <? length (get_available_providers IMAGE s))%nat);
    ("video_generation", (0 <? length (get_available_providers VIDEO s))%nat) ].

(** [get_user_stats]: the counts are read from the cache only. *)
Definition get_user_stats (today : string) (user_id : Z) (s : SmartAIManager)
  : list (string * Z) :=
  map (fun service_type =>
         (service_type,
          match cache_get (user_id, today, service_type) (user_limits_cache s) with
          | Some v => v
          | None => 0
          end))
      ["ai_chat"; "image_gen"; "video_gen"].

Module ProviderStats.
Record t := mk {
  enabled : bool;
  usage_today : Z;
  errors_today : Z;
  daily_limit : Z;
  remaining_limit : Z;
  last_error : option string;
  active_models : ServiceDict string;
  discovered_models_count : ServiceDict nat
}.
End ProviderStats.

Module SystemStats.
Record t := mk {
  providers : list (string * ProviderStats.t);
  total_requests_today : Z;
  total_errors_today : Z;
  discovery_completed : bool;
  active_sessions : nat;
  cache_size : nat;
  timestamp : string
}.
End SystemStats.

(** The entry [get_system_stats] makes for an enabled provider. *)
Definition provider_stats (config : ProviderConfig.t) : ProviderStats.t :=
  ProviderStats.mk true
    (ProviderConfig.usage_today config) (ProviderConfig.errors_today config)
    (ProviderConfig.daily_limit config)
    (ProviderConfig.daily_limit config - ProviderConfig.usage_today config)
    (if Py.truthy (ProviderConfig.last_error config)
     then option_map (Py.slice_to 100) (ProviderConfig.last_error config)
     else None)
    (ProviderConfig.active_models config)
    (fun st => option_map (@length _) (ProviderConfig.discovered_models config st)).

(** [get_system_stats]; [active_sessions] is the number of chat sessions
    and [timestamp] the reading of the clock. *)
Definition get_system_stats (active_sessions : nat) (timestamp : string)
    (s : SmartAIManager) : SystemStats.t :=
  let enabled_providers :=
    filter (fun p => ProviderConfig.enabled (providers s p)) all_providers in
  SystemStats.mk
    (map (fun p => (Provider_value p, provider_stats (providers s p))) enabled_providers)
    (fold_left (fun total p => total + ProviderConfig.usage_today (providers s p))
               enabled_providers 0)
    (fold_left (fun total p => total + ProviderConfig.errors_today (providers s p))
               enabled_providers 0)
    (discovery_completed s)
    active_sessions
    (length (user_limits_cache s))
    timestamp.

(** ** The chat sessions

    [self.chat_sessions] maps a user to the chat opened for him and the
    time of his last message.  Times are in microseconds; a chat is known
    by the model it was started on. *)

Module ChatSessions.

Record Session := mkSession {
  chat : string;
  last_activity : Z
}.

(** The dict, in insertion order. *)
Definition t : Type := list (Z * Session).

(** [timedelta(hours=1)] *)
Definition session_timeout : Z := 3600 * 1000000.

Fixpoint lookup (user_id : Z) (sessions : t) : option Session :=
  match sessions with
  | [] => None
  | (u, session) :: sessions' =>
      if u =? user_id then Some session else lookup user_id sessions'
  end.

(** [del self.chat_sessions[user_id]] *)
Definition delete (user_id : Z) (sessions : t) : t :=
  filter (fun us => negb (fst us =? user_id)) sessions.

(** [self.chat_sessions[user_id] = session]: a present key keeps its
    place, a new one goes last. *)
Fixpoint store (user_id : Z) (session : Session) (sessions : t) : t :=
  match sessions with
  | [] => [(user_id, session)]
  | (u, old) :: sessions' =>
      if u =? user_id then (u, session) :: sessions'
      else (u, old) :: store user_id session sessions'
  end.

(** [_cleanup_old_sessions], when the clock reads [now]. *)
Definition _cleanup_old_sessions (now : Z) (sessions : t) : t :=
  let to_delete :=
    map fst (filter (fun us => session_timeout <? now - last_activity (snd us)) sessions) in
  fold_left (fun sessions user_id => delete user_id sessions) to_delete sessions.

(** The lines of [_chat_with_google] that come before the message is
    sent: the clean-up, the opening of a chat on [model_name] for a user
    who has none, and the update of [last_activity].  The clock is read
    three times.  The result is the chat the message is sent on. *)
Definition open_session (model_name : string) (user_id : Z) (now0 now1 now2 : Z)
    (sessions : t) : exc string * t :=
  let sessions1 := _cleanup_old_sessions now0 sessions in
  let sessions2 :=
    match lookup user_id sessions1 with
    | None => store user_id (mkSession model_name now1) sessions1
    | Some _ => sessions1
    end in
  match lookup user_id sessions2 with
  | None => (Raise "KeyError", sessions2)
  | Some session =>
      (Return (chat session),
       store user_id (mkSession (chat session) now2) sessions2)
  end.

End ChatSessions.

(** ** The command layer ([src/bot.py]) *)

Module Bot.

(** [is_admin], over the list [ADMIN_IDS] read when the module loads. *)
Definition is_admin (ADMIN_IDS : list Z) (user_id : Z) : bool :=
  existsb (Z.eqb user_id) ADMIN_IDS.

(** What a command handler answers with. *)
Inductive Reply :=
| UsageText                      (* the help text of the command *)
| PromptTooShort                 (* "... وصف أطول ..." *)
| Answer (o : Outcome)           (* what the manager returned *)
| TemporaryError                 (* the handler of the command *)
| AdminOnly                      (* "هذا الأمر للمشرفين فقط" *)
| ResetDone
| ResetFailed.

Definition image_styles : list string :=
  ["realistic"; "anime"; "fantasy"; "cyberpunk"; "watercolor"].

(** The prompt and the style [image_command] reads from a non-empty
    [context.args]. *)
Definition image_prompt_and_style (args : list string) : string * string :=
  let last_arg := last args EmptyString in
  let prompt_words := removelast args in
  let style :=
    if existsb (String.eqb last_arg) image_styles then last_arg else "realistic" in
  let prompt_words := if negb (String.eqb style last_arg) then args else prompt_words in
  (Py.join " " prompt_words, style).

Section Commands.
Variable env : Environment.

(** [chat_command] *)
Definition chat_command (today : string) (user_id : Z) (args : list string) : M Reply :=
  let user_message := match args with [] => EmptyString | _ => Py.join " " args end in
  if negb (Py.truthy (Some user_message)) then ret UsageText
  else
    try_except
      (response <- chat_with_ai env today user_id user_message ;;
       ret (Answer response))
      (fun _ => ret TemporaryError).

(** [image_command] *)
Definition image_command (today : string) (user_id : Z) (args : list string) : M Reply :=
  match args with
  | [] => ret UsageText
  | _ =>
      let '(prompt, style) := image_prompt_and_style args in
      if Py.len prompt <? 3 then ret PromptTooShort
      else
        try_except
          (result <- generate_image env today user_id prompt ;;
           ret (Answer result))
          (fun _ => ret TemporaryError)
  end.

(** [video_command] *)
Definition video_command (today : string) (user_id : Z) (args : list string) : M Reply :=
  match args with
  | [] => ret UsageText
  | _ =>
      let prompt := Py.join " " args in
      if Py.len prompt <? 4 then ret PromptTooShort
      else
        try_except
          (result <- generate_video env today user_id prompt ;;
           ret (Answer result))
          (fun _ => ret TemporaryError)
  end.

(** [reset_cache_command] *)
Definition reset_cache_command (ADMIN_IDS : list Z) (today : string) (user_id : Z)
  : M Reply :=
  if negb (is_admin ADMIN_IDS user_id) then ret AdminOnly
  else
    try_except
      (reset_daily_counts today ;;;
       modify (fun s => set_cache s []) ;;;
       ret ResetDone)
      (fun _ => ret ResetFailed).

End Commands.

End Bot.

(** * The vocabulary of the properties *)

Definition priority_le (a b : ModelInfo.t) : Prop :=
  ModelInfo.priority a <= ModelInfo.priority b.

(** Every configuration is stored under its own name. *)
Definition registry_ok (s : SmartAIManager) : Prop :=
  forall p, ProviderConfig.name (providers s p) = p.

(** Two configurations that differ in their active models at most. *)
Definition same_but_active (c c' : ProviderConfig.t) : Prop :=
  ProviderConfig.name c' = ProviderConfig.name c /\
  ProviderConfig.api_key c' = ProviderConfig.api_key c /\
  ProviderConfig.enabled c' = ProviderConfig.enabled c /\
  ProviderConfig.daily_limit c' = ProviderConfig.daily_limit c /\
  ProviderConfig.usage_today c' = ProviderConfig.usage_today c /\
  ProviderConfig.errors_today c' = ProviderConfig.errors_today c /\
  ProviderConfig.last_error c' = ProviderConfig.last_error c /\
  ProviderConfig.discovered_models c' = ProviderConfig.discovered_models c.

Definition is_generate_of (p : Provider) (st : ServiceType) (c : Contact) : Prop :=
  exists m, c = Generate p st m.

(** What the fallback engine may change while it works on provider [p]
    for the service [st]: the active models of [p], and the call log. *)
Record engine_footprint (p : Provider) (st : ServiceType) (s s' : SmartAIManager) : Prop := {
  fp_cache : user_limits_cache s' = user_limits_cache s;
  fp_size : max_cache_size s' = max_cache_size s;
  fp_flag : discovery_completed s' = discovery_completed s;
  fp_usage : ai_usage s' = ai_usage s;
  fp_ops : db_ops s' = db_ops s;
  fp_others : forall q, q <> p -> providers s' q = providers s q;
  fp_self : same_but_active (providers s p) (providers s' p);
  fp_active : forall st', st' <> st ->
      ProviderConfig.active_models (providers s' p) st' =
      ProviderConfig.active_models (providers s p) st';
  fp_calls : exists l, calls s' = (calls s ++ l)%list /\ Forall (is_generate_of p st) l
}.

Record store_footprint (s s' : SmartAIManager) : Prop := {
  sf_providers : providers s' = providers s;
  sf_calls : calls s' = calls s;
  sf_flag : discovery_completed s' = discovery_completed s;
  sf_size : max_cache_size s' = max_cache_size s
}.

(** The part of a configuration that requests never write. *)
Definition same_settings (c c' : ProviderConfig.t) : Prop :=
  ProviderConfig.name c' = ProviderConfig.name c /\
  ProviderConfig.api_key c' = ProviderConfig.api_key c /\
  ProviderConfig.enabled c' = ProviderConfig.enabled c /\
  ProviderConfig.daily_limit c' = ProviderConfig.daily_limit c /\
  ProviderConfig.discovered_models c' = ProviderConfig.discovered_models c.

Definition is_generate_in (ps : list Provider) (st : ServiceType) (c : Contact) : Prop :=
  exists p m, In p ps /\ c = Generate p st m.

Record loop_footprint (st : ServiceType) (ps : list Provider) (s s' : SmartAIManager)
  : Prop := {
  lf_flag : discovery_completed s' = discovery_completed s;
  lf_size : max_cache_size s' = max_cache_size s;
  lf_settings : forall q, same_settings (providers s q) (providers s' q);
  lf_others : forall q, ~ In q ps -> providers s' q = providers s q;
  lf_calls : exists l, calls s' = (calls s ++ l)%list /\ Forall (is_generate_in ps st) l
}.


(** The model an attempt calls: the current one, or the head of the ranked
    list when there is none. *)
Definition resolve_model (cur : option string) (s : SmartAIManager)
    (p : Provider) (st : ServiceType) : option string :=
  if Py.truthy cur then cur
  else match ProviderConfig.discovered_models (providers s p) st with
       | Some (m0 :: _) => Some (ModelInfo.name m0)
       | _ => None
       end.

(** The model the first attempt on a provider calls. *)
Definition model_to_try (s : SmartAIManager) (p : Provider) (st : ServiceType)
  : option string :=
  resolve_model (get_active_model p st s) s p st.

(** The manager once the attempt has settled on its model. *)
Definition after_pick (cur : option string) (s : SmartAIManager)
    (p : Provider) (st : ServiceType) (m : string) : SmartAIManager :=
  if Py.truthy cur then s
  else set_provider s p (ProviderConfig.set_active_model (providers s p) st m).

Definition quota_style (msg : string) : bool :=
  (is_quota_error msg || is_model_error msg)%bool.

(** Every call made for [p] fails with a quota or model signal. *)
Definition always_quota_style (env : Environment) (p : Provider) (st : ServiceType)
  : Prop :=
  forall model t, exists msg,
    backend env (api_of st p) st model t = Raise msg /\ quota_style msg = true.

(** The closure of a provider makes a call: the provider serves the
    capability and has a call of its own, or borrows the call of Luma
    and Luma is enabled. *)
Definition makes_call (s : SmartAIManager) (st : ServiceType) (p : Provider) : bool :=
  (supports st p
   && (Provider_eqb (api_of st p) p || ProviderConfig.enabled (providers s LUMA)))%bool.

(** The backend whose API a logged call has reached. *)
Definition api_reached (c : Contact) : Provider :=
  match c with
  | Generate p st _ => api_of st p
  | Enhance _ => GOOGLE
  end.

(** The key touched last sits at the end of the cache. *)
Definition cached_last (k : UsageKey) (v : Z) (c : list (UsageKey * Z)) : Prop :=
  exists c0, c = (c0 ++ [(k, v)])%list /\ ~ In k (map fst c0).

(** The count the store holds for a key. *)
Definition stored (s : SmartAIManager) (k : UsageKey) : Z :=
  match ai_usage s k with
  | Some n => n
  | None => 0
  end.

(** The cache is a dictionary, every entry of which repeats the store. *)
Definition cache_ok (c : list (UsageKey * Z)) (table : UsageKey -> option Z) : Prop :=
  NoDup (map fst c) /\
  forall k v, cache_get k c = Some v ->
              v = match table k with Some n => n | None => 0 end.

Record quota_inv (s : SmartAIManager) : Prop := {
  qi_cache : cache_ok (user_limits_cache s) (ai_usage s);
  qi_size : (1 <= max_cache_size s)%nat
}.

(** The answer of [check_user_limit] for a count. *)
Definition quota_decision (env : Environment) (service_type : string)
    (current_usage : Z) : bool * Z :=
  let limit := user_daily_limit env service_type in
  if limit <=? current_usage then (false, 0) else (true, limit - current_usage).

Definition is_backend_summary (e : string) : Prop :=
  exists p msg, e = error_summary_of p msg.

Definition is_success (o : Outcome) : Prop :=
  exists payload, o = Success payload /\ payload <> EmptyString.

(** The operations on the quota cache: a check and the commit that
    follows a successful generation, as the entry points call them, and the
    [user_limits_cache.clear()] of the command layer. *)
Inductive QuotaOp :=
| OpCheck (user_id : Z) (today service_type : string)
| OpCommit (user_id : Z) (today service_type : string)
| OpClear.

Definition run_op (env : Environment) (op : QuotaOp) (s : SmartAIManager) : SmartAIManager :=
  match op with
  | OpCheck u d svc => snd (check_user_limit env d u svc s)
  | OpCommit u d svc => snd (update_user_usage env d u svc s)
  | OpClear => set_cache s []
  end.

Definition run_ops (env : Environment) (ops : list QuotaOp) (s : SmartAIManager)
  : SmartAIManager :=
  fold_left (fun s op => run_op env op s) ops s.

(** In an entry point a commit comes after the check of the same key, with
    nothing but commits of that key in between. *)
Fixpoint commits_follow_checks (checked : option UsageKey) (ops : list QuotaOp) : bool :=
  match ops with
  | [] => true
  | OpCheck u d svc :: ops' => commits_follow_checks (Some (u, d, svc)) ops'
  | OpCommit u d svc :: ops' =>
      match checked with
      | Some k => (UsageKey_eqb k (u, d, svc) && commits_follow_checks checked ops')%bool
      | None => false
      end
  | OpClear :: ops' => commits_follow_checks None ops'
  end.

(** How many commits of the key [k] a sequence holds. *)
Fixpoint commits_of (k : UsageKey) (ops : list QuotaOp) : Z :=
  match ops with
  | [] => 0
  | OpCommit u d svc :: ops' =>
      (if UsageKey_eqb (u, d, svc) k then 1 else 0) + commits_of k ops'
  | OpCheck _ _ _ :: ops' => commits_of k ops'
  | OpClear :: ops' => commits_of k ops'
  end.

(** A property of the manager that a computation keeps. *)
Definition preserves (P : SmartAIManager -> Prop) {A} (m : M A) : Prop :=
  forall s r s', P s -> m s = (r, s') -> P s'.

(** The five steps as functions of the manager: none of them raises. *)
Definition google_step (env : Environment) (s : SmartAIManager) : SmartAIManager :=
  snd (_setup_and_discover_google env s).

Definition openai_step (env : Environment) (s : SmartAIManager) : SmartAIManager :=
  snd (_setup_and_discover_openai env s).

Definition other_step (s : SmartAIManager) : SmartAIManager :=
  setup_bearer_api KLING (setup_bearer_api LUMA (setup_bearer_api STABILITY s)).

Definition select_step (s : SmartAIManager) : SmartAIManager :=
  fold_left (fun s p => select_best_of p s) all_providers s.

(** The cache, the store and the call log are the same in both. *)
Definition same_store (s s' : SmartAIManager) : Prop :=
  user_limits_cache s' = user_limits_cache s /\
  max_cache_size s' = max_cache_size s /\
  ai_usage s' = ai_usage s /\
  db_ops s' = db_ops s /\
  calls s' = calls s.

(** What [_select_best_models] does to one configuration. *)
Definition select_best_config (c : ProviderConfig.t) : ProviderConfig.t :=
  if negb (ProviderConfig.enabled c) then c
  else fold_left (fun c st => select_best_for st c) all_service_types c.

Definition is_bearer (p : Provider) : bool :=
  match p with STABILITY | LUMA | KLING => true | _ => false end.

(** A credential with which discovery may enable the backend [p]. *)
Definition enabling_key (p : Provider) (key : option string) : Prop :=
  match key with
  | Some k => k <> EmptyString /\ (is_bearer p = true -> 20 < Py.len k)
  | None => False
  end.

Definition keys_respected (env : Environment) (s : SmartAIManager) : Prop :=
  forall p,
    ProviderConfig.api_key (providers s p) = getenv env (api_key_var p) /\
    (ProviderConfig.enabled (providers s p) = true ->
     enabling_key p (getenv env (api_key_var p))).

(** The models of a backend for a service type, in the order discovery
    finds them, before the sort. *)
Definition discovery_order (env : Environment) (p : Provider) (st : ServiceType)
  : list ModelInfo.t :=
  match p with
  | GOOGLE =>
      filter (fun m => ServiceType_eqb (ModelInfo.service_type m) st)
             (filter_map _analyze_google_model (google_all_models env))
  | OPENAI => filter_map (fun n => _analyze_openai_model n st) (known_openai_models st)
  | _ => []
  end.

(** [discovered_models.get(st, [])] *)
Definition models_of (c : ProviderConfig.t) (st : ServiceType) : list ModelInfo.t :=
  match ProviderConfig.discovered_models c st with
  | Some l => l
  | None => []
  end.

(** The active model is unset, or is the head of the ranked list. *)
Definition active_is_head_or_unset (c : ProviderConfig.t) (st : ServiceType) : Prop :=
  ProviderConfig.active_models c st = None \/
  exists m rest, models_of c st = m :: rest /\
                 ProviderConfig.active_models c st = Some (ModelInfo.name m).

(** The active model is the head of the ranked list, and unset when the
    list is empty. *)
Definition active_is_head (c : ProviderConfig.t) (st : ServiceType) : Prop :=
  match models_of c st with
  | [] => ProviderConfig.active_models c st = None
  | m :: _ => ProviderConfig.active_models c st = Some (ModelInfo.name m)
  end.

Definition catalogue_ok (env : Environment) (p : Provider) (c : ProviderConfig.t) : Prop :=
  forall st,
    active_is_head_or_unset c st /\
    match ProviderConfig.discovered_models c st with
    | Some l => l = sort_by_priority (discovery_order env p st)
    | None => ProviderConfig.enabled c = true -> discovery_order env p st = []
    end.

Definition catalogues_ok (env : Environment) (s : SmartAIManager) : Prop :=
  forall p, catalogue_ok env p (providers s p).

(** What the spec asks of a credential: present, not empty, ten characters
    at least, and of the expected prefix where one is known. *)
Definition spec_credential_rejected (p : Provider) (key : option string) : bool :=
  match key with
  | None => true
  | Some k =>
      (Py.strip_is_empty k || (Py.len k <? 10)
       || match p with
          | GOOGLE => negb (Py.startswith k "AI")
          | OPENAI => negb (Py.startswith k "sk-")
          | _ => false
          end)%bool
  end.

(** A request: the capability, the day, the user and the text. *)
Definition Request : Type := (ServiceType * string * Z * string)%type.

Definition run_request (env : Environment) (s : SmartAIManager) (q : Request)
  : SmartAIManager :=
  let '(st, today, user_id, text) := q in
  snd (entry_point env st today user_id text s).

(** The manager after a sequence of requests. *)
Definition run_requests (env : Environment) (qs : list Request) (s : SmartAIManager)
  : SmartAIManager :=
  fold_left (run_request env) qs s.

Fixpoint nodupb (l : list string) : bool :=
  match l with
  | [] => true
  | x :: l' => (negb (existsb (String.eqb x) l') && nodupb l')%bool
  end.

(** A placeholder for the head of an empty list. *)
Definition no_model : ModelInfo.t := ModelInfo.make EmptyString GOOGLE CHAT EmptyString false 0.

(** The local [current_model] of the fallback engine, when it is set, is
    the active model of the backend. *)
Definition active_is (p : Provider) (st : ServiceType) (cur : option string)
    (s : SmartAIManager) : Prop :=
  Py.truthy cur = true -> ProviderConfig.active_models (providers s p) st = cur.

(** What happens to a manager: a request, or a reset of the day by the
    command layer. *)
Inductive Event :=
| Ask (q : Request)
| Reset (today : string) (user_id : Z).

Definition run_event (env : Environment) (ADMIN_IDS : list Z) (s : SmartAIManager)
    (e : Event) : SmartAIManager :=
  match e with
  | Ask q => run_request env s q
  | Reset today user_id => snd (Bot.reset_cache_command ADMIN_IDS today user_id s)
  end.

Definition run_events (env : Environment) (ADMIN_IDS : list Z) (es : list Event)
    (s : SmartAIManager) : SmartAIManager :=
  fold_left (run_event env ADMIN_IDS) es s.

(** The limit, the usage and the errors of a configuration. *)
Definition counters_of (c : ProviderConfig.t) : Z * Z * Z :=
  (ProviderConfig.daily_limit c, ProviderConfig.usage_today c,
   ProviderConfig.errors_today c).

(** The most calls a request of a capability can make: one for the
    enhancement of the prompt where there is one, and the budget of
    attempts for each backend that serves the capability. *)
Definition request_budget (st : ServiceType) : nat :=
  (if enhances_prompt st then 1 else 0)
  + max_retries_of st * length (filter (supports st) all_providers).

(** [m] names a model of the ranked list of [p] for [st]. *)
Definition listed (s : SmartAIManager) (p : Provider) (st : ServiceType) (m : string)
  : Prop :=
  In m (map ModelInfo.name (models_of (providers s p) st)).

(** Active models and called models are models of the ranked lists. *)
Record catalogue_inv (s : SmartAIManager) : Prop := {
  ci_active : forall p st m,
    ProviderConfig.active_models (providers s p) st = Some m -> listed s p st m;
  ci_calls : forall p st m,
    In (Generate p st m) (calls s) -> supports st p = true /\ listed s p st m;
  ci_enhance : forall m, In (Enhance m) (calls s) -> listed s GOOGLE CHAT m
}.

(** The ranked lists are the lists discovery makes. *)
Definition lists_ok (env : Environment) (s : SmartAIManager) : Prop :=
  forall p st,
    models_of (providers s p) st = [] \/
    models_of (providers s p) st = sort_by_priority (discovery_order env p st).

(** What holds of every manager reached from a new one. *)
Definition reached_inv (env : Environment) (s : SmartAIManager) : Prop :=
  lists_ok env s /\
  if discovery_completed s then catalogue_inv s
  else catalogues_ok env s /\ calls s = [].

(** The current model of the engine, when it is set, is a listed one. *)
Definition current_listed_at (s : SmartAIManager) (p : Provider) (st : ServiceType)
    (cur : option string) : Prop :=
  Py.truthy cur = true -> exists m, cur = Some m /\ listed s p st m.

(** What a request keeps of the cache: it repeats the store, it is
    within its size, and it holds the key of the request. *)
Definition cache_inv (k : UsageKey) (s : SmartAIManager) : Prop :=
  quota_inv s /\
  (length (user_limits_cache s) <= max_cache_size s)%nat /\
  cache_get k (user_limits_cache s) <> None.

(** The last character of a string. *)
Fixpoint last_char (s : string) : option ascii :=
  match s with
  | EmptyString => None
  | String c EmptyString => Some c
  | String _ s' => last_char s'
  end.

Definition is_digit (c : ascii) : bool :=
  let n := nat_of_ascii c in (Nat.leb 48 n && Nat.leb n 57)%bool.

(** A day as [strftime('%Y-%m-%d')] writes it ends with a digit. *)
Definition ends_with_digit (today : string) : bool :=
  match last_char today with
  | Some c => is_digit c
  | None => false
  end.

(** The names under which the entry points count the requests. *)
Definition usage_services : list string := ["ai_chat"; "image_gen"; "video_gen"].

(** A word of [context.args]: [str.split()] yields words that hold a
    character at least and no white space. *)
Fixpoint no_space (s : string) : bool :=
  match s with
  | EmptyString => true
  | String c s' => (negb (Py.is_space c) && no_space s')%bool
  end.

Definition is_word (w : string) : Prop := 1 <= Py.len w /\ no_space w = true.

(** The name of a capability in [get_available_services]. *)
Definition service_label (st : ServiceType) : string :=
  match st with
  | CHAT => "chat" | IMAGE => "image_generation" | VIDEO => "video_generation"
  end.

(** The store holds one more for [k], and what it held for the others. *)
Definition charged_once (k : UsageKey) (s s' : SmartAIManager) : Prop :=
  stored s' k = stored s k + 1 /\ forall k', k' <> k -> stored s' k' = stored s k'.

(** The usage of [p] has gone up by one, the usage of the others has not
    changed. *)
Definition used_once (p : Provider) (s s' : SmartAIManager) : Prop :=
  ProviderConfig.usage_today (providers s' p) = ProviderConfig.usage_today (providers s p) + 1 /\
  forall q, q <> p ->
    ProviderConfig.usage_today (providers s' q) = ProviderConfig.usage_today (providers s q).

(** Neither the store nor the usage of a backend has changed. *)
Definition nothing_charged (s s' : SmartAIManager) : Prop :=
  ai_usage s' = ai_usage s /\
  forall q,
    ProviderConfig.usage_today (providers s' q) = ProviderConfig.usage_today (providers s q).

(** What a request charges: an answer is charged once to the user and
    once to the backend that gave it, and nothing else is charged. *)
Definition charges (k : UsageKey) (ps : list Provider) (s : SmartAIManager)
    (r : exc Outcome) (s' : SmartAIManager) : Prop :=
  match r with
  | Return (Success reply) =>
      reply <> EmptyString /\ charged_once k s s' /\
      exists p, In p ps /\ used_once p s s'
  | _ => nothing_charged s s'
  end.

(** The usage of all the backends together. *)
Definition total_usage (s : SmartAIManager) : Z :=
  fold_left (fun total p => total + ProviderConfig.usage_today (providers s p))
            all_providers 0.

(** An event, and the count of the requests answered since the last
    reset by an administrator. *)
Definition count_event (env : Environment) (ADMIN_IDS : list Z)
    (sn : SmartAIManager * Z) (e : Event) : SmartAIManager * Z :=
  let '(s, n) := sn in
  match e with
  | Ask (st, today, user_id, text) =>
      match entry_point env st today user_id text s with
      | (Return (Success _), s') => (s', n + 1)
      | (_, s') => (s', n)
      end
  | Reset today user_id =>
      (snd (Bot.reset_cache_command ADMIN_IDS today user_id s),
       if Bot.is_admin ADMIN_IDS user_id then 0 else n)
  end.

Definition answered_since_reset (env : Environment) (ADMIN_IDS : list Z)
    (es : list Event) (s : SmartAIManager) : Z :=
  snd (fold_left (count_event env ADMIN_IDS) es (s, 0)).

(** A backend that is not enabled has not been used, and no backend has
    been used before discovery. *)
Definition unused_when_disabled (s : SmartAIManager) : Prop :=
  (discovery_completed s = false ->
   forall q, ProviderConfig.usage_today (providers s q) = 0) /\
  (forall q, ProviderConfig.enabled (providers s q) = false ->
             ProviderConfig.usage_today (providers s q) = 0).


(** * Scenarios

    Concrete environments and managers on which the properties below are
    run. *)

Module Scenario.

(** Only Google has a credential. *)
Definition google_only (key : string) : string -> option string :=
  fun name => if String.eqb name "GOOGLE_AI_API_KEY" then Some key else None.

Definition no_rows : UsageKey -> option Z := fun _ => None.

Definition no_fault : DiscoveryStep -> option string := fun _ => None.

Definition store_up : nat -> option string := fun _ => None.

Definition quota_message : string := "429 Resource exhausted: quota exceeded".

(** Google answers every call with a quota error; its live model list
    cannot be fetched, so the static list is ranked. *)
Definition throttled : Environment :=
  mkEnv (google_only "AIzaSyA-0123456789abcdef") (fun _ => None) None
        (inl "list_models failed") None no_fault
        (fun _ _ _ _ => Raise quota_message) store_up.

(** Google and OpenAI both have credentials; Google answers every call
    with a quota error and OpenAI answers every call. *)
Definition throttled_google : Environment :=
  mkEnv (fun name =>
           if String.eqb name "GOOGLE_AI_API_KEY" then Some "AIzaSyA-0123456789abcdef"
           else if String.eqb name "OPENAI_API_KEY" then Some "sk-0123456789abcdef"
           else None)
        (fun _ => None) None (inl "list_models failed") None no_fault
        (fun p _ _ _ =>
           match p with
           | GOOGLE => Raise quota_message
           | _ => Return "hello"
           end)
        store_up.

(** Google lists one chat model only, and answers every call with a quota
    error. *)
Definition one_chat_model : Environment :=
  mkEnv (google_only "AIzaSyA-0123456789abcdef") (fun _ => None) None
        (inr ["models/gemini-2.5-flash"]) None no_fault
        (fun _ _ _ _ => Raise quota_message) store_up.

(** Google lists one image model only, and answers every call with a
    not-found error. *)
Definition one_image_model : Environment :=
  mkEnv (google_only "AIzaSyA-0123456789abcdef") (fun _ => None) None
        (inr ["models/imagen-3.0-generate-001"]) None no_fault
        (fun _ _ _ _ => Raise "Google Error 404: model not found") store_up.

(** Google's calls fail with a network error. *)
Definition unreachable : Environment :=
  mkEnv (google_only "AIzaSyA-0123456789abcdef") (fun _ => None) None
        (inl "list_models failed") None no_fault
        (fun _ _ _ _ => Raise "Google Gemini error: connection reset by peer") store_up.


(** Google's credential is long enough and lacks the ["AI"] prefix. *)
Definition wrong_prefix : Environment :=
  mkEnv (google_only "ZZ-0123456789abcdef") (fun _ => None) None
        (inl "list_models failed") None no_fault
        (fun _ _ _ _ => Return "hello") store_up.


(** The store raises on every access. *)
Definition store_down : Environment :=
  mkEnv (google_only "AIzaSyA-0123456789abcdef") (fun _ => None) None
        (inl "list_models failed") None no_fault
        (fun _ _ _ _ => Return "hello") (fun _ => Some "database is locked").

(** The daily chat limit of a user is two. *)
Definition two_a_day : Environment :=
  mkEnv (google_only "AIzaSyA-0123456789abcdef")
        (fun name => if String.eqb name "DAILY_AI_LIMIT" then Some 2 else None)
        None (inl "list_models failed") None no_fault
        (fun _ _ _ _ => Return "hello") store_up.

(** A new manager after its discovery. *)
Definition discovered (env : Environment) : SmartAIManager :=
  snd (ensure_discovery env (init env no_rows)).

Definition today : string := "2025-06-01".

(** Google has a credential and answers every call; the store is up. *)
Definition answering : Environment :=
  mkEnv (google_only "AIzaSyA-0123456789abcdef") (fun _ => None) None
        (inl "list_models failed") None no_fault
        (fun _ _ _ _ => Return "hello") store_up.

(** A manager whose cache of two entries is full. *)
Definition full_cache : SmartAIManager :=
  mkManager [((1, today, "ai_chat"), 3); ((2, today, "ai_chat"), 1)] 2
            (_init_providers answering) true no_rows 0 [].

(** One user has a chat that was opened on a model a minute ago. *)
Definition one_session : ChatSessions.t :=
  [(7, ChatSessions.mkSession "gemini-2.5-flash" 0)].

Definition a_minute : Z := 60 * 1000000.

(** Only Luma has a credential. *)
Definition luma_only : Environment :=
  mkEnv (fun name =>
           if String.eqb name "LUMAAI_API_KEY"
           then Some "luma-0123456789abcdef0123456789" else None)
        (fun _ => None) None (inl "list_models failed") None no_fault
        (fun _ _ _ _ => Return "hello") store_up.

(** The administrators of the bot. *)
Definition admins : list Z := [1].

(** Google and Luma have credentials, the daily limit of Luma is zero,
    and the API of Luma is the only one that answers. *)
Definition luma_at_its_limit : Environment :=
  mkEnv (fun name =>
           if String.eqb name "GOOGLE_AI_API_KEY" then Some "AIzaSyA-0123456789abcdef"
           else if String.eqb name "LUMAAI_API_KEY"
                then Some "luma-0123456789abcdef0123456789"
                else None)
        (fun name => if String.eqb name "LUMA_DAILY_LIMIT" then Some 0 else None)
        None (inl "list_models failed") None no_fault
        (fun p _ _ _ =>
           match p with
           | LUMA => Return "https://storage.example/video.mp4"
           | _ => Raise "connection reset by peer"
           end)
        store_up.

(** As [throttled_google], with a Google library that refuses the key. *)
Definition google_rejected : Environment :=
  mkEnv (getenv throttled_google) (getenv_int throttled_google)
        (Some "API key not valid") (inl "list_models failed")
        (openai_client throttled_google) no_fault (backend throttled_google) store_up.

(** As [two_a_day], with a store that raises on its third access and on
    no other. *)
Definition store_fails_once : Environment :=
  mkEnv (getenv two_a_day) (getenv_int two_a_day) None (inl "list_models failed")
        None no_fault (backend two_a_day)
        (fun n => if Nat.eqb n 2 then Some "database is locked" else None).

(** A discovery routine that is interrupted: it does what the routine of
    the class does, and then lets an exception out. *)
Definition interrupted_discovery (env : Environment) : M unit :=
  fun s => (Raise "cancelled", snd (_setup_and_discover_async env s)).

End Scenario.

(** * Properties *)

Lemma ServiceType_eqb_spec a b : reflect (a = b) (ServiceType_eqb a b).
Proof. destruct a, b; constructor; congruence. Qed.

Lemma Provider_eqb_spec a b : reflect (a = b) (Provider_eqb a b).
Proof. destruct a, b; constructor; congruence. Qed.

Lemma Provider_eqb_refl p : Provider_eqb p p = true.
Proof. now destruct p. Qed.

Lemma ServiceType_eqb_refl st : ServiceType_eqb st st = true.
Proof. now destruct st. Qed.

Lemma UsageKey_eqb_spec a b : reflect (a = b) (UsageKey_eqb a b).
Proof.
  destruct a as [[u1 d1] s1], b as [[u2 d2] s2]; unfold UsageKey_eqb.
  destruct (Z.eqb_spec u1 u2), (String.eqb_spec d1 d2), (String.eqb_spec s1 s2);
    constructor; congruence.
Qed.

Lemma UsageKey_eqb_refl k : UsageKey_eqb k k = true.
Proof. now destruct (UsageKey_eqb_spec k k). Qed.

Lemma entry_point_eq env st : entry_point env st = handle_request env st.
Proof. now destruct st. Qed.

(** ** The stable sort *)

Section StableSortFacts.
Context {A : Type} (leb : A -> A -> bool).
Hypothesis leb_total : forall a b, leb a b = true \/ leb b a = true.
Hypothesis leb_trans : forall a b c, leb a b = true -> leb b c = true -> leb a c = true.

Let le (a b : A) : Prop := leb a b = true.

Lemma insert_sorted_perm x l : Permutation (x :: l) (insert_sorted leb x l).
Proof.
  induction l as [|y l IH]; simpl; [reflexivity|].
  destruct (leb x y); [reflexivity|].
  rewrite perm_swap. now constructor.
Qed.

Lemma stable_sort_perm l : Permutation l (stable_sort leb l).
Proof.
  induction l as [|x l IH]; simpl; [constructor|].
  rewrite <- insert_sorted_perm. now constructor.
Qed.

Lemma stable_sort_In x l : In x (stable_sort leb l) <-> In x l.
Proof.
  split; apply Permutation_in; [symmetry|]; apply stable_sort_perm.
Qed.

Lemma insert_sorted_sorted x l :
  StronglySorted le l -> StronglySorted le (insert_sorted leb x l).
Proof.
  induction 1 as [|y l Hs IH Hy]; simpl.
  - repeat constructor.
  - destruct (leb x y) eqn:E.
    + constructor; [now constructor|].
      constructor; [exact E|].
      eapply Forall_impl; [|exact Hy]. intros z Hz. eapply leb_trans; eauto.
    + constructor; [exact IH|].
      assert (Hyx : le y x) by (destruct (leb_total x y); [congruence|assumption]).
      eapply Permutation_Forall; [apply insert_sorted_perm|].
      now constructor.
Qed.

Lemma stable_sort_sorted l : StronglySorted le (stable_sort leb l).
Proof.
  induction l; simpl; [constructor|]. now apply insert_sorted_sorted.
Qed.



Lemma stable_sort_NoDup l : NoDup l -> NoDup (stable_sort leb l).
Proof. apply Permutation_NoDup, stable_sort_perm. Qed.

End StableSortFacts.

Lemma priority_leb_total a b : priority_leb a b = true \/ priority_leb b a = true.
Proof. unfold priority_leb. lia. Qed.

Lemma priority_leb_trans a b c :
  priority_leb a b = true -> priority_leb b c = true -> priority_leb a c = true.
Proof. unfold priority_leb. lia. Qed.

Lemma sort_by_priority_sorted l : StronglySorted priority_le (sort_by_priority l).
Proof.
  eapply StronglySorted_ind with (P := StronglySorted priority_le);
    [constructor | | apply (stable_sort_sorted priority_leb priority_leb_total priority_leb_trans l)].
  intros a l' _ IH Ha. constructor; [exact IH|].
  eapply Forall_impl; [|exact Ha]. intros b Hb. unfold priority_le, priority_leb in *. lia.
Qed.

Lemma sort_by_priority_stable k l :
  filter (fun m => ModelInfo.priority m =? k) (sort_by_priority l) =
  filter (fun m => ModelInfo.priority m =? k) l.
Proof.
  unfold sort_by_priority. induction l as [|x l IH]; simpl; [reflexivity|].
  rewrite <- IH. clear IH. generalize (stable_sort priority_leb l) as l'.
  induction l' as [|y l' IH]; simpl; [reflexivity|].
  destruct (priority_leb x y) eqn:E; simpl; [reflexivity|].
  rewrite IH. unfold priority_leb in E.
  destruct (Z.eqb_spec (ModelInfo.priority x) k), (Z.eqb_spec (ModelInfo.priority y) k);
    try reflexivity. lia.
Qed.

(** On a sorted list [min] picks the head. *)
Lemma min_by_priority_sorted m l :
  Forall (priority_le m) l -> min_by_priority m l = m.
Proof.
  induction 1 as [|x l Hx _ IH]; simpl; [reflexivity|].
  unfold priority_le in Hx.
  destruct (Z.ltb_spec (ModelInfo.priority x) (ModelInfo.priority m)); [lia|exact IH].
Qed.

(** ** The registry *)

Lemma providers_set_provider_same s p c : providers (set_provider s p c) p = c.
Proof. simpl. now rewrite Provider_eqb_refl. Qed.

Lemma providers_set_provider_other s p q c :
  q <> p -> providers (set_provider s p c) q = providers s q.
Proof.
  intros Hq. simpl. destruct (Provider_eqb_spec p q); [congruence|reflexivity].
Qed.

Lemma same_but_active_refl c : same_but_active c c.
Proof. repeat split. Qed.

Lemma same_but_active_trans a b c :
  same_but_active a b -> same_but_active b c -> same_but_active a c.
Proof. unfold same_but_active. intuition congruence. Qed.

Lemma same_but_active_set c st m :
  same_but_active c (ProviderConfig.set_active_model c st m).
Proof. repeat split. Qed.

Lemma engine_footprint_refl p st s : engine_footprint p st s s.
Proof.
  constructor; try reflexivity; try (intros; reflexivity).
  - apply same_but_active_refl.
  - exists []. now rewrite app_nil_r.
Qed.

Lemma engine_footprint_trans p st s1 s2 s3 :
  engine_footprint p st s1 s2 -> engine_footprint p st s2 s3 -> engine_footprint p st s1 s3.
Proof.
  intros [] []. constructor; try congruence.
  - intros q Hq. rewrite fp_others1, fp_others0; auto.
  - eapply same_but_active_trans; eauto.
  - intros st' Hst. rewrite fp_active1, fp_active0; auto.
  - destruct fp_calls0 as (l1 & E1 & F1), fp_calls1 as (l2 & E2 & F2).
    exists (l1 ++ l2)%list. rewrite E2, E1, app_assoc. split; [reflexivity|].
    apply Forall_app; auto.
Qed.

Lemma engine_footprint_set_active p st s m :
  engine_footprint p st s
    (set_provider s p (ProviderConfig.set_active_model (providers s p) st m)).
Proof.
  constructor; try reflexivity.
  - intros q Hq. now apply providers_set_provider_other.
  - rewrite providers_set_provider_same. apply same_but_active_set.
  - intros st' Hst. rewrite providers_set_provider_same. simpl.
    unfold sd_set. destruct (ServiceType_eqb_spec st st'); [congruence|reflexivity].
  - exists []. now rewrite app_nil_r.
Qed.

Lemma engine_footprint_log p st s m :
  engine_footprint p st s (log_call s (Generate p st m)).
Proof.
  constructor; try reflexivity; try (intros; reflexivity).
  - apply same_but_active_refl.
  - exists [Generate p st m]. split; [reflexivity|]. repeat constructor. now exists m.
Qed.

Section EngineFacts.
Variable env : Environment.

(** A closure makes its call, or raises an exception of its own, which
    is no quota-style error, and leaves the manager as it is. *)
Lemma execute_func_cases st p m s :
  (makes_call s st p = true /\
   execute_func env st p m s
   = (backend env (api_of st p) st m (length (calls s)),
      log_call s (Generate p st m))) \/
  (makes_call s st p = false /\
   exists msg, execute_func env st p m s = (Raise msg, s) /\ quota_style msg = false).
Proof.
  unfold makes_call.
  destruct st, p; cbn [supports api_of Provider_eqb andb orb execute_func];
    unfold video_by_luma, raise;
    try (left; split; reflexivity);
    try (right; split; [reflexivity|eexists; split; [reflexivity|vm_compute; reflexivity]]);
    destruct (ProviderConfig.enabled (providers s LUMA));
    try (left; split; reflexivity);
    right; (split; [reflexivity|eexists; split; [reflexivity|vm_compute; reflexivity]]).
Qed.

Lemma makes_call_enabled s st p :
  supports st p = true ->
  ProviderConfig.enabled (providers s (api_of st p)) = true ->
  makes_call s st p = true.
Proof.
  unfold makes_call. intros -> H.
  destruct st, p; cbn [api_of Provider_eqb orb andb] in *; try reflexivity; now rewrite H.
Qed.

Lemma execute_func_footprint st p m s r s' :
  execute_func env st p m s = (r, s') -> engine_footprint p st s s'.
Proof.
  destruct (execute_func_cases st p m s) as [(_ & ->)|(_ & msg & -> & _)];
    intros E; inversion E; subst.
  - apply engine_footprint_log.
  - apply engine_footprint_refl.
Qed.

Lemma attempt_body_footprint p st cur s r cur' s' :
  attempt_body env p st cur s = ((r, cur'), s') -> engine_footprint p st s s'.
Proof.
  unfold attempt_body. destruct (negb (Py.truthy cur)).
  - destruct (ProviderConfig.discovered_models (providers s p) st) as [[|m0 ms]|].
    + intros E; inversion E; subst. apply engine_footprint_refl.
    + destruct (execute_func env st p (ModelInfo.name m0) _) as [r0 s2] eqn:E0.
      intros E; inversion E; subst.
      eapply engine_footprint_trans; [apply engine_footprint_set_active|].
      eapply execute_func_footprint; eauto.
    + intros E; inversion E; subst. apply engine_footprint_refl.
  - destruct (execute_func env st p _ s) as [r0 s1] eqn:E0.
    intros E; inversion E; subst. eapply execute_func_footprint; eauto.
Qed.

Lemma rotate_model_footprint p st cur s r s' :
  rotate_model p st cur s = (r, s') -> engine_footprint p st s s'.
Proof.
  unfold rotate_model.
  destruct (ProviderConfig.discovered_models (providers s p) st) as [[|m0 ms]|];
    intros E; inversion E; subst;
    first [apply engine_footprint_refl | apply engine_footprint_set_active].
Qed.

Lemma on_attempt_error_footprint p st cur msg s c s' :
  on_attempt_error p st cur msg s = (c, s') -> engine_footprint p st s s'.
Proof.
  unfold on_attempt_error.
  destruct (is_quota_error msg || is_model_error msg)%bool.
  - destruct (rotate_model p st cur s) as [[next|e] s1] eqn:E0.
    + apply rotate_model_footprint in E0.
      destruct (_ && _)%bool; intros E; inversion E; subst; exact E0.
    + apply rotate_model_footprint in E0. intros E; inversion E; subst; exact E0.
  - intros E; inversion E; subst. apply engine_footprint_refl.
Qed.

Lemma attempts_footprint p st mr n : forall cur s r s',
  attempts env p st mr n cur s = (r, s') -> engine_footprint p st s s'.
Proof.
  induction n as [|n IH]; simpl; intros cur s r s'.
  - intros E; inversion E; subst. apply engine_footprint_refl.
  - destruct (attempt_body env p st cur s) as [[[res|msg] cur1] s1] eqn:E1.
    + intros E; inversion E; subst. eapply attempt_body_footprint; eauto.
    + apply attempt_body_footprint in E1.
      destruct (on_attempt_error p st cur1 msg s1) as [[next|] s2] eqn:E2;
        apply on_attempt_error_footprint in E2; intros E.
      * apply IH in E. eauto using engine_footprint_trans.
      * inversion E; subst. eauto using engine_footprint_trans.
Qed.

Lemma _execute_with_fallback_footprint p st mr s r s' :
  _execute_with_fallback env p st mr s = (r, s') -> engine_footprint p st s s'.
Proof.
  unfold _execute_with_fallback.
  destruct (negb (ProviderConfig.enabled (providers s p))).
  - intros E; inversion E; subst. apply engine_footprint_refl.
  - apply attempts_footprint.
Qed.

End EngineFacts.

(** ** Reasoning about [bind] and [try_except] *)

Lemma bind_inv {A B} (m : M A) (f : A -> M B) s r s' :
  bind m f s = (r, s') ->
  (exists a s1, m s = (Return a, s1) /\ f a s1 = (r, s')) \/
  (exists msg, m s = (Raise msg, s') /\ r = Raise msg).
Proof.
  unfold bind. destruct (m s) as [[a|msg] s1]; intros E.
  - left. eauto.
  - right. inversion E; subst. eauto.
Qed.

Lemma try_except_inv {A} (m : M A) (h : string -> M A) s r s' :
  try_except m h s = (r, s') ->
  (exists a, m s = (Return a, s') /\ r = Return a) \/
  (exists msg s1, m s = (Raise msg, s1) /\ h msg s1 = (r, s')).
Proof.
  unfold try_except. destruct (m s) as [[a|msg] s1]; intros E.
  - left. inversion E; subst. eauto.
  - right. eauto.
Qed.

(** ** What the quota cache and the store may change *)

Lemma store_footprint_refl s : store_footprint s s.
Proof. now constructor. Qed.

Lemma store_footprint_trans s1 s2 s3 :
  store_footprint s1 s2 -> store_footprint s2 s3 -> store_footprint s1 s3.
Proof. intros [] []. constructor; congruence. Qed.

Section StoreFacts.
Variable env : Environment.

Lemma with_connection_footprint {A} (f : SmartAIManager -> A * SmartAIManager) s r s' :
  (forall s0 a s1, f s0 = (a, s1) -> store_footprint s0 s1) ->
  with_connection env f s = (r, s') -> store_footprint s s'.
Proof.
  intros Hf. unfold with_connection.
  destruct (db_fault env (db_ops s)).
  - intros E; inversion E; subst. now constructor.
  - destruct (f (tick_db s)) as [a s1] eqn:Ef. intros E; inversion E; subst.
    apply Hf in Ef. eapply store_footprint_trans; [|exact Ef]. now constructor.
Qed.

Lemma check_user_limit_footprint today u svc s r s' :
  check_user_limit env today u svc s = (r, s') -> store_footprint s s'.
Proof.
  unfold check_user_limit. intros E.
  apply try_except_inv in E as [(a & E & _)|(msg & s1 & E & Eh)].
  - apply bind_inv in E as [(cu & s1 & E1 & E)|(msg & E1 & ?)]; [|discriminate].
    apply bind_inv in E as [([] & s2 & E2 & E)|(msg & E2 & ?)]; [|discriminate].
    assert (F1 : store_footprint s s1).
    { destruct (cache_get _ _).
      - inversion E1; subst. now constructor.
      - eapply with_connection_footprint; [|exact E1].
        intros s0 a0 s3 E0; inversion E0; subst. now constructor. }
    assert (F2 : store_footprint s1 s2).
    { unfold modify in E2. inversion E2; subst.
      destruct (_ <? _)%nat; now constructor. }
    assert (s' = s2) by (destruct (_ <=? _); inversion E; reflexivity).
    subst. eauto using store_footprint_trans.
  - inversion Eh; subst.
    apply bind_inv in E as [(cu & s2 & E1 & E)|(msg' & E1 & ?)].
    + apply bind_inv in E as [([] & s3 & E2 & E)|(msg' & E2 & ?)].
      * destruct (_ <=? _); discriminate.
      * discriminate.
    + destruct (cache_get _ _); [discriminate|].
      eapply with_connection_footprint; [|exact E1].
      intros s0 a0 s3 E0; inversion E0; subst. now constructor.
Qed.

Lemma update_user_usage_footprint today u svc s r s' :
  update_user_usage env today u svc s = (r, s') -> store_footprint s s'.
Proof.
  unfold update_user_usage. intros E.
  assert (Hc : forall s0 r0 s1,
             with_connection env
               (fun s2 => (tt, set_ai_usage s2
                   (fun k => if UsageKey_eqb (u, today, svc) k
                             then match ai_usage s2 (u, today, svc) with
                                  | Some n => Some (n + 1)
                                  | None => Some 1
                                  end
                             else ai_usage s2 k))) s0 = (r0, s1) ->
             store_footprint s0 s1).
  { intros s0 r0 s1. apply with_connection_footprint.
    intros s2 a s3 E0; inversion E0; subst. now constructor. }
  apply try_except_inv in E as [(a & E & _)|(msg & s1 & E & Eh)].
  - apply bind_inv in E as [([] & s1 & E1 & E)|(msg & E1 & ?)]; [|discriminate].
    inversion E1; subst; clear E1.
    apply bind_inv in E as [([] & s2 & E2 & E)|(msg & E2 & ?)]; [|discriminate].
    inversion E; subst. apply Hc in E2.
    eapply store_footprint_trans; [|exact E2]. now constructor.
  - inversion Eh; subst.
    apply bind_inv in E as [([] & s2 & E1 & E)|(msg' & E1 & ?)]; [|discriminate].
    inversion E1; subst; clear E1.
    apply bind_inv in E as [([] & s3 & E2 & E)|(msg' & E2 & ?)]; [discriminate|].
    apply Hc in E2. eapply store_footprint_trans; [|exact E2]. now constructor.
Qed.

Lemma db_save_footprint s r s' : db_save env s = (r, s') -> store_footprint s s'.
Proof.
  apply with_connection_footprint. intros s0 a s1 E; inversion E; subst.
  apply store_footprint_refl.
Qed.

End StoreFacts.

(** ** What a pass over a list of providers may change *)

Lemma loop_footprint_refl st ps s : loop_footprint st ps s s.
Proof.
  constructor; try reflexivity; try (intros; reflexivity).
  - intros q. repeat split.
  - exists []. now rewrite app_nil_r.
Qed.

Lemma loop_footprint_trans st ps s1 s2 s3 :
  loop_footprint st ps s1 s2 -> loop_footprint st ps s2 s3 -> loop_footprint st ps s1 s3.
Proof.
  intros [] []. constructor; try congruence.
  - intros q. specialize (lf_settings0 q). specialize (lf_settings1 q).
    unfold same_settings in *. intuition congruence.
  - intros q Hq. rewrite lf_others1, lf_others0; auto.
  - destruct lf_calls0 as (l1 & E1 & F1), lf_calls1 as (l2 & E2 & F2).
    exists (l1 ++ l2)%list. rewrite E2, E1, app_assoc. split; [reflexivity|].
    apply Forall_app; auto.
Qed.

Lemma loop_footprint_incl st ps ps' s s' :
  incl ps ps' -> loop_footprint st ps s s' -> loop_footprint st ps' s s'.
Proof.
  intros Hi []. constructor; auto.
  destruct lf_calls0 as (l & E & F). exists l. split; [exact E|].
  eapply Forall_impl; [|exact F]. intros c (p & m & Hp & ->). exists p, m. auto.
Qed.

Lemma loop_footprint_of_engine st ps p s s' :
  In p ps -> engine_footprint p st s s' -> loop_footprint st ps s s'.
Proof.
  intros Hp []. constructor; auto.
  - intros q. destruct (Provider_eqb_spec q p) as [->|Hq].
    + unfold same_but_active, same_settings in *. intuition.
    + rewrite fp_others0 by exact Hq. repeat split.
  - intros q Hq. apply fp_others0. intros ->. contradiction.
  - destruct fp_calls0 as (l & E & F). exists l. split; [exact E|].
    eapply Forall_impl; [|exact F]. intros c (m & ->). exists p, m. auto.
Qed.

Lemma loop_footprint_of_store st ps s s' :
  store_footprint s s' -> loop_footprint st ps s s'.
Proof.
  intros []. constructor; auto.
  - intros q. rewrite sf_providers0. repeat split.
  - intros q _. now rewrite sf_providers0.
  - exists []. now rewrite app_nil_r.
Qed.

Lemma loop_footprint_set_provider st ps p s c :
  In p ps -> same_settings (providers s p) c ->
  loop_footprint st ps s (set_provider s p c).
Proof.
  intros Hp Hc. constructor; try reflexivity.
  - intros q. destruct (Provider_eqb_spec q p) as [->|Hq].
    + now rewrite providers_set_provider_same.
    + rewrite providers_set_provider_other by exact Hq. repeat split.
  - intros q Hq. apply providers_set_provider_other. intros ->. contradiction.
  - exists []. now rewrite app_nil_r.
Qed.

Lemma loop_footprint_registry st ps s s' :
  loop_footprint st ps s s' -> registry_ok s -> registry_ok s'.
Proof.
  intros [] Hr p. destruct (lf_settings0 p) as (Hn & _). now rewrite Hn.
Qed.

Section LoopFacts.
Variable env : Environment.

Lemma try_provider_footprint st svc mr today u pc s r s' :
  registry_ok s ->
  try_provider env st svc mr today u pc s = (r, s') ->
  loop_footprint st [pc] s s'.
Proof.
  intros Hr E. unfold try_provider in E.
  apply bind_inv in E as [(p & s0 & E0 & E)|(msg & E0 & _)]; [|discriminate].
  inversion E0; subst; clear E0. rewrite Hr in E.
  apply bind_inv in E as [(resp & s1 & E1 & E)|(msg & E1 & _)].
  - apply _execute_with_fallback_footprint in E1.
    apply (loop_footprint_of_engine st [pc] pc) in E1; [|now left].
    destruct (Py.truthy (Some resp)).
    + apply bind_inv in E as [(b & s2 & E2 & E)|(msg & E2 & _)].
      2:{ apply update_user_usage_footprint in E2.
          eauto using loop_footprint_trans, loop_footprint_of_store. }
      apply update_user_usage_footprint in E2.
      apply bind_inv in E as [([] & s3 & E3 & E)|(msg & E3 & _)]; [|discriminate].
      inversion E3; subst; clear E3.
      assert (F3 : loop_footprint st [pc] s2
                     (set_provider s2 pc (ProviderConfig.incr_usage (providers s2 pc)))).
      { apply loop_footprint_set_provider; [now left|repeat split]. }
      assert (F4 : loop_footprint st [pc]
                     (set_provider s2 pc (ProviderConfig.incr_usage (providers s2 pc))) s').
      { apply bind_inv in E as [([] & s4 & E4 & E)|(msg & E4 & _)].
        - inversion E; subst. apply db_save_footprint in E4.
          now apply loop_footprint_of_store.
        - apply db_save_footprint in E4. now apply loop_footprint_of_store. }
      eauto using loop_footprint_trans, loop_footprint_of_store.
    + inversion E; subst. exact E1.
  - apply _execute_with_fallback_footprint in E1.
    apply (loop_footprint_of_engine st [pc] pc); [now left|exact E1].
Qed.

Lemma provider_loop_footprint st svc mr today u ps : forall errors s r s',
  registry_ok s ->
  provider_loop env st svc mr today u ps errors s = (r, s') ->
  loop_footprint st ps s s'.
Proof.
  induction ps as [|pc rest IH]; simpl; intros errors s r s' Hr E.
  - inversion E; subst. apply loop_footprint_refl.
  - destruct (try_provider env st svc mr today u pc s) as [[[o|]|msg] s1] eqn:E1;
      apply try_provider_footprint in E1; try exact Hr;
      pose proof (loop_footprint_registry _ _ _ _ E1 Hr) as Hr1;
      apply (loop_footprint_incl st [pc] (pc :: rest)) in E1;
      try (intros x [->|[]]; now left).
    + inversion E; subst. exact E1.
    + apply IH in E; [|exact Hr1].
      eapply loop_footprint_trans; [exact E1|].
      eapply loop_footprint_incl; [|exact E]. intros x Hx; now right.
    + apply IH in E.
      * eapply loop_footprint_trans; [exact E1|].
        eapply loop_footprint_trans;
          [|eapply loop_footprint_incl; [|exact E]; intros x Hx; now right].
        apply loop_footprint_set_provider; [now left|repeat split].
      * intros p. simpl. destruct (Provider_eqb_spec pc p) as [<-|]; [|apply Hr1].
        simpl. apply Hr1.
Qed.

End LoopFacts.

(** ** Provider selection *)




Lemma is_available_iff s st p :
  is_available s st p = true <->
  ProviderConfig.enabled (providers s p) = true /\
  supports st (ProviderConfig.name (providers s p)) = true /\
  ProviderConfig.usage_today (providers s p) < ProviderConfig.daily_limit (providers s p).
Proof.
  unfold is_available.
  destruct (ProviderConfig.enabled (providers s p)); simpl.
  - destruct (Z.leb_spec (ProviderConfig.daily_limit (providers s p))
                         (ProviderConfig.usage_today (providers s p))).
    + split; [discriminate|]. intros (_ & _ & ?). lia.
    + intuition.
  - split; [discriminate|]. intros (? & _). discriminate.
Qed.

Lemma all_providers_complete p : In p all_providers.
Proof. destruct p; simpl; auto 6. Qed.

Lemma all_providers_NoDup : NoDup all_providers.
Proof. repeat constructor; simpl; intuition discriminate. Qed.

Lemma get_available_providers_In s st p :
  In p (get_available_providers st s) <-> is_available s st p = true.
Proof.
  unfold get_available_providers.
  rewrite (stable_sort_In (selection_key_leb s)), filter_In.
  pose proof (all_providers_complete p). tauto.
Qed.

Lemma get_available_providers_NoDup s st : NoDup (get_available_providers st s).
Proof.
  apply stable_sort_NoDup, NoDup_filter, all_providers_NoDup.
Qed.


Lemma get_available_providers_ext s s' st :
  providers s' = providers s ->
  get_available_providers st s' = get_available_providers st s.
Proof.
  intros E. unfold get_available_providers, is_available, selection_key_leb.
  now rewrite E.
Qed.

(** ** The shape of a request *)

Lemma try_except_ret_returns {A} (m : M A) (x : A) s :
  exists a s', try_except m (fun _ => ret x) s = (Return a, s').
Proof.
  unfold try_except, ret. destruct (m s) as [[a|msg] s1]; eauto.
Qed.

Section RequestFacts.
Variable env : Environment.

Lemma check_user_limit_returns today u svc s :
  exists a s', check_user_limit env today u svc s = (Return a, s').
Proof. apply try_except_ret_returns. Qed.

Lemma _enhance_prompt_cases s :
  _enhance_prompt s = (Return tt, s) \/
  exists m, _enhance_prompt s = (Return tt, log_call s (Enhance m)).
Proof.
  unfold _enhance_prompt.
  destruct (_ && _)%bool; [|now left].
  destruct (ProviderConfig.active_models (providers s GOOGLE) CHAT); eauto.
Qed.

(** The three ways through [serve]. *)
Lemma serve_cases st svc mr enh today u s r s' :
  serve env st svc mr enh today u s = (r, s') ->
  exists allowed remaining s1,
    check_user_limit env today u svc s = (Return (allowed, remaining), s1) /\
    ((allowed = false /\ r = Return (QuotaRefused remaining) /\ s' = s1) \/
     (allowed = true /\ get_available_providers st s1 = [] /\
      r = Return NoProviders /\ s' = s1) \/
     (allowed = true /\ get_available_providers st s1 <> [] /\
      exists s2,
        (s2 = s1 \/ exists m, enh = true /\ s2 = log_call s1 (Enhance m)) /\
        provider_loop env st svc mr today u (get_available_providers st s1) [] s2
        = (r, s'))).
Proof.
  unfold serve. intros E.
  destruct (check_user_limit_returns today u svc s) as ([allowed remaining] & s1 & Ec).
  exists allowed, remaining, s1. split; [exact Ec|].
  unfold bind at 1 in E. rewrite Ec in E.
  destruct allowed; simpl in E.
  - right. unfold bind at 1, get in E.
    destruct (get_available_providers st s1) as [|p ps] eqn:Eg.
    + left. inversion E; subst. auto.
    + right. repeat split; [discriminate|].
      apply bind_inv in E as [([] & s2 & E2 & E)|(msg & E2 & _)].
      * exists s2. split; [|exact E].
        destruct enh; [|inversion E2; now left].
        destruct (_enhance_prompt_cases s1) as [Ee|(m & Ee)];
          rewrite Ee in E2; inversion E2; subst; eauto.
      * destruct enh; [|discriminate].
        destruct (_enhance_prompt_cases s1) as [Ee|(m & Ee)];
          rewrite Ee in E2; discriminate.
  - left. inversion E; subst. auto.
Qed.

End RequestFacts.

(** ** Model rotation *)

Lemma truthy_Some_iff n : Py.truthy (Some n) = true <-> n <> EmptyString.
Proof. destruct n; simpl; split; congruence. Qed.

Lemma index_of_Some n models i :
  index_of n models = Some i ->
  (i < length models)%nat /\ forall d, ModelInfo.name (nth i models d) = n.
Proof.
  revert i. induction models as [|m models IH]; simpl; intros i; [discriminate|].
  destruct (String.eqb_spec (ModelInfo.name m) n) as [E|E].
  - intros [= <-]. split; [lia|auto].
  - destruct (index_of n models) as [j|]; simpl; intros [= <-].
    destruct (IH j eq_refl). split; [lia|auto].
Qed.

Lemma index_of_None n models :
  index_of n models = None -> existsb (String.eqb n) (map ModelInfo.name models) = false.
Proof.
  induction models as [|m models IH]; simpl; [reflexivity|].
  destruct (String.eqb_spec (ModelInfo.name m) n) as [E|E]; [discriminate|].
  destruct (index_of n models); simpl; [discriminate|]. intros _.
  rewrite IH by reflexivity.
  destruct (String.eqb_spec n (ModelInfo.name m)) as [E'|E']; [|reflexivity].
  symmetry in E'. contradiction.
Qed.

Lemma existsb_eqb_In n l : existsb (String.eqb n) l = true <-> In n l.
Proof.
  rewrite existsb_exists. split.
  - intros (x & Hx & E). apply String.eqb_eq in E. now subst.
  - intros H. exists n. split; [exact H|apply String.eqb_refl].
Qed.

(** Rotation never hands back the model it was given when the ranked list
    has two models or more, all of different names. *)
Lemma next_model_name_fresh models m0 cur :
  nth 0 models m0 = m0 -> In (ModelInfo.name m0) (map ModelInfo.name models) ->
  NoDup (map ModelInfo.name models) -> (2 <= length models)%nat ->
  cur <> EmptyString ->
  next_model_name models m0 (Some cur) <> cur /\
  In (next_model_name models m0 (Some cur)) (map ModelInfo.name models).
Proof.
  intros Hhd H0 Hnd Hlen Hcur. unfold next_model_name.
  assert (Ht : Py.truthy (Some cur) = true) by now apply truthy_Some_iff.
  rewrite Ht. simpl negb. rewrite orb_false_l.
  destruct (existsb (String.eqb cur) (map ModelInfo.name models)) eqn:Ein; simpl negb; cbv iota.
  - destruct (index_of cur models) as [i|] eqn:Ei.
    2:{ apply index_of_None in Ei. congruence. }
    destruct (index_of_Some _ _ _ Ei) as (Hi & Hn).
    specialize (Hn m0).
    rewrite (NoDup_nth _ (ModelInfo.name m0)) in Hnd. rewrite length_map in Hnd.
    destruct (Nat.leb_spec (length models - 1) i) as [Hlast|Hmid].
    + split; [|exact H0]. intros E.
      assert (0 = i)%nat; [|lia].
      apply Hnd; [lia|lia|]. rewrite !map_nth. congruence.
    + split.
      * intros E. assert (i + 1 = i)%nat; [|lia].
        apply Hnd; [lia|lia|]. rewrite !map_nth. congruence.
      * rewrite <- map_nth. apply nth_In. rewrite length_map. lia.
  - split; [|exact H0].
    intros E. apply existsb_eqb_In in H0. congruence.
Qed.

(** With one model in the list, rotation hands that model back. *)
Lemma next_model_name_single m0 cur :
  next_model_name [m0] m0 cur = ModelInfo.name m0.
Proof.
  unfold next_model_name. destruct cur as [cur|]; [|reflexivity].
  destruct (_ || _)%bool; [reflexivity|].
  simpl. destruct (String.eqb (ModelInfo.name m0) cur); reflexivity.
Qed.

(** ** One attempt of the fallback engine *)

Lemma after_pick_calls cur s p st m : calls (after_pick cur s p st m) = calls s.
Proof. unfold after_pick. now destruct (Py.truthy cur). Qed.

Lemma after_pick_others cur s p st m q :
  q <> p -> providers (after_pick cur s p st m) q = providers s q.
Proof.
  intros Hq. unfold after_pick. destruct (Py.truthy cur); [reflexivity|].
  now apply providers_set_provider_other.
Qed.

Lemma after_pick_self cur s p st m :
  same_but_active (providers s p) (providers (after_pick cur s p st m) p).
Proof.
  unfold after_pick. destruct (Py.truthy cur); [apply same_but_active_refl|].
  rewrite providers_set_provider_same. apply same_but_active_set.
Qed.

Lemma after_pick_active cur s p st m :
  resolve_model cur s p st = Some m ->
  (Py.truthy cur = true -> ProviderConfig.active_models (providers s p) st = cur) ->
  ProviderConfig.active_models (providers (after_pick cur s p st m) p) st = Some m.
Proof.
  unfold resolve_model, after_pick. destruct (Py.truthy cur).
  - intros -> H. now apply H.
  - intros _ _. rewrite providers_set_provider_same. simpl. unfold sd_set.
    now rewrite ServiceType_eqb_refl.
Qed.

Section AttemptFacts.
Variable env : Environment.

Lemma makes_call_after_pick cur s p st m st' q :
  makes_call (after_pick cur s p st m) st' q = makes_call s st' q.
Proof.
  unfold makes_call, after_pick. destruct (Py.truthy cur); [reflexivity|].
  destruct (Provider_eqb_spec LUMA p) as [<-|Hne].
  - now rewrite providers_set_provider_same.
  - now rewrite providers_set_provider_other.
Qed.

Lemma enabled_set_active s p st m q :
  ProviderConfig.enabled
    (providers (set_provider s p (ProviderConfig.set_active_model (providers s p) st m)) q)
  = ProviderConfig.enabled (providers s q).
Proof.
  destruct (Provider_eqb_spec q p) as [->|Hne].
  - now rewrite providers_set_provider_same.
  - now rewrite providers_set_provider_other.
Qed.

Lemma enabled_after_pick cur s p st m q :
  ProviderConfig.enabled (providers (after_pick cur s p st m) q)
  = ProviderConfig.enabled (providers s q).
Proof.
  unfold after_pick. destruct (Py.truthy cur); [reflexivity|apply enabled_set_active].
Qed.

Lemma attempt_body_calls p st cur s m :
  supports st p = true ->
  ProviderConfig.enabled (providers s (api_of st p)) = true ->
  resolve_model cur s p st = Some m ->
  attempt_body env p st cur s =
  ((backend env (api_of st p) st m (length (calls s)), Some m),
   log_call (after_pick cur s p st m) (Generate p st m)).
Proof.
  intros Hs Ha Hm.
  pose proof (makes_call_enabled s st p Hs Ha) as Hc.
  rewrite <- (makes_call_after_pick cur s p st m) in Hc.
  destruct (execute_func_cases env st p m (after_pick cur s p st m))
    as [(_ & E)|(Hc' & _)]; [|congruence].
  rewrite after_pick_calls in E.
  unfold attempt_body, resolve_model, after_pick in *.
  destruct (Py.truthy cur) eqn:Et; simpl negb; cbv iota.
  - subst cur. now rewrite E.
  - destruct (ProviderConfig.discovered_models (providers s p) st) as [[|m0 ms]|];
      try discriminate.
    injection Hm as <-. cbv zeta. now rewrite E.
Qed.

(** An error that is not about the model ends the attempts at once. *)
Lemma on_attempt_error_other p st cur msg s :
  quota_style msg = false -> on_attempt_error p st cur msg s = (Break, s).
Proof. unfold quota_style, on_attempt_error. now intros ->. Qed.

(** A quota-style error rotates the model. *)
Lemma on_attempt_error_rotates p st m msg s m0 rest :
  quota_style msg = true ->
  ProviderConfig.discovered_models (providers s p) st = Some (m0 :: rest) ->
  let next := next_model_name (m0 :: rest) m0 (Some m) in
  let s' := set_provider s p (ProviderConfig.set_active_model (providers s p) st next) in
  on_attempt_error p st (Some m) msg s =
  (if (Py.truthy (Some next) && negb (String.eqb next m))%bool
   then Continue (Some next) else Break, s').
Proof.
  intros Hq Hd. unfold quota_style in Hq. unfold on_attempt_error, rotate_model.
  rewrite Hq, Hd. cbv zeta.
  match goal with |- (if ?b then _ else _) = _ => destruct b end; reflexivity.
Qed.


End AttemptFacts.


(** ** Quota-style failures *)

Section QuotaFailures.
Variable env : Environment.
Variables (p : Provider) (st : ServiceType).
Hypothesis p_supported : supports st p = true.

Lemma resolve_model_nonempty cur s m0 rest :
  ProviderConfig.discovered_models (providers s p) st = Some (m0 :: rest) ->
  ModelInfo.name m0 <> EmptyString ->
  exists m, resolve_model cur s p st = Some m /\ m <> EmptyString.
Proof.
  intros Hd Hm0. unfold resolve_model. rewrite Hd.
  destruct cur as [[|c cur]|]; simpl; eauto.
  exists (String c cur). split; [reflexivity|discriminate].
Qed.

Lemma after_pick_discovered cur s m :
  ProviderConfig.discovered_models (providers (after_pick cur s p st m) p)
  = ProviderConfig.discovered_models (providers s p).
Proof. now destruct (after_pick_self cur s p st m) as (_ & _ & _ & _ & _ & _ & _ & ?). Qed.

(** Two models or more, all of different names: every attempt of the
    budget is made, each on the model rotation hands over. *)
Lemma attempts_all_quota mr m0 rest :
  let models := m0 :: rest in
  NoDup (map ModelInfo.name models) -> (2 <= length models)%nat ->
  Forall (fun m => ModelInfo.name m <> EmptyString) models ->
  always_quota_style env p st ->
  forall n cur s,
    ProviderConfig.enabled (providers s (api_of st p)) = true ->
    ProviderConfig.discovered_models (providers s p) st = Some models ->
    exists s' made,
      attempts env p st mr n cur s = (Raise (all_attempts_failed_msg p mr), s') /\
      calls s' = (calls s ++ made)%list /\ length made = n /\
      Forall (is_generate_of p st) made.
Proof.
  intros models Hnd Hlen Hne Hq. induction n as [|n IH]; intros cur s Hapi Hd.
  - exists s, []. simpl. rewrite app_nil_r. repeat split. constructor.
  - assert (Hm0 : ModelInfo.name m0 <> EmptyString) by now inversion Hne.
    destruct (resolve_model_nonempty cur s m0 rest Hd Hm0) as (m & Hm & Hmne).
    destruct (Hq m (length (calls s))) as (msg & Hb & Hqs).
    set (s1 := log_call (after_pick cur s p st m) (Generate p st m)).
    assert (Hd1 : ProviderConfig.discovered_models (providers s1 p) st = Some models).
    { subst s1. simpl. now rewrite after_pick_discovered. }
    destruct (next_model_name_fresh models m0 m) as (Hfresh & Hin);
      [reflexivity|now left|assumption|assumption|assumption|].
    set (next := next_model_name models m0 (Some m)) in *.
    assert (Hnext : (Py.truthy (Some next) && negb (String.eqb next m))%bool = true).
    { apply andb_true_intro. split.
      - apply truthy_Some_iff. rewrite Forall_forall in Hne.
        apply in_map_iff in Hin as (x & <- & Hx). now apply Hne.
      - destruct (String.eqb_spec next m); [contradiction|reflexivity]. }
    set (s2 := set_provider s1 p (ProviderConfig.set_active_model (providers s1 p) st next)).
    destruct (IH (Some next) s2) as (s' & made & Ea & Ec & El & Fm).
    { subst s2 s1. rewrite enabled_set_active. simpl. now rewrite enabled_after_pick. }
    { subst s2. now rewrite providers_set_provider_same. }
    exists s', (Generate p st m :: made). split; [|split; [|split]].
    + simpl attempts. rewrite (attempt_body_calls env p st cur s m p_supported Hapi Hm), Hb.
      fold s1. rewrite (on_attempt_error_rotates p st m msg s1 m0 rest Hqs Hd1).
      cbv zeta. fold models next. rewrite Hnext. fold s2. exact Ea.
    + rewrite Ec. subst s2 s1. simpl. rewrite after_pick_calls, <- app_assoc. reflexivity.
    + simpl. now rewrite El.
    + constructor; [now exists m|exact Fm].
Qed.

(** One model: rotation hands it back and the attempts stop. *)
Lemma attempts_single mr n cur s m0 msg :
  ProviderConfig.enabled (providers s (api_of st p)) = true ->
  ProviderConfig.discovered_models (providers s p) st = Some [m0] ->
  resolve_model cur s p st = Some (ModelInfo.name m0) ->
  backend env (api_of st p) st (ModelInfo.name m0) (length (calls s)) = Raise msg ->
  quota_style msg = true ->
  let s1 := log_call (after_pick cur s p st (ModelInfo.name m0))
                     (Generate p st (ModelInfo.name m0)) in
  attempts env p st mr (S n) cur s =
  (Raise (all_attempts_failed_msg p mr),
   set_provider s1 p
     (ProviderConfig.set_active_model (providers s1 p) st (ModelInfo.name m0))).
Proof.
  intros Hapi Hd Hm Hb Hq s1.
  assert (Hd1 : ProviderConfig.discovered_models (providers s1 p) st = Some [m0]).
  { subst s1. simpl. now rewrite after_pick_discovered. }
  simpl attempts. rewrite (attempt_body_calls env p st cur s _ p_supported Hapi Hm), Hb.
  fold s1. rewrite (on_attempt_error_rotates p st _ msg s1 m0 [] Hq Hd1).
  cbv zeta. rewrite next_model_name_single, String.eqb_refl, andb_false_r.
  reflexivity.
Qed.

End QuotaFailures.

(** C1, as amended.  With exactly one model in the ranked list of a
    backend (its active model, when one is set), rotation hands that model
    back, and a first call that fails with a quota-style error is the only
    call made: the attempts end there, whatever is left of the budget.
    The call is the one the function of the backend makes, to the API of
    [api_of]: its own, or Luma's for the video functions of Google and
    Kling, which make it when Luma is enabled. *)
Theorem single_model_backend_one_attempt env p st s m0 msg :
  ProviderConfig.enabled (providers s p) = true ->
  supports st p = true ->
  ProviderConfig.enabled (providers s (api_of st p)) = true ->
  ProviderConfig.discovered_models (providers s p) st = Some [m0] ->
  ModelInfo.name m0 <> EmptyString ->
  (Py.truthy (ProviderConfig.active_models (providers s p) st) = false \/
   ProviderConfig.active_models (providers s p) st = Some (ModelInfo.name m0)) ->
  backend env (api_of st p) st (ModelInfo.name m0) (length (calls s)) = Raise msg ->
  quota_style msg = true ->
  (forall cur, next_model_name [m0] m0 cur = ModelInfo.name m0) /\
  exists s',
    _execute_with_fallback env p st (max_retries_of st) s
    = (Raise (all_attempts_failed_msg p (max_retries_of st)), s') /\
    calls s' = (calls s ++ [Generate p st (ModelInfo.name m0)])%list /\
    ProviderConfig.active_models (providers s' p) st = Some (ModelInfo.name m0).
Proof.
  intros He Hs Hapi Hd Hne Hact Hb Hq. split; [apply next_model_name_single|].
  assert (Hn : exists n, max_retries_of st = S n) by (destruct st; simpl; eauto).
  destruct Hn as (n & Hn).
  assert (Hm : resolve_model (get_active_model p st s) s p st = Some (ModelInfo.name m0)).
  { unfold resolve_model, get_active_model. rewrite He, Hd. simpl negb. cbv iota.
    destruct Hact as [Hf|Ha].
    - now rewrite Hf.
    - rewrite Ha. apply truthy_Some_iff in Hne. now rewrite Hne. }
  eexists. split; [|split].
  - unfold _execute_with_fallback. rewrite He. simpl negb. cbv iota. rewrite Hn.
    apply (attempts_single env p st Hs (S n) n _ s m0 msg Hapi Hd Hm Hb Hq).
  - simpl. now rewrite after_pick_calls.
  - rewrite providers_set_provider_same. simpl. unfold sd_set.
    now rewrite ServiceType_eqb_refl.
Qed.

(** C2, as amended.  A backend with two ranked models or more, all of
    different non-empty names, whose calls all fail with a quota-style
    error, receives exactly the attempt budget of the capability (16 for
    chat, 6 for image, 6 for video); the failure is then recorded, the loop
    goes on with the next backend, and no later call of the request goes to
    the abandoned backend.  The calls are those the function of the
    backend makes, to the API of [api_of]: its own, or Luma's for the
    video functions of Google and Kling, which make them when Luma is
    enabled. *)
Theorem quota_failures_use_whole_budget
    env st today user_id pc rest errors s m0 more :
  registry_ok s ->
  ProviderConfig.enabled (providers s pc) = true ->
  supports st pc = true ->
  ProviderConfig.enabled (providers s (api_of st pc)) = true ->
  ProviderConfig.discovered_models (providers s pc) st = Some (m0 :: more) ->
  (2 <= length (m0 :: more))%nat ->
  NoDup (map ModelInfo.name (m0 :: more)) ->
  Forall (fun m => ModelInfo.name m <> EmptyString) (m0 :: more) ->
  always_quota_style env pc st ->
  NoDup (pc :: rest) ->
  let budget := max_retries_of st in
  let failure := all_attempts_failed_msg pc budget in
  let errors' := (errors ++ [error_summary_of pc failure])%list in
  exists s2 made,
    provider_loop env st (usage_service_of st) budget today user_id (pc :: rest) errors s
    = provider_loop env st (usage_service_of st) budget today user_id rest errors' s2 /\
    calls s2 = (calls s ++ made)%list /\
    length made = budget /\
    Forall (is_generate_of pc st) made /\
    ProviderConfig.errors_today (providers s2 pc)
    = ProviderConfig.errors_today (providers s pc) + 1 /\
    ProviderConfig.last_error (providers s2 pc) = Some failure /\
    (forall q, q <> pc -> providers s2 q = providers s q) /\
    (forall r s',
       provider_loop env st (usage_service_of st) budget today user_id rest errors' s2
       = (r, s') ->
       exists later, calls s' = (calls s2 ++ later)%list /\
                     Forall (fun c => ~ is_generate_of pc st c) later).
Proof.
  intros Hr He Hs Hapi Hd Hlen Hnd Hne Hq Hps budget failure errors'.
  destruct (attempts_all_quota env pc st Hs budget m0 more Hnd Hlen Hne Hq
              budget (get_active_model pc st s) s Hapi Hd) as (s1 & made & Ea & Ec & El & Fm).
  assert (Ee : _execute_with_fallback env pc st budget s = (Raise failure, s1)).
  { unfold _execute_with_fallback. rewrite He. exact Ea. }
  pose proof (_execute_with_fallback_footprint env pc st budget s _ s1 Ee) as Hfp.
  assert (Et : try_provider env st (usage_service_of st) budget today user_id pc s
               = (Raise failure, s1)).
  { unfold try_provider, bind at 1, get. rewrite Hr. unfold bind. now rewrite Ee. }
  destruct Hfp as [_ _ _ _ _ Hothers (Hname & _ & _ & _ & _ & Herr & _ & _) _ _].
  set (s2 := set_provider s1 pc (ProviderConfig.record_error (providers s1 pc) failure)).
  assert (Hr2 : registry_ok s2).
  { intros q. subst s2. destruct (Provider_eqb_spec q pc) as [->|Hqp].
    - rewrite providers_set_provider_same. simpl. rewrite Hname. apply Hr.
    - rewrite providers_set_provider_other, Hothers by exact Hqp. apply Hr. }
  exists s2, made. repeat split.
  - simpl provider_loop at 1. rewrite Et.
    replace (ProviderConfig.name (providers s1 pc)) with pc; [reflexivity|].
    rewrite Hname. symmetry. apply Hr.
  - exact Ec.
  - exact El.
  - exact Fm.
  - subst s2. rewrite providers_set_provider_same. simpl. now rewrite Herr.
  - subst s2. now rewrite providers_set_provider_same.
  - intros q Hqp. subst s2. rewrite providers_set_provider_other by exact Hqp.
    now apply Hothers.
  - intros r s' El'. apply provider_loop_footprint in El'; [|exact Hr2].
    destruct El' as [_ _ _ _ (later & Elater & Flater)].
    exists later. split; [exact Elater|].
    eapply Forall_impl; [|exact Flater].
    intros c (q & m & Hqin & ->) (m' & [= -> _]).
    inversion Hps; contradiction.
Qed.

(** ** The quota cache *)

Arguments UsageKey_eqb : simpl never.

Lemma UsageKey_eqb_sym a b : UsageKey_eqb a b = UsageKey_eqb b a.
Proof.
  destruct (UsageKey_eqb_spec a b), (UsageKey_eqb_spec b a); congruence.
Qed.

Lemma cache_get_None k c : cache_get k c = None <-> ~ In k (map fst c).
Proof.
  induction c as [|[k' v] c IH]; simpl; [tauto|].
  destruct (UsageKey_eqb_spec k' k); [intuition discriminate|tauto].
Qed.

Lemma cache_get_app k c1 c2 :
  cache_get k (c1 ++ c2) =
  match cache_get k c1 with Some v => Some v | None => cache_get k c2 end.
Proof.
  induction c1 as [|[k' v] c1 IH]; simpl; [reflexivity|].
  now destruct (UsageKey_eqb k' k).
Qed.

Lemma cache_get_set k v c k' :
  cache_get k' (cache_set k v c) = if UsageKey_eqb k k' then Some v else cache_get k' c.
Proof.
  induction c as [|[k0 v0] c IH]; simpl.
  - reflexivity.
  - destruct (UsageKey_eqb_spec k0 k) as [->|Hk]; simpl.
    + now destruct (UsageKey_eqb k k').
    + rewrite IH. destruct (UsageKey_eqb_spec k0 k'), (UsageKey_eqb_spec k k');
        congruence.
Qed.

Lemma cache_set_keys k v c :
  map fst (cache_set k v c) =
  match cache_get k c with
  | Some _ => map fst c
  | None => (map fst c ++ [k])%list
  end.
Proof.
  induction c as [|[k0 v0] c IH]; simpl; [reflexivity|].
  destruct (UsageKey_eqb_spec k0 k) as [->|Hk]; simpl; [reflexivity|].
  rewrite IH. now destruct (cache_get k c).
Qed.

Lemma cache_set_absent k v c :
  cache_get k c = None -> cache_set k v c = (c ++ [(k, v)])%list.
Proof.
  induction c as [|[k0 v0] c IH]; simpl; [reflexivity|].
  destruct (UsageKey_eqb k0 k); [discriminate|]. intros H. now rewrite IH.
Qed.

Lemma cache_remove_keys k c : ~ In k (map fst (cache_remove k c)).
Proof.
  unfold cache_remove. intros H. apply in_map_iff in H as ([k' v] & <- & H).
  apply filter_In in H as (_ & H). simpl in H. now rewrite UsageKey_eqb_refl in H.
Qed.

Lemma cache_get_remove k c k' :
  k' <> k -> cache_get k' (cache_remove k c) = cache_get k' c.
Proof.
  intros Hk. induction c as [|[k0 v0] c IH]; simpl; [reflexivity|].
  destruct (UsageKey_eqb_spec k0 k) as [->|H0]; simpl.
  - rewrite IH. destruct (UsageKey_eqb_spec k k'); congruence.
  - now rewrite IH.
Qed.

Lemma cache_remove_NoDup k c : NoDup (map fst c) -> NoDup (map fst (cache_remove k c)).
Proof.
  induction c as [|[k0 v0] c IH]; simpl; [auto|].
  intros H. inversion H as [|? ? Hn Hd]; subst.
  destruct (UsageKey_eqb k0 k); simpl; [auto|]. constructor; [|auto].
  intros Hin. apply Hn. apply in_map_iff in Hin as (kv & <- & Hin).
  apply filter_In in Hin as (Hin & _). now apply in_map.
Qed.

Lemma NoDup_snoc {A} (l : list A) x : NoDup l -> ~ In x l -> NoDup (l ++ [x]).
Proof.
  intros Hl Hx. apply NoDup_app; [exact Hl|repeat constructor; auto|].
  intros y Hy [<-|[]]. contradiction.
Qed.

Lemma cache_get_tl k v c :
  NoDup (map fst c) -> cache_get k (tl c) = Some v -> cache_get k c = Some v.
Proof.
  destruct c as [|[k0 v0] c]; simpl; [auto|].
  intros H Hg. inversion H as [|? ? Hn _]; subst.
  destruct (UsageKey_eqb_spec k0 k) as [->|]; [|exact Hg].
  apply cache_get_None in Hn. congruence.
Qed.

Lemma cached_last_get k v c : cached_last k v c -> cache_get k c = Some v.
Proof.
  intros (c0 & -> & Hn). rewrite cache_get_app.
  apply cache_get_None in Hn. rewrite Hn. simpl. now rewrite UsageKey_eqb_refl.
Qed.

Lemma cached_last_tl k v c :
  (2 <= length c)%nat -> cached_last k v c -> cached_last k v (tl c).
Proof.
  intros Hlen (c0 & -> & Hn). destruct c0 as [|kv c0].
  - simpl in Hlen. lia.
  - exists c0. split; [reflexivity|]. intros H. apply Hn. now right.
Qed.

Lemma cache_ok_move_to_end k v c table :
  cache_ok c table -> cache_get k c = Some v ->
  cache_ok (cache_move_to_end k v c) table /\
  cached_last k v (cache_move_to_end k v c).
Proof.
  intros (Hnd & Hco) Hg. unfold cache_move_to_end. split; [split|].
  - rewrite map_app. apply NoDup_snoc; [now apply cache_remove_NoDup|].
    apply cache_remove_keys.
  - intros k' v'. rewrite cache_get_app. simpl.
    destruct (UsageKey_eqb_spec k k') as [<-|Hk].
    + pose proof (cache_remove_keys k c) as Hn. apply cache_get_None in Hn.
      rewrite Hn. intros [= <-]. now apply Hco.
    + rewrite cache_get_remove by congruence.
      destruct (cache_get k' c) eqn:E; [|discriminate]. intros [= <-]. now apply Hco.
  - exists (cache_remove k c). split; [reflexivity|apply cache_remove_keys].
Qed.

Lemma cache_ok_hydrate k c table :
  cache_ok c table -> cache_get k c = None ->
  let v := match table k with Some n => n | None => 0 end in
  cache_ok (cache_set k v c) table /\ cached_last k v (cache_set k v c).
Proof.
  intros (Hnd & Hco) Hg v. split; [split|].
  - rewrite cache_set_keys, Hg. apply NoDup_snoc; [exact Hnd|]. now apply cache_get_None.
  - intros k' v'. rewrite cache_get_set.
    destruct (UsageKey_eqb_spec k k') as [<-|Hk]; [now intros [= <-]|apply Hco].
  - rewrite cache_set_absent by exact Hg. exists c. split; [reflexivity|].
    now apply cache_get_None.
Qed.

Lemma cache_ok_tl c table : cache_ok c table -> cache_ok (tl c) table.
Proof.
  intros (Hnd & Hco). split.
  - destruct c; simpl in *; [auto|]. now inversion Hnd.
  - intros k v Hg. apply Hco. now apply cache_get_tl.
Qed.

(** The eviction step of [check_user_limit]. *)
Lemma evict_keeps_last k v c table (size : nat) :
  (1 <= size)%nat -> cache_ok c table -> cached_last k v c ->
  let c' := if (size <? length c)%nat then tl c else c in
  cache_ok c' table /\ cached_last k v c'.
Proof.
  intros Hsize Hok Hlast. cbv zeta.
  destruct (Nat.ltb_spec size (length c)); [|auto].
  split; [now apply cache_ok_tl|]. apply cached_last_tl; [lia|exact Hlast].
Qed.

Section QuotaFacts.
Variable env : Environment.

(** A check that finds the key, or is answered by the store, decides on
    the stored count, and leaves the key in the cache. *)
Lemma check_user_limit_spec today u svc s :
  let k : UsageKey := (u, today, svc) in
  quota_inv s ->
  cache_get k (user_limits_cache s) <> None \/ db_fault env (db_ops s) = None ->
  exists s',
    check_user_limit env today u svc s
    = (Return (quota_decision env svc (stored s k)), s') /\
    quota_inv s' /\
    cached_last k (stored s k) (user_limits_cache s') /\
    ai_usage s' = ai_usage s.
Proof.
  intros k [Hok Hsize] Hsrc.
  assert (Hstep : exists c1 ops,
    (let s1 := mkManager c1 (max_cache_size s) (providers s) (discovery_completed s)
                         (ai_usage s) ops (calls s) in
     check_user_limit env today u svc s
     = (Return (quota_decision env svc (stored s k)),
        if (max_cache_size s <? length c1)%nat then set_cache s1 (tl c1) else s1)) /\
    cache_ok c1 (ai_usage s) /\ cached_last k (stored s k) c1).
  { unfold check_user_limit, try_except, bind, modify, ret, quota_decision. fold k.
    destruct (cache_get k (user_limits_cache s)) as [v|] eqn:Eg.
    - destruct (cache_ok_move_to_end k v _ _ Hok Eg) as (Hok1 & Hl1).
      assert (Ev : v = stored s k) by (destruct Hok as (_ & Hco); now apply Hco).
      subst v. exists (cache_move_to_end k (stored s k) (user_limits_cache s)), (db_ops s).
      split; [|auto]. simpl.
      destruct (_ <? _)%nat; destruct (_ <=? _); reflexivity.
    - destruct Hsrc as [?|Hdb]; [congruence|].
      destruct (cache_ok_hydrate k _ _ Hok Eg) as (Hok1 & Hl1).
      exists (cache_set k (stored s k) (user_limits_cache s)), (S (db_ops s)).
      split; [|auto]. unfold with_connection. rewrite Hdb. simpl.
      fold (stored s k).
      destruct (_ <? _)%nat; destruct (_ <=? _); reflexivity. }
  destruct Hstep as (c1 & ops & Echeck & Hok1 & Hl1). cbv zeta in Echeck.
  destruct (evict_keeps_last k _ c1 _ (max_cache_size s) Hsize Hok1 Hl1) as (Hok2 & Hl2).
  eexists. split; [exact Echeck|].
  destruct (_ <? _)%nat; simpl; (split; [constructor; assumption|auto]).
Qed.

(** A commit on a cached key that the store accepts adds one to both. *)
Lemma update_user_usage_spec today u svc s :
  let k : UsageKey := (u, today, svc) in
  quota_inv s ->
  cache_get k (user_limits_cache s) <> None ->
  db_fault env (db_ops s) = None ->
  exists s',
    update_user_usage env today u svc s = (Return true, s') /\
    quota_inv s' /\
    cache_get k (user_limits_cache s') <> None /\
    stored s' k = stored s k + 1 /\
    (forall k', k' <> k -> stored s' k' = stored s k').
Proof.
  intros k [(Hnd & Hco) Hsize] Hin Hdb.
  unfold update_user_usage, try_except, bind, modify, with_connection, ret. fold k.
  simpl. rewrite Hdb. eexists. split; [reflexivity|].
  destruct (cache_get k (user_limits_cache s)) as [v|] eqn:Eg; [|congruence].
  assert (Ev : v = stored s k) by (unfold stored; now apply Hco).
  split; [|split; [|split]].
  - constructor; [|exact Hsize]. simpl. split.
    + now rewrite cache_set_keys, Eg.
    + intros k' v'. rewrite cache_get_set.
      destruct (UsageKey_eqb_spec k k') as [<-|Hk].
      * intros [= <-]. rewrite Ev. unfold stored. now destruct (ai_usage s k).
      * apply Hco.
  - simpl. rewrite cache_get_set, UsageKey_eqb_refl. discriminate.
  - unfold stored. simpl. rewrite UsageKey_eqb_refl. now destruct (ai_usage s k).
  - intros k' Hk. unfold stored. simpl.
    destruct (UsageKey_eqb_spec k k'); [congruence|reflexivity].
Qed.

End QuotaFacts.

(** ** What the loop over the providers returns *)

Section OutcomeFacts.
Variable env : Environment.

Lemma try_provider_cases st svc mr today u pc s r s' :
  try_provider env st svc mr today u pc s = (r, s') ->
  r = Return None \/
  (exists o, r = Return (Some o) /\ is_success o) \/
  exists msg, r = Raise msg.
Proof.
  unfold try_provider. intros E.
  apply bind_inv in E as [(p & s0 & _ & E)|(msg & _ & ->)]; [|eauto].
  apply bind_inv in E as [(resp & s1 & _ & E)|(msg & _ & ->)]; [|eauto].
  destruct (Py.truthy (Some resp)) eqn:Et.
  - apply bind_inv in E as [(b & s2 & _ & E)|(msg & _ & ->)]; [|eauto].
    apply bind_inv in E as [([] & s3 & _ & E)|(msg & _ & ->)]; [|eauto].
    apply bind_inv in E as [([] & s4 & _ & E)|(msg & _ & ->)]; [|eauto].
    inversion E; subst. right; left. eexists. split; [reflexivity|].
    exists resp. split; [reflexivity|]. now apply truthy_Some_iff.
  - inversion E; subst. now left.
Qed.

(** The loop returns a value: the first success, or what follows the loop
    once every provider has been tried, with one summary for each
    provider that raised. *)
Lemma provider_loop_outcome st svc mr today u ps : forall errors s,
  exists o s',
    provider_loop env st svc mr today u ps errors s = (Return o, s') /\
    (is_success o \/
     exists new, o = after_loop (errors ++ new) /\
                 (length new <= length ps)%nat /\
                 Forall is_backend_summary new).
Proof.
  induction ps as [|pc rest IH]; intros errors s.
  - exists (after_loop errors), s. split; [reflexivity|]. right.
    exists []. rewrite app_nil_r. repeat split; auto.
  - simpl provider_loop.
    destruct (try_provider env st svc mr today u pc s) as [r s1] eqn:Et.
    destruct (try_provider_cases _ _ _ _ _ _ _ _ _ Et)
      as [->|[(o & -> & Ho)|(msg & ->)]].
    + destruct (IH errors s1) as (o & s' & E & [Ho|(new & Eo & Hl & Hf)]);
        exists o, s'; (split; [exact E|]); [now left|].
      right. exists new. repeat split; [exact Eo|simpl; lia|exact Hf].
    + exists o, s1. split; [reflexivity|now left].
    + match goal with |- context [provider_loop _ _ _ _ _ _ rest ?e ?s2] =>
        destruct (IH e s2) as (o & s' & E & [Ho|(new & Eo & Hl & Hf)]) end;
        exists o, s'; (split; [exact E|]); [now left|].
      right. eexists (_ :: new). rewrite <- app_assoc in Eo. simpl in Eo.
      repeat split; [exact Eo|simpl; lia|].
      constructor; [|exact Hf]. eexists _, _. reflexivity.
Qed.

End OutcomeFacts.

Lemma after_loop_not_refused errors remaining : after_loop errors <> QuotaRefused remaining.
Proof. destruct errors; discriminate. Qed.

(** C10.  When the store raises while the quota check fetches a count
    that is not in the cache, [check_user_limit] answers
    [(True, 999)]: the check fails open, the cache and the counts are left
    as they were, and the request goes on instead of being refused. *)
Theorem check_user_limit_fails_open env today user_id service_type s msg :
  cache_get (user_id, today, service_type) (user_limits_cache s) = None ->
  db_fault env (db_ops s) = Some msg ->
  (exists s',
     check_user_limit env today user_id service_type s = (Return (true, 999), s') /\
     user_limits_cache s' = user_limits_cache s /\
     ai_usage s' = ai_usage s) /\
  (forall st max_retries enhance r s',
     serve env st service_type max_retries enhance today user_id s = (r, s') ->
     forall remaining, r <> Return (QuotaRefused remaining)).
Proof.
  intros Hmiss Hdb.
  assert (Ec : check_user_limit env today user_id service_type s
               = (Return (true, 999), tick_db s)).
  { unfold check_user_limit, try_except, bind at 1, with_connection.
    now rewrite Hmiss, Hdb. }
  split; [eauto|].
  intros st mr enh r s' E remaining.
  apply serve_cases in E as (allowed & rem & s1 & Ec' & E).
  rewrite Ec in Ec'. injection Ec' as <- <- <-.
  destruct E as [(? & _)|[(_ & _ & -> & _)|(_ & _ & s2 & _ & E)]];
    [discriminate|discriminate|].
  destruct (provider_loop_outcome env st service_type mr today user_id
              (get_available_providers st (tick_db s)) [] s2)
    as (o & s3 & E3 & Ho).
  rewrite E3 in E. injection E as <- <-.
  destruct Ho as [(payload & -> & _)|(new & -> & _)]; [discriminate|].
  intros [= H]. now apply after_loop_not_refused in H.
Qed.


(** The handler of an entry point turns every exception into a value. *)
Lemma entry_point_returns env st today u text s :
  exists o s', entry_point env st today u text s = (Return o, s').
Proof.
  rewrite entry_point_eq. unfold handle_request. apply try_except_ret_returns.
Qed.


(** ** Sequences of quota operations *)

Section QuotaTraces.
Variable env : Environment.
Hypothesis store_answers : forall n, db_fault env n = None.


End QuotaTraces.

(** ** Discovery *)

Lemma preserves_ret P {A} (a : A) : preserves P (ret a).
Proof. intros s r s' H E. now inversion E; subst. Qed.

Lemma preserves_raise P {A} msg : preserves P (@raise A msg).
Proof. intros s r s' H E. now inversion E; subst. Qed.

Lemma preserves_modify P f : (forall s, P s -> P (f s)) -> preserves P (modify f).
Proof. intros Hf s r s' H E. inversion E; subst. now apply Hf. Qed.

Lemma preserves_bind P {A B} (m : M A) (f : A -> M B) :
  preserves P m -> (forall a, preserves P (f a)) -> preserves P (bind m f).
Proof.
  intros Hm Hf s r s' H E.
  apply bind_inv in E as [(a & s1 & E1 & E2)|(msg & E1 & _)].
  - eapply Hf; [|exact E2]. eapply Hm; eauto.
  - eapply Hm; eauto.
Qed.

Lemma preserves_try_except P {A} (m : M A) h :
  preserves P m -> (forall msg, preserves P (h msg)) -> preserves P (try_except m h).
Proof.
  intros Hm Hh s r s' H E.
  apply try_except_inv in E as [(a & E1 & _)|(msg & s1 & E1 & E2)].
  - eapply Hm; eauto.
  - eapply Hh; [|exact E2]. eapply Hm; eauto.
Qed.

Section DiscoveryFacts.
Variable env : Environment.

Lemma _setup_and_discover_google_eq s :
  _setup_and_discover_google env s = (Return tt, google_step env s).
Proof.
  unfold google_step, _setup_and_discover_google.
  destruct (negb _); [reflexivity|]. now destruct (genai_configure env).
Qed.

Lemma _setup_and_discover_openai_eq s :
  _setup_and_discover_openai env s = (Return tt, openai_step env s).
Proof.
  unfold openai_step, _setup_and_discover_openai.
  destruct (negb _); [reflexivity|]. now destruct (openai_client env).
Qed.

Lemma preserves_discovery_step P step m :
  preserves P m -> preserves P (discovery_step env step m).
Proof.
  intros Hm. unfold discovery_step.
  destruct (step_fault env step); [apply preserves_raise|exact Hm].
Qed.

(** What every step keeps, the whole of discovery keeps. *)
Lemma preserves_ensure_discovery P :
  (forall s, P s -> P (google_step env s)) ->
  (forall s, P s -> P (openai_step env s)) ->
  (forall s, P s -> P (other_step s)) ->
  (forall s, P s -> P (select_step s)) ->
  (forall s, P s -> P (set_discovery_completed s true)) ->
  preserves P (ensure_discovery env).
Proof.
  intros Hg Ho Hb Hsel Hflag s r s' H E. unfold ensure_discovery in E.
  destruct (negb (discovery_completed s)); [|now inversion E; subst].
  revert s r s' H E. apply preserves_bind; [|intros; now apply preserves_modify].
  unfold _setup_and_discover_async.
  apply preserves_try_except; [|intros; apply preserves_ret].
  repeat (apply preserves_bind; [|intros _]); apply preserves_discovery_step.
  - intros s r s' H E. rewrite _setup_and_discover_google_eq in E.
    inversion E; subst. now apply Hg.
  - intros s r s' H E. rewrite _setup_and_discover_openai_eq in E.
    inversion E; subst. now apply Ho.
  - now apply preserves_modify.
  - apply preserves_ret.
  - now apply preserves_modify.
Qed.

Lemma _setup_and_discover_async_returns s :
  exists s', _setup_and_discover_async env s = (Return tt, s').
Proof.
  unfold _setup_and_discover_async.
  match goal with |- context [try_except ?m _ s] =>
    destruct (try_except_ret_returns m tt s) as ([] & s1 & E) end.
  eauto.
Qed.

(** Discovery returns, and the flag is set when it does. *)
Lemma ensure_discovery_completes s :
  exists s', ensure_discovery env s = (Return tt, s') /\ discovery_completed s' = true.
Proof.
  unfold ensure_discovery. destruct (discovery_completed s) eqn:Ed; simpl negb; cbv iota.
  - eauto.
  - destruct (_setup_and_discover_async_returns s) as (s1 & E).
    unfold bind. rewrite E. unfold modify. eauto.
Qed.

(** With no fault, discovery is the five steps in a row. *)
Lemma ensure_discovery_runs s :
  discovery_completed s = false ->
  (forall step, step_fault env step = None) ->
  ensure_discovery env s =
  (Return tt,
   set_discovery_completed
     (select_step (other_step (openai_step env (google_step env s)))) true).
Proof.
  intros Hd Hf. unfold ensure_discovery. rewrite Hd. simpl negb. cbv iota.
  unfold _setup_and_discover_async, try_except, bind, discovery_step.
  rewrite !Hf, _setup_and_discover_google_eq, _setup_and_discover_openai_eq.
  unfold _setup_other_apis, _log_discovery_results, _select_best_models, modify, ret.
  unfold other_step, select_step. reflexivity.
Qed.


End DiscoveryFacts.

(** *** What discovery leaves alone *)

Lemma same_store_refl s : same_store s s.
Proof. repeat split. Qed.

Lemma same_store_set_provider s0 s p c :
  same_store s0 s -> same_store s0 (set_provider s p c).
Proof. intros H. exact H. Qed.

Lemma setup_bearer_api_cases p s :
  setup_bearer_api p s = s \/
  (exists key, ProviderConfig.api_key (providers s p) = Some key /\
               key <> EmptyString /\ 20 < Py.len key /\
               setup_bearer_api p s
               = set_provider s p (ProviderConfig.set_enabled (providers s p) true)).
Proof.
  unfold setup_bearer_api.
  destruct (ProviderConfig.api_key (providers s p)) as [key|]; [|now left].
  destruct (Py.truthy (Some key)) eqn:Et; simpl; [|now left].
  destruct (Z.ltb_spec 20 (Py.len key)); [|now left].
  right. exists key. repeat split; auto. now apply truthy_Some_iff.
Qed.

Lemma select_best_for_fields st c :
  same_but_active c (select_best_for st c).
Proof.
  unfold select_best_for.
  destruct (ProviderConfig.discovered_models c st) as [[|m l]|];
    first [apply same_but_active_refl | apply same_but_active_set].
Qed.

Lemma select_best_all_fields c :
  same_but_active c (fold_left (fun c st => select_best_for st c) all_service_types c).
Proof.
  simpl. eapply same_but_active_trans; [|apply select_best_for_fields].
  eapply same_but_active_trans; [|apply select_best_for_fields].
  apply select_best_for_fields.
Qed.

Lemma select_best_of_providers q s p :
  providers (select_best_of q s) p =
  if Provider_eqb q p then select_best_config (providers s q) else providers s p.
Proof.
  unfold select_best_of, select_best_config.
  destruct (negb (ProviderConfig.enabled (providers s q))); simpl.
  - destruct (Provider_eqb_spec q p); congruence.
  - reflexivity.
Qed.

Lemma select_fold_providers l : forall s p,
  NoDup l ->
  providers (fold_left (fun s p => select_best_of p s) l s) p =
  if existsb (Provider_eqb p) l then select_best_config (providers s p)
  else providers s p.
Proof.
  induction l as [|q l IH]; intros s p Hnd; simpl; [reflexivity|].
  inversion Hnd as [|? ? Hq Hl]; subst.
  rewrite IH by exact Hl. rewrite select_best_of_providers.
  destruct (Provider_eqb_spec p q) as [->|Hpq]; simpl.
  - rewrite Provider_eqb_refl.
    destruct (existsb (Provider_eqb q) l) eqn:E; [|reflexivity].
    exfalso. apply Hq. apply existsb_exists in E as (x & Hx & Ex).
    destruct (Provider_eqb_spec q x); [now subst|discriminate].
  - destruct (Provider_eqb_spec q p); [congruence|reflexivity].
Qed.

(** [_select_best_models] works on each provider by itself. *)
Lemma select_step_providers s p :
  providers (select_step s) p = select_best_config (providers s p).
Proof.
  unfold select_step. rewrite select_fold_providers by apply all_providers_NoDup.
  now destruct p.
Qed.

Lemma select_step_same_store s : same_store s (select_step s).
Proof.
  unfold select_step, all_providers, fold_left, select_best_of.
  repeat match goal with
         | |- context [if negb ?b then _ else _] => destruct (negb b)
         end; repeat split.
Qed.

Section DiscoveryStore.
Variable env : Environment.

Lemma google_step_same_store s : same_store s (google_step env s).
Proof.
  unfold google_step, _setup_and_discover_google.
  destruct (negb _); [apply same_store_refl|].
  destruct (genai_configure env); repeat split.
Qed.

Lemma openai_step_same_store s : same_store s (openai_step env s).
Proof.
  unfold openai_step, _setup_and_discover_openai.
  destruct (negb _); [apply same_store_refl|].
  destruct (openai_client env); repeat split.
Qed.

Lemma other_step_same_store s : same_store s (other_step s).
Proof.
  unfold other_step.
  destruct (setup_bearer_api_cases STABILITY s) as [->|(? & _ & _ & _ & ->)];
  match goal with |- context [setup_bearer_api LUMA ?x] =>
    destruct (setup_bearer_api_cases LUMA x) as [->|(? & _ & _ & _ & ->)] end;
  match goal with |- context [setup_bearer_api KLING ?x] =>
    destruct (setup_bearer_api_cases KLING x) as [->|(? & _ & _ & _ & ->)] end;
  repeat split.
Qed.

Lemma ensure_discovery_same_store s r s' :
  ensure_discovery env s = (r, s') -> same_store s s'.
Proof.
  apply (preserves_ensure_discovery env (same_store s)).
  - intros s1 (? & ? & ? & ? & ?).
    destruct (google_step_same_store s1) as (? & ? & ? & ? & ?).
    repeat split; congruence.
  - intros s1 (? & ? & ? & ? & ?).
    destruct (openai_step_same_store s1) as (? & ? & ? & ? & ?).
    repeat split; congruence.
  - intros s1 (? & ? & ? & ? & ?).
    destruct (other_step_same_store s1) as (? & ? & ? & ? & ?).
    repeat split; congruence.
  - intros s1 (? & ? & ? & ? & ?).
    destruct (select_step_same_store s1) as (? & ? & ? & ? & ?).
    repeat split; congruence.
  - intros s1 H. exact H.
  - apply same_store_refl.
Qed.

End DiscoveryStore.

(** *** Which credentials let a backend be enabled *)

Lemma validate_api_key_fields c :
  ProviderConfig.api_key (validate_api_key c) = ProviderConfig.api_key c /\
  ProviderConfig.name (validate_api_key c) = ProviderConfig.name c /\
  ProviderConfig.discovered_models (validate_api_key c) = ProviderConfig.discovered_models c /\
  ProviderConfig.active_models (validate_api_key c) = ProviderConfig.active_models c /\
  (ProviderConfig.enabled c = false -> ProviderConfig.enabled (validate_api_key c) = false).
Proof.
  unfold validate_api_key.
  destruct (ProviderConfig.api_key c) as [key|] eqn:Ek; [|now repeat split].
  destruct (_ || _)%bool; [now repeat split|].
  destruct (_ <? _); now repeat split.
Qed.

Lemma init_disabled env rows p :
  ProviderConfig.enabled (providers (init env rows) p) = false.
Proof.
  simpl. unfold _init_providers.
  now apply validate_api_key_fields.
Qed.

Lemma init_registry_ok env rows : registry_ok (init env rows).
Proof.
  intros p. simpl. unfold _init_providers.
  destruct (validate_api_key_fields
              (ProviderConfig.make p (getenv env (api_key_var p))
                 (getenv_int_default env (daily_limit_var p)))) as (_ & -> & _).
  reflexivity.
Qed.

Lemma init_keys_respected env rows : keys_respected env (init env rows).
Proof.
  intros p. split.
  - simpl. unfold _init_providers.
    destruct (validate_api_key_fields
                (ProviderConfig.make p (getenv env (api_key_var p))
                   (getenv_int_default env (daily_limit_var p)))) as (-> & _).
    reflexivity.
  - rewrite init_disabled. discriminate.
Qed.

Lemma keys_respected_set_provider env s p c :
  keys_respected env s ->
  ProviderConfig.api_key c = ProviderConfig.api_key (providers s p) ->
  (ProviderConfig.enabled c = true ->
   ProviderConfig.enabled (providers s p) = true \/
   enabling_key p (ProviderConfig.api_key c)) ->
  keys_respected env (set_provider s p c).
Proof.
  intros H Hk He q. destruct (H q) as (Hq1 & Hq2).
  destruct (Provider_eqb_spec q p) as [->|Hne].
  - rewrite providers_set_provider_same. split; [congruence|].
    intros E. destruct (He E) as [E'|E']; [auto|]. now rewrite Hk, Hq1 in E'.
  - rewrite providers_set_provider_other by exact Hne. auto.
Qed.

Section KeysRespected.
Variable env : Environment.

Lemma google_step_keys s : keys_respected env s -> keys_respected env (google_step env s).
Proof.
  intros H. unfold google_step, _setup_and_discover_google.
  destruct (Py.truthy (ProviderConfig.api_key (providers s GOOGLE))) eqn:Et;
    simpl negb; cbv iota; [|exact H].
  destruct (genai_configure env); simpl snd.
  - apply keys_respected_set_provider; [exact H|reflexivity|discriminate].
  - apply keys_respected_set_provider; [exact H| |].
    + unfold google_configured.
      now destruct (google_discovered env CHAT) as [[|? ?]|].
    + intros _. right.
      replace (ProviderConfig.api_key (google_configured env (providers s GOOGLE)))
        with (ProviderConfig.api_key (providers s GOOGLE))
        by (unfold google_configured;
            now destruct (google_discovered env CHAT) as [[|? ?]|]).
      destruct (ProviderConfig.api_key (providers s GOOGLE)) as [[|c k]|];
        try discriminate.
      simpl. split; discriminate.
Qed.

Lemma openai_step_keys s : keys_respected env s -> keys_respected env (openai_step env s).
Proof.
  intros H. unfold openai_step, _setup_and_discover_openai.
  destruct (Py.truthy (ProviderConfig.api_key (providers s OPENAI))) eqn:Et;
    simpl negb; cbv iota; [|exact H].
  destruct (openai_client env); simpl snd.
  - apply keys_respected_set_provider; [exact H|reflexivity|discriminate].
  - apply keys_respected_set_provider; [exact H|reflexivity|].
    intros _. right. simpl.
    destruct (ProviderConfig.api_key (providers s OPENAI)) as [[|c k]|];
      try discriminate.
    simpl. split; discriminate.
Qed.

Lemma setup_bearer_api_keys p s :
  keys_respected env s -> keys_respected env (setup_bearer_api p s).
Proof.
  intros H. destruct (setup_bearer_api_cases p s) as [->|(key & Ek & Hne & Hlen & ->)];
    [exact H|].
  apply keys_respected_set_provider; [exact H|reflexivity|].
  intros _. right. simpl. rewrite Ek. simpl. auto.
Qed.

Lemma other_step_keys s : keys_respected env s -> keys_respected env (other_step s).
Proof. intros H. unfold other_step. now repeat apply setup_bearer_api_keys. Qed.

Lemma select_best_config_fields c : same_but_active c (select_best_config c).
Proof.
  unfold select_best_config. destruct (negb _);
    [apply same_but_active_refl|apply select_best_all_fields].
Qed.

Lemma select_step_keys s : keys_respected env s -> keys_respected env (select_step s).
Proof.
  intros H p. rewrite select_step_providers.
  destruct (select_best_config_fields (providers s p)) as (_ & -> & -> & _).
  apply H.
Qed.

Lemma ensure_discovery_keys s r s' :
  keys_respected env s -> ensure_discovery env s = (r, s') -> keys_respected env s'.
Proof.
  apply (preserves_ensure_discovery env (keys_respected env));
    auto using google_step_keys, openai_step_keys, other_step_keys, select_step_keys.
Qed.

End KeysRespected.

(** *** The catalogue after discovery *)

Lemma catalogues_ok_set_provider env s p c :
  catalogues_ok env s -> catalogue_ok env p c -> catalogues_ok env (set_provider s p c).
Proof.
  intros H Hc q. destruct (Provider_eqb_spec q p) as [->|Hne].
  - now rewrite providers_set_provider_same.
  - rewrite providers_set_provider_other by exact Hne. apply H.
Qed.

Lemma catalogue_ok_set_enabled_false env p c :
  catalogue_ok env p c -> catalogue_ok env p (ProviderConfig.set_enabled c false).
Proof.
  intros H st. destruct (H st) as (Ha & Hd). split; [exact Ha|].
  simpl. destruct (ProviderConfig.discovered_models c st); [exact Hd|discriminate].
Qed.

Lemma init_catalogues_ok env rows : catalogues_ok env (init env rows).
Proof.
  intros p st. simpl. unfold _init_providers.
  destruct (validate_api_key_fields
              (ProviderConfig.make p (getenv env (api_key_var p))
                 (getenv_int_default env (daily_limit_var p))))
    as (_ & _ & Hd & Ha & He).
  unfold active_is_head_or_unset, models_of. rewrite Hd, Ha. simpl.
  split; [now left|]. rewrite He by reflexivity. discriminate.
Qed.

Section Catalogue.
Variable env : Environment.

Lemma google_configured_ok c :
  catalogue_ok env GOOGLE c -> catalogue_ok env GOOGLE (google_configured env c).
Proof.
  intros H st. destruct (H st) as (Ha & Hd).
  assert (Hdisc : ProviderConfig.discovered_models (google_configured env c)
                  = google_discovered env).
  { unfold google_configured. now destruct (google_discovered env CHAT) as [[|? ?]|]. }
  assert (Hsame : forall st', ProviderConfig.discovered_models c st' <> None ->
                              models_of (google_configured env c) st' = models_of c st').
  { intros st' Hs. unfold models_of. rewrite Hdisc.
    destruct (H st') as (_ & Hd').
    destruct (ProviderConfig.discovered_models c st'); [|congruence].
    now rewrite Hd'. }
  split; [|now rewrite Hdisc].
  assert (Hkeep : ProviderConfig.active_models (google_configured env c) st
                  = ProviderConfig.active_models c st ->
                  active_is_head_or_unset (google_configured env c) st).
  { intros Hact. destruct Ha as [Ha|(m & rest & Hm & Ha)].
    - left. congruence.
    - right. exists m, rest. split; [|congruence].
      rewrite Hsame; [exact Hm|]. unfold models_of in Hm.
      destruct (ProviderConfig.discovered_models c st); [discriminate|discriminate]. }
  assert (Hact : ProviderConfig.active_models (google_configured env c) =
                 match google_discovered env CHAT with
                 | Some (top :: _) =>
                     sd_set (ProviderConfig.active_models c) CHAT (ModelInfo.name top)
                 | _ => ProviderConfig.active_models c
                 end).
  { unfold google_configured. now destruct (google_discovered env CHAT) as [[|? ?]|]. }
  destruct (google_discovered env CHAT) as [[|top rest]|] eqn:Ec;
    try (apply Hkeep; now rewrite Hact).
  destruct (ServiceType_eqb_spec CHAT st) as [<-|Hst].
  - right. exists top, rest. unfold models_of. rewrite Hdisc, Ec, Hact.
    split; [reflexivity|]. unfold sd_set. now rewrite ServiceType_eqb_refl.
  - apply Hkeep. rewrite Hact. unfold sd_set.
    destruct (ServiceType_eqb_spec CHAT st); [contradiction|reflexivity].
Qed.

Lemma google_step_catalogues s :
  catalogues_ok env s -> catalogues_ok env (google_step env s).
Proof.
  intros H. unfold google_step, _setup_and_discover_google.
  destruct (negb _); [exact H|].
  destruct (genai_configure env); simpl snd;
    (apply catalogues_ok_set_provider; [exact H|]).
  - apply catalogue_ok_set_enabled_false, H.
  - apply google_configured_ok, H.
Qed.

Lemma openai_step_catalogues s :
  catalogues_ok env s -> catalogues_ok env (openai_step env s).
Proof.
  intros H. unfold openai_step, _setup_and_discover_openai.
  destruct (negb _); [exact H|].
  destruct (openai_client env); simpl snd;
    (apply catalogues_ok_set_provider; [exact H|]).
  - apply catalogue_ok_set_enabled_false, H.
  - intros st. destruct (H OPENAI st) as (Ha & Hd). split; [|reflexivity].
    destruct Ha as [Ha|(m & rest & Hm & Ha)]; [now left|].
    right. exists m, rest. split; [|exact Ha].
    unfold models_of in *.
    change (ProviderConfig.discovered_models
              (ProviderConfig.set_discovered_models
                 (ProviderConfig.set_enabled (providers s OPENAI) true)
                 openai_discovered) st)
      with (openai_discovered st).
    unfold openai_discovered. unfold discovery_order in Hd.
    destruct (ProviderConfig.discovered_models (providers s OPENAI) st);
      [|discriminate].
    now rewrite <- Hd.
Qed.

Lemma setup_bearer_api_catalogues p s :
  is_bearer p = true ->
  catalogues_ok env s -> catalogues_ok env (setup_bearer_api p s).
Proof.
  intros Hb H. destruct (setup_bearer_api_cases p s) as [->|(key & _ & _ & _ & ->)];
    [exact H|].
  apply catalogues_ok_set_provider; [exact H|].
  intros st. destruct (H p st) as (Ha & Hd). split; [exact Ha|]. simpl.
  destruct (ProviderConfig.discovered_models (providers s p) st); [exact Hd|].
  intros _. now destruct p.
Qed.

Lemma other_step_catalogues s :
  catalogues_ok env s -> catalogues_ok env (other_step s).
Proof.
  intros H. unfold other_step. now repeat apply setup_bearer_api_catalogues.
Qed.

End Catalogue.

Lemma select_best_all_active c st :
  ProviderConfig.active_models
    (fold_left (fun c st => select_best_for st c) all_service_types c) st =
  match ProviderConfig.discovered_models c st with
  | Some (m :: models) => Some (ModelInfo.name (min_by_priority m models))
  | _ => ProviderConfig.active_models c st
  end.
Proof.
  unfold all_service_types, fold_left, select_best_for.
  destruct st;
    destruct (ProviderConfig.discovered_models c CHAT) as [[|m1 l1]|] eqn:E1;
    cbn [ProviderConfig.discovered_models ProviderConfig.set_active_model
         ProviderConfig.set_active_models];
    destruct (ProviderConfig.discovered_models c IMAGE) as [[|m2 l2]|] eqn:E2;
    cbn [ProviderConfig.discovered_models ProviderConfig.set_active_model
         ProviderConfig.set_active_models];
    destruct (ProviderConfig.discovered_models c VIDEO) as [[|m3 l3]|] eqn:E3;
    cbn [ProviderConfig.discovered_models ProviderConfig.set_active_model
         ProviderConfig.set_active_models ProviderConfig.active_models];
    unfold sd_set; cbn [ServiceType_eqb]; reflexivity.
Qed.

(** After [_select_best_models] the active model of an enabled backend
    is the head of each ranked list. *)
Lemma select_best_config_selected env p c :
  catalogue_ok env p c ->
  ProviderConfig.enabled c = true ->
  forall st,
    models_of (select_best_config c) st = models_of c st /\
    active_is_head (select_best_config c) st.
Proof.
  intros H He st. unfold select_best_config. rewrite He. simpl negb. cbv iota.
  destruct (select_best_all_fields c) as (_ & _ & _ & _ & _ & _ & _ & Hdisc).
  assert (Hm : models_of (fold_left (fun c st => select_best_for st c) all_service_types c) st
               = models_of c st) by (unfold models_of; now rewrite Hdisc).
  split; [exact Hm|].
  unfold active_is_head. rewrite Hm, select_best_all_active.
  destruct (H st) as (Ha & Hd). unfold active_is_head_or_unset, models_of in *.
  destruct (ProviderConfig.discovered_models c st) as [[|m models]|] eqn:Ed.
  - destruct Ha as [Ha|(? & ? & Hx & _)]; [exact Ha|discriminate Hx].
  - f_equal. f_equal. apply min_by_priority_sorted.
    pose proof (sort_by_priority_sorted (discovery_order env p st)) as Hs.
    rewrite <- Hd in Hs. now inversion Hs.
  - destruct Ha as [Ha|(? & ? & Hx & _)]; [exact Ha|discriminate Hx].
Qed.

Lemma select_best_config_catalogue env p c :
  catalogue_ok env p c -> catalogue_ok env p (select_best_config c).
Proof.
  intros H st. destruct (H st) as (Ha & Hd).
  destruct (select_best_config_fields c) as (_ & _ & He & _ & _ & _ & _ & Hdisc).
  rewrite Hdisc, He. split; [|exact Hd].
  destruct (ProviderConfig.enabled c) eqn:Een.
  - destruct (select_best_config_selected env p c H Een st) as (Hm & Hh).
    unfold active_is_head in Hh. unfold active_is_head_or_unset.
    destruct (models_of (select_best_config c) st) as [|m rest] eqn:Em; [now left|].
    right. eauto.
  - unfold select_best_config. now rewrite Een.
Qed.

Lemma select_step_catalogues env s :
  catalogues_ok env s -> catalogues_ok env (select_step s).
Proof.
  intros H p. rewrite select_step_providers. apply select_best_config_catalogue, H.
Qed.

Lemma providers_set_discovery_completed s b :
  providers (set_discovery_completed s b) = providers s.
Proof. reflexivity. Qed.

(** C7.  When discovery has run to its end on a new manager, the
    ranked list of every enabled backend for every capability is sorted
    ascending by priority, holds the models discovery found with those of
    equal priority in discovery order, and the active model is the head of
    the list, whose priority is the least; it is unset when the list is
    empty. *)
Theorem discovered_models_sorted_and_active_is_best env rows :
  (forall step, step_fault env step = None) ->
  let s := snd (ensure_discovery env (init env rows)) in
  discovery_completed s = true /\
  forall p st,
    ProviderConfig.enabled (providers s p) = true ->
    let models := models_of (providers s p) st in
    StronglySorted priority_le models /\
    Permutation (discovery_order env p st) models /\
    (forall k, filter (fun m => ModelInfo.priority m =? k) models
               = filter (fun m => ModelInfo.priority m =? k) (discovery_order env p st)) /\
    match models with
    | [] => ProviderConfig.active_models (providers s p) st = None
    | best :: _ =>
        ProviderConfig.active_models (providers s p) st = Some (ModelInfo.name best) /\
        Forall (priority_le best) models
    end.
Proof.
  intros Hf s. subst s.
  rewrite (ensure_discovery_runs env (init env rows) eq_refl Hf). cbn [snd].
  split; [reflexivity|]. intros p st He. cbv zeta.
  set (s3 := other_step (openai_step env (google_step env (init env rows)))) in *.
  assert (H3 : catalogues_ok env s3).
  { apply other_step_catalogues, openai_step_catalogues, google_step_catalogues,
      init_catalogues_ok. }
  rewrite providers_set_discovery_completed, select_step_providers in *.
  assert (He3 : ProviderConfig.enabled (providers s3 p) = true).
  { destruct (select_best_config_fields (providers s3 p)) as (_ & _ & E & _). congruence. }
  destruct (select_best_config_selected env p _ (H3 p) He3 st) as (Hm & Hh).
  assert (Hl : models_of (providers s3 p) st = sort_by_priority (discovery_order env p st)).
  { destruct (H3 p st) as (_ & Hd). unfold models_of.
    destruct (ProviderConfig.discovered_models (providers s3 p) st); [exact Hd|].
    rewrite (Hd He3). reflexivity. }
  unfold active_is_head in Hh. rewrite Hm in *. rewrite Hl in *.
  split; [apply sort_by_priority_sorted|].
  split; [apply (stable_sort_perm priority_leb)|].
  split; [intros k; apply sort_by_priority_stable|].
  pose proof (sort_by_priority_sorted (discovery_order env p st)) as Hs.
  destruct (sort_by_priority (discovery_order env p st)) as [|best rest]; [exact Hh|].
  split; [exact Hh|]. inversion Hs; subst.
  constructor; [unfold priority_le; lia|assumption].
Qed.

Lemma no_provider_when_all_disabled s st :
  (forall p, ProviderConfig.enabled (providers s p) = false) ->
  get_available_providers st s = [].
Proof.
  intros H. destruct (get_available_providers st s) as [|p l] eqn:E; [reflexivity|].
  assert (Hin : In p (get_available_providers st s)) by (rewrite E; now left).
  apply get_available_providers_In, is_available_iff in Hin as (He & _).
  rewrite H in He. discriminate.
Qed.

(** A valid request on a manager whose discovery is done is [serve]. *)
Lemma handle_request_valid env st today u text s :
  discovery_completed s = true ->
  0 < u -> too_short text (min_length_of st) = false ->
  handle_request env st today u text s =
  match serve env st (usage_service_of st) (max_retries_of st) (enhances_prompt st)
              today u s with
  | (Return o, s') => (Return o, s')
  | (Raise _, s') => (Return SystemError, s')
  end.
Proof.
  intros Hd Hu Ht. unfold handle_request, try_except, bind at 1, ensure_discovery.
  rewrite Hd. simpl negb. cbv iota.
  destruct (Z.leb_spec u 0); [lia|]. rewrite Ht. reflexivity.
Qed.

(** A valid request on a manager none of whose backends is enabled is told
    that no service is available, unless the user's quota is spent. *)
Lemma entry_point_without_providers env st today u text s :
  discovery_completed s = true ->
  (forall p, ProviderConfig.enabled (providers s p) = false) ->
  0 < u -> too_short text (min_length_of st) = false ->
  exists o s',
    entry_point env st today u text s = (Return o, s') /\
    (o = NoProviders \/ exists remaining, o = QuotaRefused remaining).
Proof.
  intros Hd Hdis Hu Ht. rewrite entry_point_eq, handle_request_valid by assumption.
  destruct (serve env st (usage_service_of st) (max_retries_of st) (enhances_prompt st)
                  today u s) as [r s'] eqn:E.
  apply serve_cases in E as (allowed & remaining & s1 & Ec & E).
  apply check_user_limit_footprint in Ec. destruct Ec as [Ep _ _ _].
  destruct E as [(_ & -> & ->)|[(_ & _ & -> & ->)|(_ & Hne & _)]].
  - eexists _, _. split; [reflexivity|]. right. eauto.
  - eexists _, _. split; [reflexivity|]. now left.
  - exfalso. apply Hne. apply no_provider_when_all_disabled.
    intros p. rewrite Ep. apply Hdis.
Qed.





Lemma handle_request_after_discovery env st today u text s sd :
  ensure_discovery env s = (Return tt, sd) ->
  0 < u -> too_short text (min_length_of st) = false ->
  handle_request env st today u text s =
  match serve env st (usage_service_of st) (max_retries_of st) (enhances_prompt st)
              today u sd with
  | (Return o, s') => (Return o, s')
  | (Raise _, s') => (Return SystemError, s')
  end.
Proof.
  intros Hd Hu Ht. unfold handle_request, try_except, bind at 1.
  rewrite Hd. destruct (Z.leb_spec u 0); [lia|]. rewrite Ht. reflexivity.
Qed.

Lemma quota_inv_same_store s s' : same_store s s' -> quota_inv s -> quota_inv s'.
Proof.
  intros (Hc & Hs & Hu & _) [Hok Hsize]. constructor; [|now rewrite Hs].
  now rewrite Hc, Hu.
Qed.


Lemma ensure_discovery_registry env s r s' :
  registry_ok s -> ensure_discovery env s = (r, s') -> registry_ok s'.
Proof.
  apply (preserves_ensure_discovery env registry_ok).
  - intros s0 H p. unfold google_step, _setup_and_discover_google.
    destruct (negb _); [apply H|].
    destruct (genai_configure env); simpl snd;
      (destruct (Provider_eqb_spec p GOOGLE) as [->|Hne];
       [rewrite providers_set_provider_same
       |rewrite providers_set_provider_other by exact Hne; apply H]).
    + apply H.
    + unfold google_configured.
      destruct (google_discovered env CHAT) as [[|? ?]|]; apply H.
  - intros s0 H p. unfold openai_step, _setup_and_discover_openai.
    destruct (negb _); [apply H|].
    destruct (openai_client env); simpl snd;
      (destruct (Provider_eqb_spec p OPENAI) as [->|Hne];
       [rewrite providers_set_provider_same; apply H
       |rewrite providers_set_provider_other by exact Hne; apply H]).
  - intros s0 H. unfold other_step.
    assert (Hb : forall q s1, registry_ok s1 -> registry_ok (setup_bearer_api q s1)).
    { intros q s1 H1 p.
      destruct (setup_bearer_api_cases q s1) as [->|(? & _ & _ & _ & ->)]; [apply H1|].
      destruct (Provider_eqb_spec p q) as [->|Hne];
        [rewrite providers_set_provider_same; apply H1
        |rewrite providers_set_provider_other by exact Hne; apply H1]. }
    now repeat apply Hb.
  - intros s0 H p. rewrite select_step_providers.
    destruct (select_best_config_fields (providers s0 p)) as (-> & _). apply H.
  - intros s0 H. exact H.
Qed.

(** Every entry point starts with discovery and goes on from the manager
    discovery leaves. *)
Lemma handle_request_discovers env st today u text s r s' :
  handle_request env st today u text s = (r, s') ->
  exists sd,
    ensure_discovery env s = (Return tt, sd) /\
    ((s' = sd /\ (r = Return InvalidUser \/ r = Return InvalidInput)) \/
     (0 < u /\ too_short text (min_length_of st) = false /\
      exists r0,
        serve env st (usage_service_of st) (max_retries_of st) (enhances_prompt st)
              today u sd = (r0, s'))).
Proof.
  intros E. destruct (ensure_discovery_completes env s) as (sd & Ed & _).
  exists sd. split; [exact Ed|].
  unfold handle_request, try_except, bind at 1 in E. rewrite Ed in E.
  destruct (Z.leb_spec u 0).
  - left. inversion E; subst. auto.
  - destruct (too_short text (min_length_of st)) eqn:Ets.
    + left. inversion E; subst. auto.
    + right. repeat split; [assumption|].
      destruct (serve env st (usage_service_of st) (max_retries_of st)
                      (enhances_prompt st) today u sd) as [[o|msg] s1];
        inversion E; subst; eauto.
Qed.

(** The generation calls of [serve] go to available backends. *)
Lemma serve_footprint env st svc mr enh today u s r s' :
  registry_ok s ->
  serve env st svc mr enh today u s = (r, s') ->
  registry_ok s' /\
  (forall q, same_settings (providers s q) (providers s' q)) /\
  exists made,
    calls s' = (calls s ++ made)%list /\
    forall p st' model, In (Generate p st' model) made ->
      In p (get_available_providers st s).
Proof.
  intros Hr E.
  apply serve_cases in E as (allowed & remaining & s1 & Ec & E).
  apply check_user_limit_footprint in Ec. destruct Ec as [Ep Ecalls _ _].
  assert (Hr1 : registry_ok s1) by (intros p; rewrite Ep; apply Hr).
  assert (Hrefl : forall q, same_settings (providers s q) (providers s1 q))
    by (intros q; rewrite Ep; repeat split).
  destruct E as [(_ & _ & ->)|[(_ & _ & _ & ->)|(_ & _ & s2 & Hs2 & E)]].
  - split; [exact Hr1|]. split; [exact Hrefl|].
    exists []. rewrite app_nil_r. split; [congruence|]. intros ? ? ? [].
  - split; [exact Hr1|]. split; [exact Hrefl|].
    exists []. rewrite app_nil_r. split; [congruence|]. intros ? ? ? [].
  - assert (Hp2 : providers s2 = providers s).
    { destruct Hs2 as [->|(m & _ & ->)]; exact Ep. }
    assert (Hr2 : registry_ok s2) by (intros p; rewrite Hp2; apply Hr).
    apply provider_loop_footprint in E; [|exact Hr2].
    pose proof (loop_footprint_registry _ _ _ _ E Hr2) as Hr'.
    destruct E as [_ _ Hset _ (l & El & Fl)].
    split; [exact Hr'|]. split.
    { intros q. specialize (Hset q). now rewrite Hp2 in Hset. }
    assert (Hin : forall p st' model, In (Generate p st' model) l ->
              In p (get_available_providers st s)).
    { intros p st' model Hin. rewrite Forall_forall in Fl.
      destruct (Fl _ Hin) as (q & m & Hq & Eq). inversion Eq; subst.
      now rewrite (get_available_providers_ext s s1) in Hq by exact Ep. }
    destruct Hs2 as [->|(m & _ & ->)].
    + exists l. split; [congruence|exact Hin].
    + exists (Enhance m :: l). split.
      * rewrite El. simpl. rewrite Ecalls, <- app_assoc. reflexivity.
      * intros p st' model [Hc|Hc]; [discriminate|eauto].
Qed.

(** ** The API a call reaches *)





Lemma engine_footprint_flags p st s s' :
  engine_footprint p st s s' ->
  forall q, ProviderConfig.enabled (providers s' q)
            = ProviderConfig.enabled (providers s q).
Proof.
  intros [_ _ _ _ _ Ho (_ & _ & He & _) _ _] q.
  destruct (Provider_eqb_spec q p) as [->|Hq]; [exact He|now rewrite Ho].
Qed.


Section Reach.
Variable env : Environment.










End Reach.


(** *** Managers reached by requests *)

Lemma entry_point_keeps_registry env st today u text s r s' :
  registry_ok s -> keys_respected env s ->
  entry_point env st today u text s = (r, s') ->
  registry_ok s' /\ keys_respected env s'.
Proof.
  intros Hr Hk E. rewrite entry_point_eq in E.
  apply handle_request_discovers in E as (sd & Ed & E).
  pose proof (ensure_discovery_registry env s _ sd Hr Ed) as Hrd.
  pose proof (ensure_discovery_keys env s _ sd Hk Ed) as Hkd.
  destruct E as [(-> & _)|(_ & _ & r0 & E)]; [auto|].
  apply serve_footprint in E as (Hr' & Hset & _); [|exact Hrd].
  split; [exact Hr'|]. intros p. destruct (Hkd p) as (Hp1 & Hp2).
  destruct (Hset p) as (_ & Hkey & Hen & _). rewrite Hkey, Hen. auto.
Qed.

Lemma run_requests_keeps_registry env qs : forall s,
  registry_ok s -> keys_respected env s ->
  registry_ok (run_requests env qs s) /\ keys_respected env (run_requests env qs s).
Proof.
  induction qs as [|[[[st today] u] text] qs IH]; intros s Hr Hk; simpl; [auto|].
  destruct (entry_point env st today u text s) as [r s'] eqn:E.
  apply entry_point_keeps_registry in E as (Hr' & Hk'); auto.
Qed.

(** C4, as amended.  A new manager has every backend disabled.
    Discovery, and any sequence of requests after it, leaves a backend
    enabled only when its credential is present and not empty, and longer
    than 20 characters for Stability, Luma and Kling.  A backend that is
    disabled when a selection is made is not in it. *)
Theorem disabled_backends_are_never_selected env rows :
  (forall p, ProviderConfig.enabled (providers (init env rows) p) = false) /\
  (forall r s p,
     ensure_discovery env (init env rows) = (r, s) ->
     ProviderConfig.enabled (providers s p) = true ->
     enabling_key p (getenv env (api_key_var p))) /\
  (forall qs p,
     ProviderConfig.enabled (providers (run_requests env qs (init env rows)) p) = true ->
     exists key,
       getenv env (api_key_var p) = Some key /\ key <> EmptyString /\
       (is_bearer p = true -> 20 < Py.len key)) /\
  (forall st s p,
     ProviderConfig.enabled (providers s p) = false ->
     ~ In p (get_available_providers st s)).
Proof.
  split; [apply init_disabled|]. split; [|split].
  - intros r s p E He.
    pose proof (ensure_discovery_keys env _ _ _ (init_keys_respected env rows) E) as H.
    now apply H.
  - intros qs p He.
    destruct (run_requests_keeps_registry env qs (init env rows)
                (init_registry_ok env rows) (init_keys_respected env rows)) as (_ & H).
    destruct (H p) as (_ & Hk). specialize (Hk He). unfold enabling_key in Hk.
    destruct (getenv env (api_key_var p)) as [key|]; [|contradiction].
    exists key. tauto.
  - intros st s p He Hin.
    apply get_available_providers_In, is_available_iff in Hin as (He' & _). congruence.
Qed.

(** * Further properties *)

(** ** Rotation follows the ranked list *)

Lemma index_of_nth models : forall i d,
  NoDup (map ModelInfo.name models) -> (i < length models)%nat ->
  index_of (ModelInfo.name (nth i models d)) models = Some i.
Proof.
  induction models as [|m models IH]; intros i d Hnd Hi; simpl in Hi; [lia|].
  simpl in Hnd. inversion Hnd as [|? ? Hn Hnd']; subst.
  destruct i as [|i]; simpl.
  - now rewrite String.eqb_refl.
  - destruct (String.eqb_spec (ModelInfo.name m) (ModelInfo.name (nth i models d))) as [E|E].
    + exfalso. apply Hn. rewrite E. apply in_map. apply nth_In. lia.
    + rewrite IH by (auto; lia). reflexivity.
Qed.

Lemma next_model_name_nth m0 rest i d :
  let models := m0 :: rest in
  NoDup (map ModelInfo.name models) -> (i < length models)%nat ->
  ModelInfo.name (nth i models d) <> EmptyString ->
  next_model_name models m0 (Some (ModelInfo.name (nth i models d)))
  = ModelInfo.name (nth (S i mod length models) models d).
Proof.
  intros models Hnd Hi Hne. unfold next_model_name.
  assert (Ht : Py.truthy (Some (ModelInfo.name (nth i models d))) = true)
    by now apply truthy_Some_iff.
  assert (Hin : existsb (String.eqb (ModelInfo.name (nth i models d)))
                        (map ModelInfo.name models) = true).
  { apply existsb_eqb_In. apply in_map. apply nth_In. exact Hi. }
  rewrite Ht, Hin. cbn [negb orb].
  rewrite (index_of_nth models i d Hnd Hi).
  destruct (Nat.leb_spec (length models - 1) i) as [Hlast|Hmid].
  - assert (E : S i = length models) by lia. rewrite E, Nat.Div0.mod_same. reflexivity.
  - rewrite Nat.mod_small by lia. rewrite Nat.add_1_r.
    f_equal. apply nth_indep. lia.
Qed.

(** X1.  [rotate_model] walks the ranked list of a backend in order and
    wraps around: called with the model at position [i] of a list of
    models of different names, it returns the model at position
    [(i + 1) mod n] and makes it the active one.  Called with a model
    the list does not hold, it returns the head of the list. *)
Theorem rotate_model_follows_ranked_order p st s models d :
  ProviderConfig.discovered_models (providers s p) st = Some models ->
  NoDup (map ModelInfo.name models) ->
  (forall i,
     (i < length models)%nat ->
     ModelInfo.name (nth i models d) <> EmptyString ->
     let next := ModelInfo.name (nth (S i mod length models) models d) in
     rotate_model p st (Some (ModelInfo.name (nth i models d))) s =
     (Return (Some next),
      set_provider s p (ProviderConfig.set_active_model (providers s p) st next))) /\
  (forall cur,
     models <> [] ->
     ~ In cur (map ModelInfo.name models) ->
     let next := ModelInfo.name (nth 0 models d) in
     rotate_model p st (Some cur) s =
     (Return (Some next),
      set_provider s p (ProviderConfig.set_active_model (providers s p) st next))).
Proof.
  intros Hd Hnd. split.
  - intros i Hi Hne next. unfold rotate_model. rewrite Hd.
    destruct models as [|m0 rest]; [simpl in Hi; lia|].
    rewrite (next_model_name_nth m0 rest i d Hnd Hi Hne). reflexivity.
  - intros cur Hne Hnin next. unfold rotate_model. rewrite Hd.
    destruct models as [|m0 rest]; [contradiction|].
    assert (E : next_model_name (m0 :: rest) m0 (Some cur) = ModelInfo.name m0).
    { unfold next_model_name.
      destruct (existsb (String.eqb cur) (map ModelInfo.name (m0 :: rest))) eqn:Ein.
      - apply existsb_eqb_In in Ein. contradiction.
      - now rewrite orb_true_r. }
    rewrite E. reflexivity.
Qed.

(** ** The order of the attempts under quota-style failures *)

Lemma resolve_model_truthy cur s p st :
  Py.truthy cur = true -> resolve_model cur s p st = cur.
Proof. unfold resolve_model. now intros ->. Qed.

Section RankedWalk.
Variable env : Environment.
Variables (p : Provider) (st : ServiceType).
Hypothesis p_supported : supports st p = true.

Lemma attempts_walk m0 rest d mr :
  NoDup (map ModelInfo.name (m0 :: rest)) -> (2 <= length (m0 :: rest))%nat ->
  Forall (fun m => ModelInfo.name m <> EmptyString) (m0 :: rest) ->
  always_quota_style env p st ->
  forall n i cur s,
    (i < length (m0 :: rest))%nat ->
    ProviderConfig.enabled (providers s (api_of st p)) = true ->
    ProviderConfig.discovered_models (providers s p) st = Some (m0 :: rest) ->
    resolve_model cur s p st = Some (ModelInfo.name (nth i (m0 :: rest) d)) ->
    exists s',
      attempts env p st mr n cur s = (Raise (all_attempts_failed_msg p mr), s') /\
      calls s' =
      (calls s ++
       map (fun k => Generate p st
                       (ModelInfo.name (nth ((i + k) mod length (m0 :: rest)) (m0 :: rest) d)))
           (seq 0 n))%list.
Proof.
  set (models := m0 :: rest).
  intros Hnd Hlen Hne Hq. induction n as [|n IH]; intros i cur s Hi Hapi Hd Hm.
  - exists s. simpl. rewrite app_nil_r. split; reflexivity.
  - set (m := ModelInfo.name (nth i models d)) in *.
    assert (Hmne : m <> EmptyString).
    { rewrite Forall_forall in Hne. apply Hne. apply nth_In. exact Hi. }
    destruct (Hq m (length (calls s))) as (msg & Hb & Hqs).
    set (s1 := log_call (after_pick cur s p st m) (Generate p st m)).
    assert (Hd1 : ProviderConfig.discovered_models (providers s1 p) st = Some models).
    { subst s1. simpl. now rewrite after_pick_discovered. }
    pose proof (next_model_name_nth m0 rest i d Hnd Hi Hmne) as Enext.
    cbv zeta in Enext. fold models in Enext. fold m in Enext.
    set (i' := (S i mod length models)%nat) in *.
    assert (Hi' : (i' < length models)%nat) by (apply Nat.mod_upper_bound; lia).
    set (next := ModelInfo.name (nth i' models d)) in *.
    assert (Hii : i' <> i).
    { subst i'. destruct (Nat.eq_dec (S i) (length models)) as [E|E].
      - rewrite E, Nat.Div0.mod_same. lia.
      - rewrite Nat.mod_small by lia. lia. }
    assert (Hfresh : next <> m).
    { intros E. apply Hii. pose proof Hnd as Hnd'.
      rewrite (NoDup_nth _ (ModelInfo.name d)) in Hnd'. rewrite length_map in Hnd'.
      apply Hnd'; [lia|lia|]. rewrite !map_nth. exact E. }
    assert (Hnne : next <> EmptyString).
    { rewrite Forall_forall in Hne. apply Hne. apply nth_In. exact Hi'. }
    assert (Hnext : (Py.truthy (Some next) && negb (String.eqb next m))%bool = true).
    { apply andb_true_intro. split.
      - now apply truthy_Some_iff.
      - destruct (String.eqb_spec next m); [contradiction|reflexivity]. }
    set (s2 := set_provider s1 p (ProviderConfig.set_active_model (providers s1 p) st next)).
    destruct (IH i' (Some next) s2) as (s' & Ea & Ec).
    { exact Hi'. }
    { subst s2 s1. rewrite enabled_set_active. simpl. now rewrite enabled_after_pick. }
    { subst s2. now rewrite providers_set_provider_same. }
    { apply resolve_model_truthy. now apply truthy_Some_iff. }
    exists s'. split.
    + simpl attempts. rewrite (attempt_body_calls env p st cur s m p_supported Hapi Hm), Hb.
      fold s1. rewrite (on_attempt_error_rotates p st m msg s1 m0 rest Hqs Hd1).
      cbv zeta. fold models. rewrite Enext, Hnext. fold s2. exact Ea.
    + rewrite Ec. subst s2 s1. simpl calls. rewrite after_pick_calls, <- app_assoc.
      f_equal. change (seq 0 (S n)) with (0%nat :: seq 1 n).
      cbn [map app]. rewrite <- seq_shift, map_map. f_equal.
      * rewrite Nat.add_0_r, Nat.mod_small by exact Hi. reflexivity.
      * apply map_ext. intros k. do 3 f_equal.
        subst i'. rewrite Nat.Div0.add_mod_idemp_l. f_equal. lia.
Qed.

(** X2.  When every call made for a backend fails with a quota-style
    error, the fallback engine calls the models of the ranked list in
    order, starting from the model it would try first and wrapping around
    at the end of the list, until the budget of attempts is spent: the
    call number [k] goes to the model at position [(i + k) mod n].  The
    backend whose API the calls reach, [api_of], is enabled: for the video
    functions of Google and Kling that is Luma. *)
Theorem quota_failures_walk_the_ranked_list max_retries s m0 rest d i :
  ProviderConfig.enabled (providers s p) = true ->
  ProviderConfig.enabled (providers s (api_of st p)) = true ->
  ProviderConfig.discovered_models (providers s p) st = Some (m0 :: rest) ->
  NoDup (map ModelInfo.name (m0 :: rest)) -> (2 <= length (m0 :: rest))%nat ->
  Forall (fun m => ModelInfo.name m <> EmptyString) (m0 :: rest) ->
  always_quota_style env p st ->
  (i < length (m0 :: rest))%nat ->
  model_to_try s p st = Some (ModelInfo.name (nth i (m0 :: rest) d)) ->
  exists s',
    _execute_with_fallback env p st max_retries s
    = (Raise (all_attempts_failed_msg p max_retries), s') /\
    calls s' =
    (calls s ++
     map (fun k => Generate p st
                     (ModelInfo.name (nth ((i + k) mod length (m0 :: rest)) (m0 :: rest) d)))
         (seq 0 max_retries))%list.
Proof.
  intros He Hapi Hd Hnd Hlen Hne Hq Hi Hm.
  unfold _execute_with_fallback. rewrite He. cbn [negb].
  now apply attempts_walk.
Qed.

End RankedWalk.

(** ** What one attempt does *)

Section AttemptSteps.
Variable env : Environment.
Variables (p : Provider) (st : ServiceType).

Lemma execute_func_step m s r s1 :
  execute_func env st p m s = (r, s1) ->
  (s1 = s /\ exists msg, r = Raise msg) \/
  (s1 = log_call s (Generate p st m) /\
   r = backend env (api_of st p) st m (length (calls s))).
Proof.
  destruct (execute_func_cases env st p m s) as [(_ & ->)|(_ & msg & -> & _)];
    intros [= <- <-]; eauto.
Qed.

Lemma attempt_body_step cur s r cur' s1 :
  active_is p st cur s ->
  attempt_body env p st cur s = ((r, cur'), s1) ->
  (calls s1 = calls s /\ exists msg, r = Raise msg) \/
  (exists m, calls s1 = (calls s ++ [Generate p st m])%list /\
             r = backend env (api_of st p) st m (length (calls s)) /\
             ProviderConfig.active_models (providers s1 p) st = Some m).
Proof.
  intros Ha. unfold active_is in Ha. unfold attempt_body.
  destruct (Py.truthy cur) eqn:Et; cbn [negb].
  - destruct (execute_func env st p _ s) as [r0 s0] eqn:E. intros [= <- <- <-].
    destruct cur as [m|]; [|discriminate].
    apply execute_func_step in E as [(-> & msg & ->)|(-> & ->)].
    + left. eauto.
    + right. exists m. repeat split. simpl. now apply Ha.
  - destruct (ProviderConfig.discovered_models (providers s p) st) as [[|m0 ms]|];
      try (intros [= <- <- <-]; left; eauto).
    destruct (execute_func env st p _ _) as [r0 s0] eqn:E. intros [= <- <- <-].
    apply execute_func_step in E as [(-> & msg & ->)|(-> & ->)].
    + left. split; [reflexivity|eauto].
    + right. exists (ModelInfo.name m0). repeat split.
      simpl. rewrite Provider_eqb_refl. simpl. unfold sd_set.
      now rewrite ServiceType_eqb_refl.
Qed.

Lemma on_attempt_error_step cur msg s c s2 :
  on_attempt_error p st cur msg s = (c, s2) ->
  calls s2 = calls s /\
  forall next, c = Continue next -> active_is p st next s2.
Proof.
  unfold on_attempt_error, rotate_model.
  destruct (_ || _)%bool.
  2:{ intros [= <- <-]. split; [reflexivity|discriminate]. }
  destruct (ProviderConfig.discovered_models (providers s p) st) as [[|m0 ms]|].
  1,3: cbn [Py.truthy andb]; intros [= <- <-]; split; [reflexivity|discriminate].
  match goal with |- context [if ?b then _ else _] => destruct b end;
    intros [= <- <-]; (split; [reflexivity|]); [|discriminate].
  intros next [= <-] _. simpl. rewrite Provider_eqb_refl. simpl. unfold sd_set.
  now rewrite ServiceType_eqb_refl.
Qed.

(** The attempts make [n] calls at most, all to [p] for [st]. *)
Lemma attempts_bound mr : forall n cur s r s',
  active_is p st cur s ->
  attempts env p st mr n cur s = (r, s') ->
  exists made,
    calls s' = (calls s ++ made)%list /\ (length made <= n)%nat /\
    Forall (is_generate_of p st) made.
Proof.
  induction n as [|n IH]; intros cur s r s' Ha; simpl attempts.
  - intros [= <- <-]. exists []. rewrite app_nil_r. repeat split; auto.
  - destruct (attempt_body env p st cur s) as [[r0 cur1] s1] eqn:Eb.
    apply attempt_body_step in Eb; [|exact Ha].
    assert (Hc1 : exists l, calls s1 = (calls s ++ l)%list /\ (length l <= 1)%nat /\
                            Forall (is_generate_of p st) l).
    { destruct Eb as [(Ec & _)|(m & Ec & _)].
      - exists []. rewrite app_nil_r. repeat split; auto.
      - exists [Generate p st m]. repeat split; auto. constructor; [now exists m|auto]. }
    destruct Hc1 as (l & El & Hl & Fl).
    destruct r0 as [result|error_msg].
    + intros [= <- <-]. exists l. repeat split; auto. lia.
    + destruct (on_attempt_error p st cur1 error_msg s1) as [[next|] s2] eqn:Eo;
        apply on_attempt_error_step in Eo as (Ec2 & Hnext).
      * intros E. apply IH in E as (made & Em & Hm & Fm); [|now apply Hnext].
        exists (l ++ made)%list. rewrite Em, Ec2, El, app_assoc, length_app.
        split; [reflexivity|]. split; [lia|]. apply Forall_app. auto.
      * intros [= <- <-]. exists l. rewrite Ec2. repeat split; auto. lia.
Qed.

(** A result is the answer of the last call, made to the model that is
    active when the attempts end. *)
Lemma attempts_result mr : forall n cur s result s',
  active_is p st cur s ->
  attempts env p st mr n cur s = (Return result, s') ->
  exists before m,
    calls s' = (calls s ++ before ++ [Generate p st m])%list /\
    (length before < n)%nat /\
    Forall (is_generate_of p st) before /\
    backend env (api_of st p) st m (length (calls s ++ before)) = Return result /\
    ProviderConfig.active_models (providers s' p) st = Some m.
Proof.
  induction n as [|n IH]; intros cur s result s' Ha; simpl attempts; [discriminate|].
  destruct (attempt_body env p st cur s) as [[r0 cur1] s1] eqn:Eb.
  apply attempt_body_step in Eb; [|exact Ha].
  destruct r0 as [result0|error_msg].
  - intros [= <- <-]. destruct Eb as [(_ & msg & ?)|(m & Ec & Er & Hact)]; [discriminate|].
    exists [], m. rewrite app_nil_r. repeat split; auto. simpl. lia.
  - destruct (on_attempt_error p st cur1 error_msg s1) as [[next|] s2] eqn:Eo;
      [|discriminate].
    apply on_attempt_error_step in Eo as (Ec2 & Hnext).
    intros E. apply IH in E as (before & m & Em & Hm & Fm & Hb & Hact); [|now apply Hnext].
    rewrite Ec2 in Em, Hb.
    destruct Eb as [(Ec & _)|(m1 & Ec & _)]; rewrite Ec in Em, Hb.
    + exists before, m. repeat split; auto.
    + exists (Generate p st m1 :: before), m. rewrite <- app_assoc in Em, Hb.
      split; [exact Em|]. split; [simpl; lia|]. split; [|split; [exact Hb|exact Hact]].
      constructor; [now exists m1|exact Fm].
Qed.

Lemma get_active_model_active_is s :
  active_is p st (get_active_model p st s) s.
Proof.
  unfold active_is, get_active_model.
  destruct (ProviderConfig.enabled (providers s p)); [auto|discriminate].
Qed.

(** The calls of the engine are within its budget. *)
Lemma _execute_with_fallback_calls max_retries s r s' :
  _execute_with_fallback env p st max_retries s = (r, s') ->
  (length (calls s') <= length (calls s) + max_retries)%nat.
Proof.
  unfold _execute_with_fallback.
  destruct (negb _); [intros [= <- <-]; lia|].
  intros E. apply attempts_bound in E as (made & Em & Hm & _);
    [|apply get_active_model_active_is].
  rewrite Em, length_app. lia.
Qed.


(** X4.  When the fallback engine returns a result, the result is what
    the API the function of the backend calls, [api_of], answered to the
    last call of the engine, and the model of that call is the active
    model of the backend afterwards: the next request starts with the
    model that has just answered. *)
Theorem fallback_result_is_the_last_answer max_retries s result s' :
  _execute_with_fallback env p st max_retries s = (Return result, s') ->
  exists before m,
    calls s' = (calls s ++ before ++ [Generate p st m])%list /\
    (length before < max_retries)%nat /\
    backend env (api_of st p) st m (length (calls s ++ before)) = Return result /\
    ProviderConfig.active_models (providers s' p) st = Some m /\
    get_active_model p st s' = Some m.
Proof.
  unfold _execute_with_fallback.
  destruct (ProviderConfig.enabled (providers s p)) eqn:He; cbn [negb]; [|discriminate].
  intros E. pose proof E as E'.
  apply attempts_result in E as (before & m & Em & Hm & _ & Hb & Hact);
    [|apply get_active_model_active_is].
  exists before, m. repeat split; auto.
  apply attempts_footprint in E'. destruct E' as [_ _ _ _ _ _ (_ & _ & Hen & _) _ _].
  unfold get_active_model. rewrite Hen, He. exact Hact.
Qed.

End AttemptSteps.

(** ** What a request does to the counters and to the call log *)

Section LoopSteps.
Variable env : Environment.

Lemma update_user_usage_returns today u svc s :
  exists b s', update_user_usage env today u svc s = (Return b, s').
Proof. apply try_except_ret_returns. Qed.

(** The steps of [try_provider]. *)
Lemma try_provider_steps st svc mr today u pc s r s' :
  try_provider env st svc mr today u pc s = (r, s') ->
  exists r1 s1,
    _execute_with_fallback env (ProviderConfig.name (providers s pc)) st mr s = (r1, s1) /\
    ((exists msg, r1 = Raise msg /\ r = Raise msg /\ s' = s1) \/
     (r1 = Return EmptyString /\ r = Return None /\ s' = s1) \/
     (exists resp b s2 r4,
        r1 = Return resp /\ resp <> EmptyString /\
        update_user_usage env today u svc s1 = (Return b, s2) /\
        db_save env (set_provider s2 pc (ProviderConfig.incr_usage (providers s2 pc)))
        = (r4, s') /\
        ((r4 = Return tt /\ r = Return (Some (Success resp))) \/
         exists msg, r4 = Raise msg /\ r = Raise msg))).
Proof.
  unfold try_provider, bind at 1, get.
  destruct (_execute_with_fallback env _ st mr s) as [r1 s1] eqn:E1.
  unfold bind at 1. rewrite E1. intros E. exists r1, s1. split; [reflexivity|].
  destruct r1 as [resp|msg].
  2:{ left. inversion E; subst. eauto. }
  destruct resp as [|c resp].
  { right; left. inversion E; subst. auto. }
  right; right. cbn [Py.truthy] in E.
  destruct (update_user_usage_returns today u svc s1) as (b & s2 & E2).
  unfold bind at 1 in E. rewrite E2 in E.
  unfold bind at 1, modify in E.
  destruct (db_save env (set_provider s2 pc (ProviderConfig.incr_usage (providers s2 pc))))
    as [r4 s4] eqn:E4.
  unfold bind at 1 in E. rewrite E4 in E.
  exists (String c resp), b, s2, r4. split; [reflexivity|]. split; [discriminate|].
  split; [exact E2|].
  destruct r4 as [[]|msg]; inversion E; subst; split; eauto.
Qed.

Lemma try_provider_counts st svc mr today u pc s r s' :
  registry_ok s ->
  try_provider env st svc mr today u pc s = (r, s') ->
  (length (calls s') <= length (calls s) + mr)%nat /\
  ProviderConfig.errors_today (providers s' pc) = ProviderConfig.errors_today (providers s pc) /\
  (ProviderConfig.usage_today (providers s' pc) = ProviderConfig.usage_today (providers s pc) \/
   ProviderConfig.usage_today (providers s' pc)
   = ProviderConfig.usage_today (providers s pc) + 1).
Proof.
  intros Hr E. apply try_provider_steps in E as (r1 & s1 & E1 & E). rewrite Hr in E1.
  pose proof (_execute_with_fallback_calls env pc st mr s _ _ E1) as Hb.
  apply _execute_with_fallback_footprint in E1.
  destruct E1 as [_ _ _ _ _ _ (_ & _ & _ & _ & Hu & He & _) _ _].
  destruct E as [(msg & _ & _ & ->)|[(_ & _ & ->)|(resp & b & s2 & r4 & _ & _ & E2 & E4 & _)]];
    [auto|auto|].
  apply update_user_usage_footprint in E2. destruct E2 as [Hp2 Hc2 _ _].
  apply db_save_footprint in E4. destruct E4 as [Hp4 Hc4 _ _].
  rewrite Hp4, Hc4. simpl. rewrite Provider_eqb_refl. simpl. rewrite Hp2, Hc2.
  split; [exact Hb|]. split; [exact He|]. right. now rewrite Hu.
Qed.

Lemma provider_loop_counts st svc mr today u ps : forall errors s r s',
  registry_ok s -> NoDup ps ->
  provider_loop env st svc mr today u ps errors s = (r, s') ->
  (length (calls s') <= length (calls s) + mr * length ps)%nat /\
  forall q,
    ProviderConfig.usage_today (providers s' q) = ProviderConfig.usage_today (providers s q) \/
    (In q ps /\
     ProviderConfig.usage_today (providers s' q)
     = ProviderConfig.usage_today (providers s q) + 1).
Proof.
  induction ps as [|pc rest IH]; simpl provider_loop; intros errors s r s' Hr Hnd E.
  - inversion E; subst. split; [simpl; lia|auto].
  - inversion Hnd as [|? ? Hnin Hnd']; subst.
    destruct (try_provider env st svc mr today u pc s) as [r1 s1] eqn:E1.
    pose proof (try_provider_counts _ _ _ _ _ _ _ _ _ Hr E1) as (Hc1 & _ & Hu1).
    apply try_provider_footprint in E1; [|exact Hr].
    pose proof (loop_footprint_registry _ _ _ _ E1 Hr) as Hr1.
    destruct E1 as [_ _ _ Ho1 _].
    assert (Hstep : forall q,
      ProviderConfig.usage_today (providers s1 q) = ProviderConfig.usage_today (providers s q) \/
      (q = pc /\ ProviderConfig.usage_today (providers s1 q)
                 = ProviderConfig.usage_today (providers s q) + 1)).
    { intros q. destruct (Provider_eqb_spec q pc) as [->|Hne].
      - destruct Hu1; auto.
      - left. rewrite Ho1; [reflexivity|]. intros [->|[]]. contradiction. }
    assert (Hrest : forall s2 r2 s3,
      registry_ok s2 -> calls s2 = calls s1 ->
      (forall q, ProviderConfig.usage_today (providers s2 q)
                 = ProviderConfig.usage_today (providers s1 q)) ->
      provider_loop env st svc mr today u rest r2 s2 = (r, s3) ->
      (length (calls s3) <= length (calls s) + mr * length (pc :: rest))%nat /\
      forall q,
        ProviderConfig.usage_today (providers s3 q)
        = ProviderConfig.usage_today (providers s q) \/
        (In q (pc :: rest) /\
         ProviderConfig.usage_today (providers s3 q)
         = ProviderConfig.usage_today (providers s q) + 1)).
    { intros s2 r2 s3 Hr2 Hc2 Hu2 E2. apply IH in E2 as (Hc3 & Hu3); auto.
      split; [rewrite Hc2 in Hc3; simpl; lia|].
      intros q. destruct (Hu3 q) as [H3|(Hin & H3)]; rewrite H3, Hu2.
      - destruct (Hstep q) as [H1|(-> & H1)]; rewrite H1; [now left|].
        right. split; [now left|reflexivity].
      - destruct (Hstep q) as [H1|(-> & H1)]; [|contradiction].
        rewrite H1. right. split; [now right|reflexivity]. }
    destruct r1 as [[o|]|msg].
    + inversion E; subst. split; [simpl; lia|].
      intros q. destruct (Hstep q) as [H1|(-> & H1)]; [now left|].
      right. split; [now left|exact H1].
    + eapply Hrest; eauto.
    + eapply Hrest; [| | |exact E].
      * intros q. simpl. destruct (Provider_eqb_spec pc q) as [<-|]; [|apply Hr1].
        simpl. apply Hr1.
      * reflexivity.
      * intros q. simpl. destruct (Provider_eqb_spec pc q) as [<-|]; reflexivity.
Qed.

End LoopSteps.

Lemma available_length st s :
  registry_ok s ->
  (length (get_available_providers st s) <= length (filter (supports st) all_providers))%nat.
Proof.
  intros Hr. apply NoDup_incl_length; [apply get_available_providers_NoDup|].
  intros q Hq. apply get_available_providers_In, is_available_iff in Hq as (_ & Hs & _).
  rewrite Hr in Hs. apply filter_In. split; [apply all_providers_complete|exact Hs].
Qed.

(** Discovery leaves the limits and the counters as they are. *)
Lemma ensure_discovery_counters env s r s' :
  ensure_discovery env s = (r, s') ->
  forall q, counters_of (providers s' q) = counters_of (providers s q).
Proof.
  apply (preserves_ensure_discovery env
           (fun s1 => forall q, counters_of (providers s1 q) = counters_of (providers s q))).
  - intros s0 H q. rewrite <- H. unfold google_step, _setup_and_discover_google.
    destruct (negb _); [reflexivity|].
    destruct (genai_configure env); simpl snd;
      (destruct (Provider_eqb_spec q GOOGLE) as [->|Hne];
       [rewrite providers_set_provider_same
       |rewrite providers_set_provider_other by exact Hne; reflexivity]).
    + reflexivity.
    + unfold google_configured.
      destruct (google_discovered env CHAT) as [[|? ?]|]; reflexivity.
  - intros s0 H q. rewrite <- H. unfold openai_step, _setup_and_discover_openai.
    destruct (negb _); [reflexivity|].
    destruct (openai_client env); simpl snd;
      (destruct (Provider_eqb_spec q OPENAI) as [->|Hne];
       [rewrite providers_set_provider_same; reflexivity
       |rewrite providers_set_provider_other by exact Hne; reflexivity]).
  - intros s0 H. unfold other_step.
    assert (Hb : forall b s1,
              (forall q, counters_of (providers s1 q) = counters_of (providers s q)) ->
              forall q, counters_of (providers (setup_bearer_api b s1) q)
                        = counters_of (providers s q)).
    { intros b s1 H1 q. rewrite <- H1.
      destruct (setup_bearer_api_cases b s1) as [->|(? & _ & _ & _ & ->)]; [reflexivity|].
      destruct (Provider_eqb_spec q b) as [->|Hne];
        [rewrite providers_set_provider_same; reflexivity
        |rewrite providers_set_provider_other by exact Hne; reflexivity]. }
    now repeat apply Hb.
  - intros s0 H q. rewrite <- H. rewrite select_step_providers.
    destruct (select_best_config_fields (providers s0 q))
      as (_ & _ & _ & Hl & Hu & He & _).
    unfold counters_of. now rewrite Hl, Hu, He.
  - intros s0 H. exact H.
  - reflexivity.
Qed.

(** What a request does to the call log and to the usage counters. *)
Lemma serve_counts env st svc mr enh today u s r s' :
  registry_ok s ->
  serve env st svc mr enh today u s = (r, s') ->
  (length (calls s')
   <= length (calls s) + (if enh then 1 else 0)
      + mr * length (filter (supports st) all_providers))%nat /\
  forall q,
    ProviderConfig.usage_today (providers s' q) = ProviderConfig.usage_today (providers s q) \/
    (ProviderConfig.usage_today (providers s q) < ProviderConfig.daily_limit (providers s q) /\
     ProviderConfig.usage_today (providers s' q)
     = ProviderConfig.usage_today (providers s q) + 1).
Proof.
  intros Hr E.
  apply serve_cases in E as (allowed & remaining & s1 & Ec & E).
  apply check_user_limit_footprint in Ec. destruct Ec as [Ep Ecalls _ _].
  destruct E as [(_ & _ & ->)|[(_ & _ & _ & ->)|(_ & _ & s2 & Hs2 & E)]].
  - rewrite Ep, Ecalls. split; [lia|auto].
  - rewrite Ep, Ecalls. split; [lia|auto].
  - assert (Hp2 : providers s2 = providers s).
    { destruct Hs2 as [->|(m & _ & ->)]; exact Ep. }
    assert (Hc2 : (length (calls s2) <= length (calls s) + (if enh then 1 else 0))%nat).
    { destruct Hs2 as [->|(m & -> & ->)]; [rewrite Ecalls; lia|].
      simpl. rewrite length_app, Ecalls. simpl. lia. }
    assert (Hr2 : registry_ok s2) by (intros p; rewrite Hp2; apply Hr).
    apply provider_loop_counts in E as (Hc & Hu);
      [|exact Hr2|apply get_available_providers_NoDup].
    split.
    + pose proof (available_length st s1) as Hl.
      assert (Hr1 : registry_ok s1) by (intros p; rewrite Ep; apply Hr).
      specialize (Hl Hr1).
      assert (mr * length (get_available_providers st s1)
              <= mr * length (filter (supports st) all_providers))%nat
        by (apply Nat.mul_le_mono_l; exact Hl).
      lia.
    + intros q. destruct (Hu q) as [H|(Hin & H)]; rewrite Hp2 in H; [now left|].
      right. split; [|exact H].
      apply get_available_providers_In, is_available_iff in Hin as (_ & _ & Hlt).
      now rewrite Ep in Hlt.
Qed.

Lemma serve_daily_limit env st svc mr enh today u s r s' :
  registry_ok s ->
  serve env st svc mr enh today u s = (r, s') ->
  forall q, ProviderConfig.daily_limit (providers s' q)
            = ProviderConfig.daily_limit (providers s q).
Proof.
  intros Hr E q. apply serve_footprint in E as (_ & Hset & _); [|exact Hr].
  now destruct (Hset q) as (_ & _ & _ & ? & _).
Qed.

Lemma entry_point_counts env st today u text s r s' :
  registry_ok s ->
  entry_point env st today u text s = (r, s') ->
  (length (calls s') <= length (calls s) + request_budget st)%nat /\
  forall q,
    ProviderConfig.daily_limit (providers s' q) = ProviderConfig.daily_limit (providers s q) /\
    (ProviderConfig.usage_today (providers s' q) = ProviderConfig.usage_today (providers s q) \/
     (ProviderConfig.usage_today (providers s q) < ProviderConfig.daily_limit (providers s q) /\
      ProviderConfig.usage_today (providers s' q)
      = ProviderConfig.usage_today (providers s q) + 1)).
Proof.
  intros Hr E. rewrite entry_point_eq in E.
  apply handle_request_discovers in E as (sd & Ed & E).
  pose proof (ensure_discovery_registry env s _ sd Hr Ed) as Hrd.
  pose proof (ensure_discovery_counters env s _ sd Ed) as Hcd.
  pose proof (ensure_discovery_same_store env s _ sd Ed) as (_ & _ & _ & _ & Hcalls).
  assert (Hq : forall q,
            ProviderConfig.daily_limit (providers sd q)
            = ProviderConfig.daily_limit (providers s q) /\
            ProviderConfig.usage_today (providers sd q)
            = ProviderConfig.usage_today (providers s q)).
  { intros q. specialize (Hcd q). unfold counters_of in Hcd. now inversion Hcd. }
  destruct E as [(-> & _)|(_ & _ & r0 & E)].
  - rewrite Hcalls. split; [lia|]. intros q. destruct (Hq q) as (-> & ->). auto.
  - pose proof (serve_daily_limit _ _ _ _ _ _ _ _ _ _ Hrd E) as Hl.
    apply serve_counts in E as (Hc & Hu); [|exact Hrd].
    split.
    + rewrite Hcalls in Hc. unfold request_budget. lia.
    + intros q. destruct (Hq q) as (El & Eu). rewrite Hl, El. split; [reflexivity|].
      destruct (Hu q) as [H|(Hlt & H)]; rewrite H, Eu; [now left|].
      right. split; [|reflexivity]. now rewrite <- Eu, <- El.
Qed.

(** ** The daily reset *)

Lemma fold_cache_remove_providers keys : forall s,
  providers (fold_left (fun s key => set_cache s (cache_remove key (user_limits_cache s)))
                       keys s) = providers s.
Proof. induction keys as [|k keys IH]; intros s; simpl; [reflexivity|]. now rewrite IH. Qed.

Lemma reset_daily_counts_providers today s q :
  providers (snd (reset_daily_counts today s)) q = reset_counters (providers s q).
Proof.
  unfold reset_daily_counts, modify. cbn [snd]. cbv zeta.
  unfold set_providers. cbn [providers]. now rewrite fold_cache_remove_providers.
Qed.

Lemma reset_cache_command_providers ADMIN_IDS today user_id s q :
  providers (snd (Bot.reset_cache_command ADMIN_IDS today user_id s)) q = providers s q \/
  providers (snd (Bot.reset_cache_command ADMIN_IDS today user_id s)) q
  = reset_counters (providers s q).
Proof.
  unfold Bot.reset_cache_command.
  destruct (Bot.is_admin ADMIN_IDS user_id); cbn [negb]; [|now left].
  right. unfold try_except, bind, modify, ret.
  pose proof (reset_daily_counts_providers today s q) as H.
  unfold reset_daily_counts, modify in *. cbn [snd] in *. exact H.
Qed.

Lemma run_event_registry env ADMIN_IDS e s :
  registry_ok s -> keys_respected env s ->
  registry_ok (run_event env ADMIN_IDS s e) /\ keys_respected env (run_event env ADMIN_IDS s e).
Proof.
  intros Hr Hk. destruct e as [[[[st today] u] text]|today user_id]; simpl.
  - destruct (entry_point env st today u text s) as [r s'] eqn:E.
    apply entry_point_keeps_registry in E; auto.
  - split; intros q;
      destruct (reset_cache_command_providers ADMIN_IDS today user_id s q) as [->| ->];
      try apply Hr; try apply Hk.
Qed.

Lemma run_events_registry env ADMIN_IDS es : forall s,
  registry_ok s -> keys_respected env s ->
  registry_ok (run_events env ADMIN_IDS es s) /\
  keys_respected env (run_events env ADMIN_IDS es s).
Proof.
  induction es as [|e es IH]; intros s Hr Hk; simpl; [auto|].
  destruct (run_event_registry env ADMIN_IDS e s Hr Hk). now apply IH.
Qed.

Lemma reached_registry_ok env ADMIN_IDS rows es :
  registry_ok (run_events env ADMIN_IDS es (init env rows)).
Proof.
  apply run_events_registry; [apply init_registry_ok|apply init_keys_respected].
Qed.

Lemma validate_api_key_counters c :
  counters_of (validate_api_key c) = counters_of c.
Proof.
  unfold validate_api_key.
  destruct (ProviderConfig.api_key c) as [key|]; [|reflexivity].
  destruct (_ || _)%bool; [reflexivity|].
  destruct (_ <? _); reflexivity.
Qed.

(** X5.  A request makes a bounded number of calls: in any state the
    manager reaches from its creation by requests and resets, a chat
    request makes 32 calls at most (16 for each of Google and OpenAI), an
    image or a video request 19 (one to enhance the prompt and 6 for each
    of the three backends of the capability). *)
Theorem request_makes_a_bounded_number_of_calls env ADMIN_IDS rows es st today user_id text :
  let s := run_events env ADMIN_IDS es (init env rows) in
  let s' := snd (entry_point env st today user_id text s) in
  (length (calls s') <= length (calls s) + request_budget st)%nat /\
  request_budget CHAT = 32%nat /\ request_budget IMAGE = 19%nat /\
  request_budget VIDEO = 19%nat.
Proof.
  intros s s'. split; [|repeat split].
  subst s'. destruct (entry_point env st today user_id text s) as [r s1] eqn:E.
  apply entry_point_counts in E as (H & _); [exact H|apply reached_registry_ok].
Qed.

(** X6.  The usage counter of a backend never passes its daily limit: in
    any state the manager reaches from its creation by requests and
    resets, [0 <= usage_today] and [usage_today <= daily_limit] for every
    backend whose limit is not negative, so that the remaining limit the
    statistics report is not negative either. *)
Theorem backend_usage_stays_within_daily_limit env ADMIN_IDS rows es p :
  let s := run_events env ADMIN_IDS es (init env rows) in
  let config := providers s p in
  ProviderConfig.daily_limit config = getenv_int_default env (daily_limit_var p) /\
  0 <= ProviderConfig.usage_today config /\
  ProviderConfig.usage_today config <= Z.max 0 (ProviderConfig.daily_limit config) /\
  (ProviderConfig.enabled config = true -> 0 <= ProviderConfig.daily_limit config ->
   forall active_sessions timestamp,
     exists entry,
       In (Provider_value p, entry)
          (SystemStats.providers (get_system_stats active_sessions timestamp s)) /\
       0 <= ProviderStats.remaining_limit entry).
Proof.
  intros s config. subst config.
  assert (H : forall q,
    ProviderConfig.daily_limit (providers s q) = getenv_int_default env (daily_limit_var q) /\
    0 <= ProviderConfig.usage_today (providers s q) /\
    ProviderConfig.usage_today (providers s q)
    <= Z.max 0 (ProviderConfig.daily_limit (providers s q))).
  { subst s. clear p.
    assert (Hgen : forall s0,
      registry_ok s0 -> keys_respected env s0 ->
      (forall q,
         ProviderConfig.daily_limit (providers s0 q)
         = getenv_int_default env (daily_limit_var q) /\
         0 <= ProviderConfig.usage_today (providers s0 q) /\
         ProviderConfig.usage_today (providers s0 q)
         <= Z.max 0 (ProviderConfig.daily_limit (providers s0 q))) ->
      forall q,
        ProviderConfig.daily_limit (providers (run_events env ADMIN_IDS es s0) q)
        = getenv_int_default env (daily_limit_var q) /\
        0 <= ProviderConfig.usage_today (providers (run_events env ADMIN_IDS es s0) q) /\
        ProviderConfig.usage_today (providers (run_events env ADMIN_IDS es s0) q)
        <= Z.max 0 (ProviderConfig.daily_limit (providers (run_events env ADMIN_IDS es s0) q))).
    { induction es as [|e es IH]; intros s0 Hr Hk H0; [exact H0|].
      simpl. destruct (run_event_registry env ADMIN_IDS e s0 Hr Hk) as (Hr1 & Hk1).
      apply IH; [exact Hr1|exact Hk1|].
      intros q. destruct (H0 q) as (Hl & Hu0 & Hu).
      destruct e as [[[[st today] u] text]|today user_id]; simpl.
      - destruct (entry_point env st today u text s0) as [r s1] eqn:E.
        apply entry_point_counts in E as (_ & Hq); [|exact Hr].
        destruct (Hq q) as (El & [Eu|(Hlt & Eu)]); simpl; rewrite El, Eu; lia.
      - destruct (reset_cache_command_providers ADMIN_IDS today user_id s0 q) as [->| ->];
          simpl; lia. }
    apply Hgen; [apply init_registry_ok|apply init_keys_respected|].
    intros q. simpl. unfold _init_providers.
    pose proof (validate_api_key_counters
                  (ProviderConfig.make q (getenv env (api_key_var q))
                     (getenv_int_default env (daily_limit_var q)))) as Hc.
    unfold counters_of in Hc. injection Hc as -> -> _. simpl. lia. }
  destruct (H p) as (Hl & Hu0 & Hu). repeat split; auto.
  intros He Hpos active_sessions timestamp.
  exists (provider_stats (providers s p)). split.
  - unfold get_system_stats. cbn [SystemStats.providers].
    apply in_map_iff. exists p. split; [reflexivity|].
    apply filter_In. split; [apply all_providers_complete|exact He].
  - simpl. lia.
Qed.

(** ** Requests that are turned away, and requests that are served *)

(** X7.  A request with a user id that is not positive, or with a text
    that is empty or too short once stripped, is answered with the
    matching message; the user id is looked at first.  Nothing else
    happens: no backend is called, the store is not accessed, the cache
    and the quota of the user are as before, and once discovery has run
    the manager is left exactly as it was. *)
Theorem invalid_request_changes_nothing env st today user_id text s :
  user_id <= 0 \/ too_short text (min_length_of st) = true ->
  exists o s',
    entry_point env st today user_id text s = (Return o, s') /\
    o = (if user_id <=? 0 then InvalidUser else InvalidInput) /\
    calls s' = calls s /\ db_ops s' = db_ops s /\
    user_limits_cache s' = user_limits_cache s /\ ai_usage s' = ai_usage s /\
    (discovery_completed s = true -> s' = s).
Proof.
  intros H. rewrite entry_point_eq.
  destruct (ensure_discovery_completes env s) as (sd & Ed & _).
  pose proof (ensure_discovery_same_store env s _ sd Ed) as (Hc & _ & Hu & Ho & Hcalls).
  assert (Hsame : discovery_completed s = true -> sd = s).
  { intros Hd. unfold ensure_discovery in Ed. rewrite Hd in Ed. now injection Ed. }
  unfold handle_request, try_except, bind at 1. rewrite Ed.
  destruct (Z.leb_spec user_id 0) as [Hle|Hgt].
  - exists InvalidUser, sd. repeat split; auto.
  - destruct H as [H|H]; [lia|]. rewrite H.
    exists InvalidInput, sd. repeat split; auto.
Qed.

Lemma after_pick_store cur s p st m :
  user_limits_cache (after_pick cur s p st m) = user_limits_cache s /\
  max_cache_size (after_pick cur s p st m) = max_cache_size s /\
  ai_usage (after_pick cur s p st m) = ai_usage s /\
  db_ops (after_pick cur s p st m) = db_ops s /\
  discovery_completed (after_pick cur s p st m) = discovery_completed s.
Proof. unfold after_pick. destruct (Py.truthy cur); repeat split. Qed.

Section Served.
Variable env : Environment.
Hypothesis store_answers : forall n, db_fault env n = None.

(** The first call is answered. *)
Lemma _execute_with_fallback_answered p st n s m reply :
  ProviderConfig.enabled (providers s p) = true ->
  supports st p = true ->
  ProviderConfig.enabled (providers s (api_of st p)) = true ->
  model_to_try s p st = Some m ->
  backend env (api_of st p) st m (length (calls s)) = Return reply ->
  _execute_with_fallback env p st (S n) s =
  (Return reply, log_call (after_pick (get_active_model p st s) s p st m) (Generate p st m)).
Proof.
  intros He Hs Ha Hm Hb. unfold _execute_with_fallback. rewrite He. simpl negb. cbv iota.
  simpl attempts. now rewrite (attempt_body_calls env p st _ s m Hs Ha Hm), Hb.
Qed.

Lemma db_save_answers s : db_save env s = (Return tt, tick_db s).
Proof. unfold db_save, with_connection. now rewrite store_answers. Qed.

Lemma try_provider_answered st svc n today u p s m reply :
  let k : UsageKey := (u, today, svc) in
  registry_ok s -> quota_inv s ->
  cache_get k (user_limits_cache s) <> None ->
  ProviderConfig.enabled (providers s p) = true ->
  supports st p = true ->
  ProviderConfig.enabled (providers s (api_of st p)) = true ->
  model_to_try s p st = Some m ->
  backend env (api_of st p) st m (length (calls s)) = Return reply ->
  reply <> EmptyString ->
  exists s',
    try_provider env st svc (S n) today u p s = (Return (Some (Success reply)), s') /\
    stored s' k = stored s k + 1 /\
    cache_get k (user_limits_cache s') = Some (stored s k + 1) /\
    quota_inv s' /\
    ProviderConfig.usage_today (providers s' p)
    = ProviderConfig.usage_today (providers s p) + 1 /\
    ProviderConfig.errors_today (providers s' p) = ProviderConfig.errors_today (providers s p) /\
    (forall q, q <> p -> providers s' q = providers s q) /\
    ProviderConfig.active_models (providers s' p) st = Some m /\
    calls s' = (calls s ++ [Generate p st m])%list.
Proof.
  intros k Hr Hinv Hin He Hs Ha Hm Hb Hne. subst k.
  set (k := (u, today, svc)) in *.
  set (s1 := log_call (after_pick (get_active_model p st s) s p st m) (Generate p st m)).
  destruct (after_pick_store (get_active_model p st s) s p st m)
    as (Hc1 & Hz1 & Hu1 & Ho1 & _).
  assert (Hinv1 : quota_inv s1).
  { destruct Hinv as [Hok Hsize]. constructor; simpl; [now rewrite Hc1, Hu1|now rewrite Hz1]. }
  assert (Hin1 : cache_get k (user_limits_cache s1) <> None) by (simpl; now rewrite Hc1).
  destruct (update_user_usage_spec env today u svc s1 Hinv1 Hin1 (store_answers _))
    as (s2 & E2 & Hinv2 & Hin2 & Hst2 & _).
  fold k in Hin2, Hst2.
  pose proof (update_user_usage_footprint env _ _ _ _ _ _ E2) as [Hp2 Hcalls2 _ _].
  set (s3 := set_provider s2 p (ProviderConfig.incr_usage (providers s2 p))).
  exists (tick_db s3). split.
  - unfold try_provider, bind at 1, get. rewrite Hr.
    unfold bind at 1. rewrite (_execute_with_fallback_answered p st n s m reply He Hs Ha Hm Hb).
    fold s1. apply truthy_Some_iff in Hne. rewrite Hne.
    unfold bind at 1. rewrite E2. unfold bind at 1, modify. fold s3.
    unfold bind at 1. rewrite db_save_answers. reflexivity.
  - assert (Est : stored s1 k = stored s k) by (unfold stored; simpl; now rewrite Hu1).
    assert (Hst3 : stored (tick_db s3) k = stored s k + 1).
    { rewrite <- Est, <- Hst2. reflexivity. }
    split; [exact Hst3|]. split.
    { assert (Eg : cache_get k (user_limits_cache s2) = Some (stored s k + 1)).
      { destruct (cache_get k (user_limits_cache s2)) as [v|] eqn:Eg; [|congruence].
        destruct Hinv2 as [(_ & Hco) _]. pose proof (Hco _ _ Eg) as Ev.
        fold (stored s2 k) in Ev. rewrite Hst2, Est in Ev. now subst v. }
      exact Eg. }
    split.
    { destruct Hinv2 as [Hok Hsize]. constructor; simpl; assumption. }
    assert (Ep1 : providers s1 p = providers (after_pick (get_active_model p st s) s p st m) p)
      by reflexivity.
    destruct (after_pick_self (get_active_model p st s) s p st m)
      as (_ & _ & _ & _ & Hus & Her & _).
    simpl. rewrite Provider_eqb_refl. simpl. rewrite Hp2, Ep1.
    split; [now rewrite Hus|]. split; [exact Her|]. split.
    { intros q Hq. destruct (Provider_eqb_spec p q); [congruence|].
      simpl. now apply after_pick_others. }
    split.
    { apply after_pick_active; [exact Hm|].
      intros _. unfold get_active_model. now rewrite He. }
    rewrite Hcalls2. simpl. now rewrite after_pick_calls.
Qed.

(** X8.  The usual course of a request.  Discovery has run, the store
    answers, the user is under his daily limit, and the call the first
    available backend makes for the model it tries first is answered
    with a text that is not empty; the call goes to the API of [api_of],
    which is enabled (the backend's own, or Luma's for the video functions
    of Google and Kling).  Then the entry point returns that text after
    one generation call; the count of the user goes up by one in the
    store and in the cache, the usage of that backend goes up by one and
    its errors stay, the other backends are left as they were, and the
    model that answered is the active model of the backend. *)
Theorem answered_request_is_accounted_once st today user_id text s p rest m reply :
  let service_type := usage_service_of st in
  let k : UsageKey := (user_id, today, service_type) in
  discovery_completed s = true -> registry_ok s -> quota_inv s ->
  0 < user_id -> too_short text (min_length_of st) = false ->
  stored s k < user_daily_limit env service_type ->
  get_available_providers st s = p :: rest ->
  ProviderConfig.enabled (providers s (api_of st p)) = true ->
  model_to_try s p st = Some m ->
  (forall t, backend env (api_of st p) st m t = Return reply) -> reply <> EmptyString ->
  exists s',
    entry_point env st today user_id text s = (Return (Success reply), s') /\
    stored s' k = stored s k + 1 /\
    cache_get k (user_limits_cache s') = Some (stored s k + 1) /\
    ProviderConfig.usage_today (providers s' p)
    = ProviderConfig.usage_today (providers s p) + 1 /\
    ProviderConfig.errors_today (providers s' p) = ProviderConfig.errors_today (providers s p) /\
    (forall q, q <> p -> providers s' q = providers s q) /\
    ProviderConfig.active_models (providers s' p) st = Some m /\
    exists enhancement,
      calls s' = (calls s ++ enhancement ++ [Generate p st m])%list /\
      (enhancement = [] \/
       exists model, enhances_prompt st = true /\ enhancement = [Enhance model]).
Proof.
  intros service_type k Hd Hr Hinv Hu Ht Hlt Hav Hapi Hm Hb Hne.
  rewrite entry_point_eq, handle_request_valid by assumption.
  subst k service_type.
  set (service_type := usage_service_of st) in *.
  set (k := (user_id, today, service_type)) in *.
  destruct (check_user_limit_spec env today user_id service_type s Hinv
              (or_intror (store_answers _))) as (s1 & Ec & Hinv1 & Hlast1 & Hus1).
  fold k in Ec, Hlast1.
  pose proof (check_user_limit_footprint env _ _ _ _ _ _ Ec) as [Hp1 Hcalls1 _ _].
  assert (Hq : quota_decision env service_type (stored s k)
               = (true, user_daily_limit env service_type - stored s k)).
  { unfold quota_decision. destruct (Z.leb_spec (user_daily_limit env service_type) (stored s k));
      [lia|reflexivity]. }
  rewrite Hq in Ec.
  assert (Hav1 : get_available_providers st s1 = p :: rest).
  { now rewrite (get_available_providers_ext s s1) by exact Hp1. }
  assert (Hin : In p (get_available_providers st s)) by (rewrite Hav; now left).
  apply get_available_providers_In, is_available_iff in Hin as (He & Hs & _).
  rewrite Hr in Hs.
  (* the enhancement of the prompt *)
  assert (Henh : exists s2 enhancement,
            (if enhances_prompt st then _enhance_prompt else ret tt) s1 = (Return tt, s2) /\
            providers s2 = providers s1 /\
            user_limits_cache s2 = user_limits_cache s1 /\
            max_cache_size s2 = max_cache_size s1 /\
            ai_usage s2 = ai_usage s1 /\
            calls s2 = (calls s1 ++ enhancement)%list /\
            (enhancement = [] \/
             exists model, enhances_prompt st = true /\ enhancement = [Enhance model])).
  { destruct (enhances_prompt st) eqn:Een.
    - destruct (_enhance_prompt_cases s1) as [E|(model & E)]; rewrite E.
      + exists s1, []. rewrite app_nil_r. repeat split; auto.
      + exists (log_call s1 (Enhance model)), [Enhance model]. repeat split; eauto.
    - exists s1, []. rewrite app_nil_r. repeat split; auto. }
  destruct Henh as (s2 & enhancement & Ee & Hp2 & Hc2 & Hz2 & Hu2 & Hcalls2 & Hshape).
  assert (Hinv2 : quota_inv s2).
  { destruct Hinv1 as [Hok Hsize]. constructor; [now rewrite Hc2, Hu2|now rewrite Hz2]. }
  assert (Hm2 : model_to_try s2 p st = Some m).
  { unfold model_to_try, resolve_model, get_active_model in *. now rewrite Hp2, Hp1. }
  assert (Hmr : exists n, max_retries_of st = S n) by (destruct st; simpl; eauto).
  destruct Hmr as (n & Emr).
  destruct (try_provider_answered st service_type n today user_id p s2 m reply)
    as (s' & Et & Hst & Hcache & _ & Husage & Herr & Hoth & Hact & Hcalls); auto.
  { intros q. rewrite Hp2, Hp1. apply Hr. }
  { rewrite Hc2. fold k. rewrite (cached_last_get _ _ _ Hlast1). discriminate. }
  { now rewrite Hp2, Hp1. }
  { now rewrite Hp2, Hp1. }
  exists s'.
  assert (Est : stored s2 k = stored s k).
  { unfold stored. now rewrite Hu2, Hus1. }
  fold k in Hst, Hcache. rewrite Est in Hst, Hcache. rewrite Hp2, Hp1 in Husage, Herr.
  split.
  - unfold serve, bind at 1. rewrite Ec. cbn [negb].
    unfold bind at 1, get. rewrite Hav1.
    unfold bind at 1. rewrite Ee. simpl provider_loop. rewrite Emr, Et. reflexivity.
  - repeat split; auto.
    + intros q Hqp. rewrite (Hoth q Hqp). now rewrite Hp2, Hp1.
    + exists enhancement. split; [|exact Hshape].
      rewrite Hcalls, Hcalls2, Hcalls1, <- app_assoc. reflexivity.
Qed.

End Served.

(** ** Every call goes to a model of the ranked list *)

Lemma next_model_name_In m0 rest cur :
  In (next_model_name (m0 :: rest) m0 cur) (map ModelInfo.name (m0 :: rest)).
Proof.
  unfold next_model_name. destruct cur as [cur|]; [|now left].
  destruct (_ || _)%bool; [now left|].
  destruct (index_of cur (m0 :: rest)) as [i|] eqn:Ei; [|now left].
  destruct (Nat.leb_spec (length (m0 :: rest) - 1) i); [now left|].
  apply in_map, nth_In. lia.
Qed.

(** The same lists, the same active models and the same calls. *)
Lemma catalogue_inv_ext s s' :
  (forall q, ProviderConfig.discovered_models (providers s' q)
             = ProviderConfig.discovered_models (providers s q)) ->
  (forall q, ProviderConfig.active_models (providers s' q)
             = ProviderConfig.active_models (providers s q)) ->
  calls s' = calls s ->
  catalogue_inv s -> catalogue_inv s'.
Proof.
  intros Hd Ha Hc [H1 H2 H3]. constructor; unfold listed, models_of in *.
  - intros p st m. rewrite Ha, Hd. apply H1.
  - intros p st m. rewrite Hc, Hd. apply H2.
  - intros m. rewrite Hc, Hd. apply H3.
Qed.

Lemma catalogue_inv_store s s' : store_footprint s s' -> catalogue_inv s -> catalogue_inv s'.
Proof.
  intros [Hp Hc _ _]. apply catalogue_inv_ext; try (intros q; now rewrite Hp). exact Hc.
Qed.

Lemma catalogue_inv_set_active s p st m :
  catalogue_inv s -> listed s p st m ->
  catalogue_inv (set_provider s p (ProviderConfig.set_active_model (providers s p) st m)).
Proof.
  intros [H1 H2 H3] Hm.
  assert (Hl : forall q st' m',
            listed (set_provider s p (ProviderConfig.set_active_model (providers s p) st m))
                   q st' m' <-> listed s q st' m').
  { intros q st' m'. unfold listed, models_of. simpl.
    destruct (Provider_eqb_spec p q) as [<-|]; reflexivity. }
  constructor.
  - intros q st' m'. rewrite Hl. simpl.
    destruct (Provider_eqb_spec p q) as [<-|]; [|apply H1].
    simpl. unfold sd_set. destruct (ServiceType_eqb_spec st st') as [<-|]; [|apply H1].
    now intros [= <-].
  - intros q st' m'. rewrite Hl. apply H2.
  - intros m'. rewrite Hl. apply H3.
Qed.

Lemma catalogue_inv_log s p st m :
  catalogue_inv s -> supports st p = true -> listed s p st m ->
  catalogue_inv (log_call s (Generate p st m)).
Proof.
  intros [H1 H2 H3] Hs Hm. constructor.
  - exact H1.
  - intros q st' m'. simpl. rewrite in_app_iff. intros [Hin|[[= <- <- <-]|[]]]; [|auto].
    now apply H2.
  - intros m'. simpl. rewrite in_app_iff. intros [Hin|[?|[]]]; [|discriminate].
    now apply H3.
Qed.

Lemma catalogue_inv_enhance s m :
  catalogue_inv s -> listed s GOOGLE CHAT m -> catalogue_inv (log_call s (Enhance m)).
Proof.
  intros [H1 H2 H3] Hm. constructor; [exact H1| |].
  - intros q st' m'. simpl. rewrite in_app_iff. intros [Hin|[?|[]]]; [|discriminate].
    now apply H2.
  - intros m'. simpl. rewrite in_app_iff. intros [Hin|[[= <-]|[]]]; [|exact Hm].
    now apply H3.
Qed.

Lemma _enhance_prompt_catalogue s r s' :
  catalogue_inv s -> _enhance_prompt s = (r, s') -> catalogue_inv s'.
Proof.
  intros Hi. unfold _enhance_prompt.
  destruct (_ && _)%bool; [|now intros [= <- <-]].
  destruct (ProviderConfig.active_models (providers s GOOGLE) CHAT) as [m|] eqn:Ea;
    intros [= <- <-]; [|exact Hi].
  apply catalogue_inv_enhance; [exact Hi|]. destruct Hi as [H1 _ _]. now apply H1.
Qed.

Section CatalogueOfCalls.
Variable env : Environment.

Lemma execute_func_catalogue st p m s r s1 :
  catalogue_inv s -> listed s p st m ->
  execute_func env st p m s = (r, s1) -> catalogue_inv s1.
Proof.
  intros Hi Hm.
  destruct (execute_func_cases env st p m s) as [(Hc & ->)|(_ & msg & -> & _)];
    intros [= <- <-].
  - apply catalogue_inv_log; [exact Hi| |exact Hm].
    unfold makes_call in Hc. now apply andb_prop in Hc as (Hs & _).
  - exact Hi.
Qed.

Lemma attempt_body_catalogue p st cur s r cur1 s1 :
  catalogue_inv s -> current_listed_at s p st cur ->
  attempt_body env p st cur s = ((r, cur1), s1) ->
  catalogue_inv s1 /\
  ProviderConfig.discovered_models (providers s1 p)
  = ProviderConfig.discovered_models (providers s p).
Proof.
  intros Hi Hcur. unfold attempt_body.
  destruct (Py.truthy cur) eqn:Et; cbn [negb].
  - destruct (Hcur Et) as (m & -> & Hm).
    destruct (execute_func env st p m s) as [r0 s0] eqn:E. intros [= <- <- <-].
    split; [eapply execute_func_catalogue; eauto|].
    apply execute_func_footprint in E. now destruct E as [_ _ _ _ _ _ (_ & _ & _ & _ & _ & _ & _ & ?) _ _].
  - destruct (ProviderConfig.discovered_models (providers s p) st) as [[|m0 ms]|] eqn:Ed;
      try (intros [= <- <- <-]; auto).
    destruct (execute_func env st p _ _) as [r0 s0] eqn:E. intros [= <- <- <-].
    assert (Hm : listed s p st (ModelInfo.name m0)).
    { unfold listed, models_of. rewrite Ed. now left. }
    split.
    + eapply execute_func_catalogue; [| |exact E].
      * now apply catalogue_inv_set_active.
      * unfold listed, models_of in *. simpl. now rewrite Provider_eqb_refl.
    + apply execute_func_footprint in E.
      destruct E as [_ _ _ _ _ _ (_ & _ & _ & _ & _ & _ & _ & ->) _ _].
      simpl. now rewrite Provider_eqb_refl.
Qed.

Lemma on_attempt_error_catalogue p st cur msg s c s2 :
  catalogue_inv s ->
  on_attempt_error p st cur msg s = (c, s2) ->
  catalogue_inv s2 /\
  ProviderConfig.discovered_models (providers s2 p)
  = ProviderConfig.discovered_models (providers s p) /\
  forall next, c = Continue next -> current_listed_at s2 p st next.
Proof.
  intros Hi. unfold on_attempt_error, rotate_model.
  destruct (_ || _)%bool.
  2:{ intros [= <- <-]. split; [exact Hi|]. split; [reflexivity|discriminate]. }
  destruct (ProviderConfig.discovered_models (providers s p) st) as [[|m0 ms]|] eqn:Ed.
  1,3: cbn [Py.truthy andb]; intros [= <- <-];
    (split; [exact Hi|]); (split; [reflexivity|discriminate]).
  assert (Hm : listed s p st (next_model_name (m0 :: ms) m0 cur)).
  { unfold listed, models_of. rewrite Ed. apply next_model_name_In. }
  match goal with |- context [if ?b then _ else _] => destruct b end;
    intros [= <- <-];
    (split; [now apply catalogue_inv_set_active|]);
    (split; [simpl; now rewrite Provider_eqb_refl|]); [|discriminate].
  intros next [= <-] _. eexists. split; [reflexivity|].
  unfold listed, models_of in *. simpl. now rewrite Provider_eqb_refl.
Qed.

Lemma current_listed_at_ext s s' p st cur :
  ProviderConfig.discovered_models (providers s' p)
  = ProviderConfig.discovered_models (providers s p) ->
  current_listed_at s p st cur -> current_listed_at s' p st cur.
Proof.
  intros Hd H Ht. destruct (H Ht) as (m & -> & Hm). exists m. split; [reflexivity|].
  unfold listed, models_of in *. now rewrite Hd.
Qed.

Lemma attempts_catalogue p st mr : forall n cur s r s',
  catalogue_inv s -> current_listed_at s p st cur ->
  attempts env p st mr n cur s = (r, s') -> catalogue_inv s'.
Proof.
  induction n as [|n IH]; intros cur s r s' Hi Hcur; simpl attempts.
  - now intros [= <- <-].
  - destruct (attempt_body env p st cur s) as [[r0 cur1] s1] eqn:Eb.
    apply attempt_body_catalogue in Eb as (Hi1 & Hd1); [|exact Hi|exact Hcur].
    destruct r0 as [result|error_msg]; [now intros [= <- <-]|].
    destruct (on_attempt_error p st cur1 error_msg s1) as [[next|] s2] eqn:Eo;
      apply on_attempt_error_catalogue in Eo as (Hi2 & Hd2 & Hnext); try exact Hi1.
    + apply IH; [exact Hi2|now apply Hnext].
    + now intros [= <- <-].
Qed.

Lemma _execute_with_fallback_catalogue p st mr s r s' :
  catalogue_inv s ->
  _execute_with_fallback env p st mr s = (r, s') -> catalogue_inv s'.
Proof.
  intros Hi. unfold _execute_with_fallback.
  destruct (negb _); [now intros [= <- <-]|].
  apply attempts_catalogue; [exact Hi|].
  intros Ht. unfold get_active_model in *.
  destruct (negb _); [discriminate|].
  destruct (ProviderConfig.active_models (providers s p) st) as [m|] eqn:Ea; [|discriminate].
  exists m. split; [reflexivity|]. destruct Hi as [H1 _ _]. now apply H1.
Qed.

Lemma try_provider_catalogue st svc mr today u pc s r s' :
  catalogue_inv s ->
  try_provider env st svc mr today u pc s = (r, s') -> catalogue_inv s'.
Proof.
  intros Hi E. apply try_provider_steps in E as (r1 & s1 & E1 & E).
  apply _execute_with_fallback_catalogue in E1; [|exact Hi].
  destruct E as [(msg & _ & _ & ->)|[(_ & _ & ->)|(resp & b & s2 & r4 & _ & _ & E2 & E4 & _)]];
    [exact E1|exact E1|].
  apply update_user_usage_footprint in E2. apply db_save_footprint in E4.
  eapply catalogue_inv_store; [exact E4|].
  eapply (catalogue_inv_ext s2); try reflexivity.
  - intros q. simpl. now destruct (Provider_eqb_spec pc q) as [<-|].
  - intros q. simpl. now destruct (Provider_eqb_spec pc q) as [<-|].
  - eapply catalogue_inv_store; eauto.
Qed.

Lemma provider_loop_catalogue st svc mr today u ps : forall errors s r s',
  catalogue_inv s ->
  provider_loop env st svc mr today u ps errors s = (r, s') -> catalogue_inv s'.
Proof.
  induction ps as [|pc rest IH]; simpl provider_loop; intros errors s r s' Hi E.
  - now inversion E; subst.
  - destruct (try_provider env st svc mr today u pc s) as [[[o|]|msg] s1] eqn:E1;
      apply try_provider_catalogue in E1; try exact Hi.
    + now inversion E; subst.
    + eapply IH; eauto.
    + eapply IH; [|exact E].
      eapply (catalogue_inv_ext s1); try reflexivity; [| |exact E1];
        intros q; simpl; now destruct (Provider_eqb_spec pc q) as [<-|].
Qed.

Lemma serve_catalogue st svc mr enh today u s r s' :
  catalogue_inv s ->
  serve env st svc mr enh today u s = (r, s') -> catalogue_inv s'.
Proof.
  intros Hi E. unfold serve in E.
  apply bind_inv in E as [([allowed remaining] & s1 & Ec & E)|(msg & Ec & _)].
  2:{ destruct (check_user_limit_returns env today u svc s) as (a & s0 & E0). congruence. }
  apply check_user_limit_footprint in Ec.
  pose proof (catalogue_inv_store _ _ Ec Hi) as Hi1.
  destruct allowed; cbn [negb] in E; [|now inversion E; subst].
  unfold bind at 1, get in E.
  destruct (get_available_providers st s1) as [|p ps]; [now inversion E; subst|].
  apply bind_inv in E as [([] & s2 & E2 & E)|(msg & E2 & _)].
  - eapply provider_loop_catalogue; [|exact E].
    destruct enh; [eapply _enhance_prompt_catalogue; eauto|now inversion E2; subst].
  - destruct enh; [eapply _enhance_prompt_catalogue; eauto|discriminate].
Qed.

End CatalogueOfCalls.

(** ** The managers that are reached from a new one *)

Lemma catalogues_ok_lists env s : catalogues_ok env s -> lists_ok env s.
Proof.
  intros H p st. destruct (H p st) as (_ & Hd). unfold models_of.
  destruct (ProviderConfig.discovered_models (providers s p) st); auto.
Qed.

Lemma catalogues_ok_catalogue_inv env s :
  catalogues_ok env s -> calls s = [] -> catalogue_inv s.
Proof.
  intros H Hc. constructor.
  - intros p st m Ha. destruct (H p st) as ([Hn|(m0 & rest & Em & Hm)] & _); [congruence|].
    unfold listed. rewrite Em. left. congruence.
  - intros p st m. now rewrite Hc.
  - intros m. now rewrite Hc.
Qed.

Lemma ensure_discovery_catalogues env s r s' :
  catalogues_ok env s -> ensure_discovery env s = (r, s') -> catalogues_ok env s'.
Proof.
  apply (preserves_ensure_discovery env (catalogues_ok env)).
  - apply google_step_catalogues.
  - apply openai_step_catalogues.
  - apply other_step_catalogues.
  - apply select_step_catalogues.
  - intros s0 H. exact H.
Qed.

Lemma lists_ok_ext env s s' :
  (forall q, ProviderConfig.discovered_models (providers s' q)
             = ProviderConfig.discovered_models (providers s q)) ->
  lists_ok env s -> lists_ok env s'.
Proof. intros Hd H p st. unfold models_of. rewrite Hd. apply H. Qed.

Lemma serve_flag env st svc mr enh today u s r s' :
  registry_ok s ->
  serve env st svc mr enh today u s = (r, s') ->
  discovery_completed s' = discovery_completed s.
Proof.
  intros Hr E.
  apply serve_cases in E as (allowed & remaining & s1 & Ec & E).
  apply check_user_limit_footprint in Ec. destruct Ec as [Ep _ Ef _].
  destruct E as [(_ & _ & ->)|[(_ & _ & _ & ->)|(_ & _ & s2 & Hs2 & E)]]; auto.
  assert (Hr2 : registry_ok s2).
  { intros p. destruct Hs2 as [->|(m & _ & ->)]; simpl; rewrite Ep; apply Hr. }
  apply provider_loop_footprint in E; [|exact Hr2]. destruct E as [Hf _ _ _ _].
  rewrite Hf. destruct Hs2 as [->|(m & _ & ->)]; exact Ef.
Qed.

Lemma entry_point_reached env st today u text s r s' :
  registry_ok s -> reached_inv env s ->
  entry_point env st today u text s = (r, s') -> reached_inv env s'.
Proof.
  intros Hr (Hl & Hi) E. rewrite entry_point_eq in E.
  apply handle_request_discovers in E as (sd & Ed & E).
  destruct (ensure_discovery_completes env s) as (sd' & Ed' & Hdone).
  assert (sd' = sd) by congruence. subst sd'.
  pose proof (ensure_discovery_registry env s _ sd Hr Ed) as Hrd.
  assert (Hd : lists_ok env sd /\ catalogue_inv sd).
  { destruct (discovery_completed s) eqn:Ec.
    - unfold ensure_discovery in Ed. rewrite Ec in Ed. injection Ed as <-. auto.
    - destruct Hi as (Hcat & Hcalls).
      pose proof (ensure_discovery_catalogues env s _ sd Hcat Ed) as Hcatd.
      pose proof (ensure_discovery_same_store env s _ sd Ed) as (_ & _ & _ & _ & Hc).
      split; [now apply catalogues_ok_lists|].
      apply (catalogues_ok_catalogue_inv env); [exact Hcatd|congruence]. }
  destruct Hd as (Hld & Hid). unfold reached_inv.
  destruct E as [(-> & _)|(_ & _ & r0 & E)].
  - split; [exact Hld|]. now rewrite Hdone.
  - pose proof (serve_catalogue env _ _ _ _ _ _ _ _ _ Hid E) as Hi'.
    pose proof (serve_flag _ _ _ _ _ _ _ _ _ _ Hrd E) as Hdone'.
    apply serve_footprint in E as (_ & Hset & _); [|exact Hrd].
    rewrite Hdone', Hdone. split; [|exact Hi'].
    eapply lists_ok_ext; [|exact Hld]. intros q. now destruct (Hset q) as (_ & _ & _ & _ & ?).
Qed.

Lemma reset_cache_command_fields ADMIN_IDS today user_id s :
  let s' := snd (Bot.reset_cache_command ADMIN_IDS today user_id s) in
  calls s' = calls s /\ discovery_completed s' = discovery_completed s /\
  ai_usage s' = ai_usage s /\ max_cache_size s' = max_cache_size s /\
  db_ops s' = db_ops s.
Proof.
  assert (H : forall keys s0,
    let s1 := fold_left (fun s key => set_cache s (cache_remove key (user_limits_cache s)))
                        keys s0 in
    calls s1 = calls s0 /\ discovery_completed s1 = discovery_completed s0 /\
    ai_usage s1 = ai_usage s0 /\ max_cache_size s1 = max_cache_size s0 /\
    db_ops s1 = db_ops s0).
  { induction keys as [|k keys IH]; intros s0; simpl; [repeat split|].
    exact (IH (set_cache s0 (cache_remove k (user_limits_cache s0)))). }
  unfold Bot.reset_cache_command.
  destruct (Bot.is_admin ADMIN_IDS user_id); cbn [negb]; [|repeat split].
  unfold try_except, bind, modify, ret, reset_daily_counts. cbn [snd]. cbv zeta.
  apply H.
Qed.

Lemma run_event_reached env ADMIN_IDS e s :
  registry_ok s -> reached_inv env s -> reached_inv env (run_event env ADMIN_IDS s e).
Proof.
  intros Hr Hi. destruct e as [[[[st today] u] text]|today user_id]; simpl.
  - destruct (entry_point env st today u text s) as [r s'] eqn:E.
    eapply entry_point_reached; eauto.
  - destruct (reset_cache_command_fields ADMIN_IDS today user_id s) as (Hc & Hf & _).
    set (s' := snd (Bot.reset_cache_command ADMIN_IDS today user_id s)) in *.
    assert (Hd : forall q, ProviderConfig.discovered_models (providers s' q)
                           = ProviderConfig.discovered_models (providers s q)).
    { intros q. subst s'.
      now destruct (reset_cache_command_providers ADMIN_IDS today user_id s q) as [->| ->]. }
    assert (Ha : forall q, ProviderConfig.active_models (providers s' q)
                           = ProviderConfig.active_models (providers s q)).
    { intros q. subst s'.
      now destruct (reset_cache_command_providers ADMIN_IDS today user_id s q) as [->| ->]. }
    assert (He : forall q, ProviderConfig.enabled (providers s' q)
                           = ProviderConfig.enabled (providers s q)).
    { intros q. subst s'.
      now destruct (reset_cache_command_providers ADMIN_IDS today user_id s q) as [->| ->]. }
    destruct Hi as (Hl & Hi). split; [eapply lists_ok_ext; eauto|].
    rewrite Hf. destruct (discovery_completed s).
    + eapply catalogue_inv_ext; eauto.
    + destruct Hi as (Hcat & Hcalls). split; [|congruence].
      intros p st. destruct (Hcat p st) as (Hact & Hlist).
      unfold active_is_head_or_unset, models_of in *. rewrite Ha, Hd, He. auto.
Qed.

Lemma run_events_reached env ADMIN_IDS es : forall s,
  registry_ok s -> keys_respected env s -> reached_inv env s ->
  reached_inv env (run_events env ADMIN_IDS es s).
Proof.
  induction es as [|e es IH]; intros s Hr Hk Hi; simpl; [auto|].
  destruct (run_event_registry env ADMIN_IDS e s Hr Hk).
  apply IH; auto. now apply run_event_reached.
Qed.

Lemma init_reached env rows : reached_inv env (init env rows).
Proof.
  split; [apply catalogues_ok_lists, init_catalogues_ok|].
  simpl. split; [apply init_catalogues_ok|reflexivity].
Qed.


Section ReachedApis.
Variable env : Environment.



End ReachedApis.


(** ** The cache and the store *)

Lemma cache_remove_length k c v :
  cache_get k c = Some v -> (length (cache_remove k c) < length c)%nat.
Proof.
  induction c as [|[k0 v0] c IH]; simpl; [discriminate|].
  destruct (UsageKey_eqb k0 k); simpl.
  - intros _. pose proof (filter_length_le (fun kv => negb (UsageKey_eqb (fst kv) k)) c).
    unfold cache_remove. lia.
  - intros H. apply IH in H. lia.
Qed.

Lemma cache_set_length k v c :
  length (cache_set k v c)
  = match cache_get k c with
    | Some _ => length c
    | None => S (length c)
    end.
Proof.
  induction c as [|[k0 v0] c IH]; simpl; [reflexivity|].
  destruct (UsageKey_eqb k0 k); simpl; [reflexivity|].
  rewrite IH. now destruct (cache_get k c).
Qed.

Section CacheBound.
Variable env : Environment.

(** A check leaves a cache that was within its size within its size. *)
Lemma check_user_limit_length today u svc s :
  (length (user_limits_cache s) <= max_cache_size s)%nat ->
  let s' := snd (check_user_limit env today u svc s) in
  (length (user_limits_cache s') <= max_cache_size s')%nat /\
  max_cache_size s' = max_cache_size s.
Proof.
  intros Hlen. unfold check_user_limit, try_except, bind, modify, with_connection, ret.
  destruct (cache_get (u, today, svc) (user_limits_cache s)) as [v|] eqn:Eg.
  - pose proof (cache_remove_length _ _ _ Eg) as Hr.
    assert (Hm : (length (cache_move_to_end (u, today, svc) v (user_limits_cache s))
                  <= max_cache_size s)%nat).
    { unfold cache_move_to_end. rewrite length_app. simpl. lia. }
    cbn [user_limits_cache max_cache_size set_cache].
    destruct (Nat.ltb_spec (max_cache_size s)
                (length (cache_move_to_end (u, today, svc) v (user_limits_cache s))));
      [lia|].
    destruct (_ <=? _); simpl; auto.
  - destruct (db_fault env (db_ops s)); [simpl; auto|].
    cbn [user_limits_cache max_cache_size set_cache tick_db].
    set (c1 := cache_set _ _ _).
    assert (Hc1 : length c1 = S (length (user_limits_cache s))).
    { subst c1. now rewrite cache_set_length, Eg. }
    destruct (Nat.ltb_spec (max_cache_size s) (length c1)).
    + destruct (_ <=? _); simpl; (split; [|reflexivity]);
        (destruct c1; simpl in *; lia).
    + destruct (_ <=? _); simpl; auto.
Qed.

Lemma update_user_usage_length today u svc s :
  cache_get (u, today, svc) (user_limits_cache s) <> None ->
  let s' := snd (update_user_usage env today u svc s) in
  length (user_limits_cache s') = length (user_limits_cache s) /\
  max_cache_size s' = max_cache_size s.
Proof.
  intros Hin. unfold update_user_usage, try_except, bind, modify, with_connection, ret.
  cbn [user_limits_cache set_cache db_ops].
  destruct (db_fault env (db_ops s)); simpl; rewrite cache_set_length;
    (destruct (cache_get (u, today, svc) (user_limits_cache s)); [auto|congruence]).
Qed.

Hypothesis store_answers : forall n, db_fault env n = None.

Lemma cache_inv_ext k s s' :
  user_limits_cache s' = user_limits_cache s ->
  max_cache_size s' = max_cache_size s ->
  ai_usage s' = ai_usage s ->
  cache_inv k s -> cache_inv k s'.
Proof.
  intros Hc Hz Hu ([Hok Hsize] & Hlen & Hin). unfold cache_inv.
  rewrite Hc, Hz. split; [|auto]. constructor; [now rewrite Hc, Hu|now rewrite Hz].
Qed.

Lemma try_provider_cache st svc mr today u pc s r s' :
  cache_inv (u, today, svc) s ->
  try_provider env st svc mr today u pc s = (r, s') ->
  cache_inv (u, today, svc) s' /\ max_cache_size s' = max_cache_size s.
Proof.
  intros Hi E. apply try_provider_steps in E as (r1 & s1 & E1 & E).
  apply _execute_with_fallback_footprint in E1.
  destruct E1 as [Hc1 Hz1 _ Hu1 _ _ _ _ _].
  pose proof (cache_inv_ext _ _ _ Hc1 Hz1 Hu1 Hi) as Hi1.
  destruct E as [(msg & _ & _ & ->)|[(_ & _ & ->)|(resp & b & s2 & r4 & _ & _ & E2 & E4 & _)]];
    [auto|auto|].
  destruct Hi1 as (Hinv1 & Hlen1 & Hin1).
  destruct (update_user_usage_spec env today u svc s1 Hinv1 Hin1 (store_answers _))
    as (s2' & E2' & Hinv2 & Hin2 & _).
  destruct (update_user_usage_length today u svc s1 Hin1) as (Hl2 & Hz2).
  rewrite E2 in E2', Hl2, Hz2. injection E2' as _ <-. cbn [snd] in Hl2, Hz2.
  rewrite db_save_answers in E4 by exact store_answers. injection E4 as _ <-.
  split; [|simpl; congruence].
  apply (cache_inv_ext _ s2); try reflexivity.
  split; [exact Hinv2|]. split; [lia|exact Hin2].
Qed.

Lemma provider_loop_cache st svc mr today u ps : forall errors s r s',
  cache_inv (u, today, svc) s ->
  provider_loop env st svc mr today u ps errors s = (r, s') ->
  cache_inv (u, today, svc) s' /\ max_cache_size s' = max_cache_size s.
Proof.
  induction ps as [|pc rest IH]; simpl provider_loop; intros errors s r s' Hi E.
  - now inversion E; subst.
  - destruct (try_provider env st svc mr today u pc s) as [[[o|]|msg] s1] eqn:E1;
      apply try_provider_cache in E1 as (Hi1 & Hz1); try exact Hi.
    + now inversion E; subst.
    + apply IH in E as (Hi2 & Hz2); [|exact Hi1]. split; [exact Hi2|congruence].
    + apply IH in E as (Hi2 & Hz2).
      * split; [exact Hi2|]. rewrite Hz2. exact Hz1.
      * eapply (cache_inv_ext _ s1); try reflexivity. exact Hi1.
Qed.

Lemma serve_cache st svc mr enh today u s r s' :
  quota_inv s -> (length (user_limits_cache s) <= max_cache_size s)%nat ->
  serve env st svc mr enh today u s = (r, s') ->
  cache_inv (u, today, svc) s' /\ max_cache_size s' = max_cache_size s.
Proof.
  intros Hinv Hlen E.
  apply serve_cases in E as (allowed & remaining & s1 & Ec & E).
  destruct (check_user_limit_spec env today u svc s Hinv (or_intror (store_answers _)))
    as (s1' & Ec' & Hinv1 & Hlast1 & _).
  destruct (check_user_limit_length today u svc s Hlen) as (Hlen1 & Hz1).
  rewrite Ec in Ec', Hlen1, Hz1. injection Ec' as _ <-. cbn [snd] in Hlen1, Hz1.
  assert (Hi1 : cache_inv (u, today, svc) s1).
  { split; [exact Hinv1|]. split; [exact Hlen1|].
    rewrite (cached_last_get _ _ _ Hlast1). discriminate. }
  destruct E as [(_ & _ & ->)|[(_ & _ & _ & ->)|(_ & _ & s2 & Hs2 & E)]]; auto.
  apply provider_loop_cache in E as (Hi' & Hz').
  - split; [exact Hi'|]. rewrite Hz'. destruct Hs2 as [->|(m & _ & ->)]; exact Hz1.
  - destruct Hs2 as [->|(m & _ & ->)]; [exact Hi1|].
    eapply (cache_inv_ext _ s1); try reflexivity. exact Hi1.
Qed.

Lemma entry_point_cache st today u text s r s' :
  quota_inv s -> (length (user_limits_cache s) <= max_cache_size s)%nat ->
  entry_point env st today u text s = (r, s') ->
  quota_inv s' /\ (length (user_limits_cache s') <= max_cache_size s')%nat /\
  max_cache_size s' = max_cache_size s /\
  (0 < u -> too_short text (min_length_of st) = false ->
   cache_get (u, today, usage_service_of st) (user_limits_cache s') <> None).
Proof.
  intros Hinv Hlen E. rewrite entry_point_eq in E. pose proof E as E0.
  apply handle_request_discovers in E as (sd & Ed & E).
  pose proof (ensure_discovery_same_store env s _ sd Ed) as Hsame.
  pose proof (quota_inv_same_store _ _ Hsame Hinv) as Hinvd.
  destruct Hsame as (Hc & Hz & _).
  assert (Hlend : (length (user_limits_cache sd) <= max_cache_size sd)%nat)
    by now rewrite Hc, Hz.
  assert (H3 : quota_inv s' /\ (length (user_limits_cache s') <= max_cache_size s')%nat /\
               max_cache_size s' = max_cache_size s).
  { destruct E as [(-> & _)|(_ & _ & r0 & E)]; [auto|].
    apply serve_cache in E as ((Hq & Hl & _) & Hz'); auto.
    split; [exact Hq|]. split; [exact Hl|congruence]. }
  destruct H3 as (H1 & H2 & H3).
  split; [exact H1|]. split; [exact H2|]. split; [exact H3|].
  intros Hu Ht. rewrite (handle_request_after_discovery env st today u text s sd Ed Hu Ht) in E0.
  destruct (serve env st (usage_service_of st) (max_retries_of st) (enhances_prompt st)
                  today u sd) as [r0 s0] eqn:Es.
  apply serve_cache in Es as ((_ & _ & Hin) & _); auto.
  destruct r0; injection E0 as _ <-; exact Hin.
Qed.

Lemma reset_cache_command_cache ADMIN_IDS today user_id s :
  let s' := snd (Bot.reset_cache_command ADMIN_IDS today user_id s) in
  user_limits_cache s' = user_limits_cache s \/ user_limits_cache s' = [].
Proof.
  unfold Bot.reset_cache_command.
  destruct (Bot.is_admin ADMIN_IDS user_id); cbn [negb]; [|now left].
  right. reflexivity.
Qed.

Lemma run_events_cache ADMIN_IDS es : forall s,
  quota_inv s -> (length (user_limits_cache s) <= max_cache_size s)%nat ->
  let s' := run_events env ADMIN_IDS es s in
  quota_inv s' /\ (length (user_limits_cache s') <= max_cache_size s')%nat /\
  max_cache_size s' = max_cache_size s.
Proof.
  induction es as [|e es IH]; intros s Hinv Hlen; simpl; [auto|].
  assert (H1 : quota_inv (run_event env ADMIN_IDS s e) /\
               (length (user_limits_cache (run_event env ADMIN_IDS s e))
                <= max_cache_size (run_event env ADMIN_IDS s e))%nat /\
               max_cache_size (run_event env ADMIN_IDS s e) = max_cache_size s).
  { destruct e as [[[[st today] u] text]|today user_id]; simpl.
    - destruct (entry_point env st today u text s) as [r s'] eqn:E.
      apply entry_point_cache in E as (? & ? & ? & _); auto.
    - destruct (reset_cache_command_fields ADMIN_IDS today user_id s)
        as (_ & _ & Hu & Hz & _).
      destruct Hinv as [(Hnd & Hco) Hsize].
      destruct (reset_cache_command_cache ADMIN_IDS today user_id s) as [Hc|Hc];
        cbv zeta in Hc; rewrite Hc, Hz; (split; [|split; [simpl; lia|reflexivity]]);
        (constructor; [rewrite Hc, Hu|now rewrite Hz]).
      + now split.
      + split; [constructor|]. intros k v Hg. discriminate Hg. }
  destruct H1 as (Hq1 & Hl1 & Hz1).
  destruct (IH _ Hq1 Hl1) as (Hq & Hl & Hz).
  split; [exact Hq|]. split; [exact Hl|]. now rewrite Hz.
Qed.

(** X10.  While the store answers, the cache of the quota counts
    repeats the store and stays within its size: in every state the
    manager reaches from its creation by requests and resets, the cache
    holds 1000 entries at most, no key twice, and every count it holds is
    the count the store holds for that user, day and service.  The
    counts [get_user_stats] reports are therefore the stored ones, or 0
    for a service whose key is not in the cache. *)
Theorem cache_repeats_the_store_within_its_size ADMIN_IDS rows es :
  let s := run_events env ADMIN_IDS es (init env rows) in
  (length (user_limits_cache s) <= 1000)%nat /\
  NoDup (map fst (user_limits_cache s)) /\
  (forall k v, cache_get k (user_limits_cache s) = Some v -> v = stored s k) /\
  (forall today user_id service_type v,
     In (service_type, v) (get_user_stats today user_id s) ->
     v = stored s (user_id, today, service_type) \/
     (v = 0 /\ cache_get (user_id, today, service_type) (user_limits_cache s) = None)).
Proof.
  intros s.
  destruct (run_events_cache ADMIN_IDS es (init env rows)) as ([(Hnd & Hco) _] & Hl & Hz).
  { constructor; simpl; [|lia]. split; [constructor|]. intros k v H. discriminate H. }
  { simpl. lia. }
  fold s in Hnd, Hco, Hl, Hz. simpl in Hz. rewrite Hz in Hl.
  repeat split; auto.
  intros today user_id service_type v Hin. unfold get_user_stats in Hin.
  apply in_map_iff in Hin as (svc & [= <- <-] & _).
  destruct (cache_get (user_id, today, svc) (user_limits_cache s)) as [v|] eqn:Eg; [|auto].
  left. now apply Hco.
Qed.

End CacheBound.

(** ** The eviction from the cache, and a commit the store refuses *)

(** X11.  The cache is kept in order of use.  A check of a key that is
    not in a full cache reads the count from the store, puts the key
    last and evicts the entry that was used least recently, the first
    one.  A check of a key that is in the cache moves it to the last
    place, evicts nothing and does not access the store. *)
Theorem check_keeps_the_cache_in_order_of_use env today user_id service_type s :
  let k : UsageKey := (user_id, today, service_type) in
  let s' := snd (check_user_limit env today user_id service_type s) in
  (length (user_limits_cache s) <= max_cache_size s)%nat ->
  (forall oldest others,
     user_limits_cache s = oldest :: others ->
     length (user_limits_cache s) = max_cache_size s ->
     cache_get k (user_limits_cache s) = None ->
     db_fault env (db_ops s) = None ->
     user_limits_cache s' = (others ++ [(k, stored s k)])%list /\
     db_ops s' = S (db_ops s)) /\
  (forall v,
     cache_get k (user_limits_cache s) = Some v ->
     user_limits_cache s' = (cache_remove k (user_limits_cache s) ++ [(k, v)])%list /\
     (forall k', k' <> k ->
        cache_get k' (user_limits_cache s') = cache_get k' (user_limits_cache s)) /\
     db_ops s' = db_ops s).
Proof.
  intros k s' Hlen. subst s'. split.
  - intros oldest others Ec Hfull Hmiss Hdb.
    unfold check_user_limit, try_except, bind, modify, with_connection, ret.
    fold k. rewrite Hmiss, Hdb.
    cbn [user_limits_cache max_cache_size set_cache tick_db ai_usage].
    rewrite (cache_set_absent _ _ _ Hmiss).
    fold (stored s k).
    assert (Hlt : (max_cache_size s <? length (user_limits_cache s ++ [(k, stored s k)]))%nat
                  = true).
    { apply Nat.ltb_lt. rewrite length_app. simpl. lia. }
    rewrite Hlt. rewrite Ec.
    destruct (_ <=? _); simpl; auto.
  - intros v Hhit.
    unfold check_user_limit, try_except, bind, modify, with_connection, ret.
    fold k. rewrite Hhit.
    cbn [user_limits_cache max_cache_size set_cache].
    pose proof (cache_remove_length _ _ _ Hhit) as Hr.
    assert (Hge : (max_cache_size s <? length (cache_move_to_end k v (user_limits_cache s)))%nat
                  = false).
    { apply Nat.ltb_ge. unfold cache_move_to_end. rewrite length_app. simpl. lia. }
    rewrite Hge.
    assert (Hout : forall (b : bool) (x y : bool * Z) (s0 : SmartAIManager),
              snd (if b then (Return x, s0) else (Return y, s0)) = s0)
      by (intros [] ? ? ?; reflexivity).
    destruct (_ <=? _); simpl; (split; [reflexivity|split; [|reflexivity]]);
      intros k' Hk'; unfold cache_move_to_end; rewrite cache_get_app,
        (cache_get_remove k _ k' Hk'); simpl;
      (destruct (UsageKey_eqb_spec k k'); [congruence|]);
      now destruct (cache_get k' (user_limits_cache s)).
Qed.

(** X12.  A commit the store refuses is counted in the cache only:
    [update_user_usage] returns [False], the count of the cache has gone
    up by one and the store holds what it held.  The next check finds
    the key in the cache and decides on that count, one above the
    stored one when the cache repeated the store. *)
Theorem refused_commit_is_counted_in_the_cache_only env today user_id service_type s msg :
  let k : UsageKey := (user_id, today, service_type) in
  let cached := match cache_get k (user_limits_cache s) with Some v => v | None => 0 end in
  db_fault env (db_ops s) = Some msg ->
  exists s',
    update_user_usage env today user_id service_type s = (Return false, s') /\
    ai_usage s' = ai_usage s /\
    cache_get k (user_limits_cache s') = Some (cached + 1) /\
    fst (check_user_limit env today user_id service_type s')
    = Return (quota_decision env service_type (cached + 1)).
Proof.
  intros k cached Hdb.
  exists (tick_db (set_cache s (cache_set k (cached + 1) (user_limits_cache s)))).
  split.
  { unfold update_user_usage, try_except, bind, modify, with_connection, ret. fold k.
    cbn [db_ops set_cache]. now rewrite Hdb. }
  split; [reflexivity|].
  assert (Hg : cache_get k (cache_set k (cached + 1) (user_limits_cache s)) = Some (cached + 1)).
  { now rewrite cache_get_set, UsageKey_eqb_refl. }
  split; [exact Hg|].
  unfold check_user_limit, try_except, bind, modify, ret. fold k.
  cbn [user_limits_cache tick_db set_cache]. rewrite Hg. unfold quota_decision.
  cbn [user_limits_cache max_cache_size set_cache].
  destruct (_ <? _)%nat; destruct (_ <=? _); reflexivity.
Qed.

(** ** The daily reset *)

Lemma last_char_app a b : b <> EmptyString -> last_char (a ++ b) = last_char b.
Proof.
  intros Hb. induction a as [|c a IH]; simpl; [reflexivity|].
  rewrite IH. destruct (a ++ b) eqn:E; [|reflexivity].
  destruct a; simpl in E; [contradiction|discriminate].
Qed.

Lemma endswith_last_char s suffix :
  Py.endswith s suffix = true -> last_char suffix <> None ->
  last_char s = last_char suffix.
Proof.
  intros H Hs. induction s as [|c s IH].
  - destruct suffix; [reflexivity|discriminate H].
  - cbn [Py.endswith] in H.
    destruct (String.eqb_spec (String c s) suffix) as [E|Hne]; [now rewrite E|].
    specialize (IH H). destruct s as [|c' s']; [|exact IH].
    destruct suffix; [now contradiction Hs|discriminate H].
Qed.

Lemma cache_key_str_last u d svc :
  svc <> EmptyString -> last_char (cache_key_str (u, d, svc)) = last_char svc.
Proof.
  intros H. unfold cache_key_str.
  rewrite last_char_app; [|destruct d; discriminate].
  rewrite last_char_app; [|destruct d; discriminate].
  rewrite last_char_app; [|discriminate].
  now rewrite (last_char_app "_") by exact H.
Qed.

(** A key of one of the three services does not end with a day. *)
Lemma usage_key_does_not_end_with_today today u d svc :
  ends_with_digit today = true -> In svc usage_services ->
  Py.endswith (cache_key_str (u, d, svc)) today = false.
Proof.
  intros Hd Hin. destruct (Py.endswith _ today) eqn:E; [|reflexivity]. exfalso.
  unfold ends_with_digit in Hd.
  destruct (last_char today) as [c|] eqn:Ec; [|discriminate].
  apply endswith_last_char in E; [|congruence].
  rewrite Ec in E.
  destruct Hin as [<-|[<-|[<-|[]]]]; rewrite cache_key_str_last in E by discriminate;
    simpl in E; injection E as <-; discriminate.
Qed.

Lemma fold_cache_remove_cache keys : forall s,
  user_limits_cache
    (fold_left (fun s key => set_cache s (cache_remove key (user_limits_cache s))) keys s)
  = filter (fun kv => negb (existsb (UsageKey_eqb (fst kv)) keys)) (user_limits_cache s).
Proof.
  induction keys as [|k keys IH]; intros s; simpl.
  - induction (user_limits_cache s) as [|kv c IHc]; simpl; [reflexivity|]. now rewrite <- IHc.
  - rewrite IH. simpl. unfold cache_remove.
    induction (user_limits_cache s) as [|kv c IHc]; simpl; [reflexivity|].
    destruct (UsageKey_eqb (fst kv) k); simpl; [exact IHc|].
    destruct (existsb _ keys); simpl; [exact IHc|]. now rewrite IHc.
Qed.

Lemma reset_daily_counts_cache today s :
  user_limits_cache (snd (reset_daily_counts today s))
  = filter (fun kv => Py.endswith (cache_key_str (fst kv)) today) (user_limits_cache s).
Proof.
  unfold reset_daily_counts, modify. cbn [snd]. cbv zeta.
  unfold set_providers. cbn [user_limits_cache]. rewrite fold_cache_remove_cache.
  apply filter_ext_in. intros kv Hin.
  destruct (Py.endswith (cache_key_str (fst kv)) today) eqn:E.
  - destruct (existsb _ _) eqn:Ex; [|reflexivity].
    apply existsb_exists in Ex as (k & Hk & Ek).
    destruct (UsageKey_eqb_spec (fst kv) k) as [<-|]; [|discriminate].
    apply filter_In in Hk as (_ & Hk). rewrite E in Hk. discriminate.
  - assert (Ex : existsb (UsageKey_eqb (fst kv))
                   (filter (fun key => negb (Py.endswith (cache_key_str key) today))
                           (map fst (user_limits_cache s))) = true).
    { apply existsb_exists. exists (fst kv). split; [|apply UsageKey_eqb_refl].
      apply filter_In. split; [now apply in_map|]. now rewrite E. }
    now rewrite Ex.
Qed.

Lemma reset_daily_counts_store today s :
  let s' := snd (reset_daily_counts today s) in
  ai_usage s' = ai_usage s /\ db_ops s' = db_ops s /\ calls s' = calls s /\
  max_cache_size s' = max_cache_size s /\ discovery_completed s' = discovery_completed s.
Proof.
  assert (H : forall keys s0,
    let s1 := fold_left (fun s key => set_cache s (cache_remove key (user_limits_cache s)))
                        keys s0 in
    ai_usage s1 = ai_usage s0 /\ db_ops s1 = db_ops s0 /\ calls s1 = calls s0 /\
    max_cache_size s1 = max_cache_size s0 /\
    discovery_completed s1 = discovery_completed s0).
  { induction keys as [|k keys IH]; intros s0; simpl; [repeat split|].
    exact (IH (set_cache s0 (cache_remove k (user_limits_cache s0)))). }
  unfold reset_daily_counts, modify. cbn [snd]. cbv zeta. apply H.
Qed.

(** X13.  [reset_daily_counts] forgets the cache, not the store.  With
    a day that ends with a digit, as every day the clock writes, the
    count of every user, day and service, the counts of the day
    included, is dropped from the cache, because a key ends with the
    name of its service and not with the day.  The store is not
    touched, so the check that follows reads the stored count and still
    refuses a user who has reached his limit.  The usage, the errors and
    the last error of every backend are reset; the rest of a backend is
    left as it was. *)
Theorem reset_daily_counts_forgets_the_cache_not_the_store
    env today s user_id day service_type :
  ends_with_digit today = true ->
  In service_type usage_services ->
  let k : UsageKey := (user_id, day, service_type) in
  let s' := snd (reset_daily_counts today s) in
  cache_get k (user_limits_cache s') = None /\
  ai_usage s' = ai_usage s /\
  (forall p, providers s' p = reset_counters (providers s p)) /\
  (db_fault env (db_ops s') = None ->
   fst (check_user_limit env day user_id service_type s')
   = Return (quota_decision env service_type (stored s k))).
Proof.
  intros Hd Hsvc k s'.
  assert (Hmiss : cache_get k (user_limits_cache s') = None).
  { apply cache_get_None. subst s'. rewrite reset_daily_counts_cache.
    intros Hin. apply in_map_iff in Hin as (kv & Ek & Hin).
    apply filter_In in Hin as (_ & He). rewrite Ek in He. unfold k in He.
    rewrite usage_key_does_not_end_with_today in He by assumption. discriminate. }
  destruct (reset_daily_counts_store today s) as (Hu & _).
  fold s' in Hu.
  split; [exact Hmiss|]. split; [exact Hu|]. split.
  - intros p. apply reset_daily_counts_providers.
  - intros Hdb.
    unfold check_user_limit, try_except, bind, modify, with_connection, ret.
    fold k. rewrite Hmiss, Hdb. cbn [ai_usage tick_db set_cache fst].
    unfold quota_decision, stored. rewrite Hu.
    destruct (_ <? _)%nat; destruct (_ <=? _); reflexivity.
Qed.

Lemma stable_sort_all_equal {A} (leb : A -> A -> bool) l :
  (forall a b, leb a b = true) -> stable_sort leb l = l.
Proof.
  intros H. induction l as [|x l IH]; simpl; [reflexivity|].
  rewrite IH. destruct l as [|y l]; simpl; [reflexivity|]. now rewrite H.
Qed.

(** X14.  After [reset_daily_counts] the backends are offered in the
    order of the registry: the available backends of a capability are
    the enabled backends that serve it and whose daily limit is
    positive, Google first, then OpenAI, Stability, Luma and Kling. *)
Theorem reset_daily_counts_restores_registry_order today st s :
  get_available_providers st (snd (reset_daily_counts today s))
  = filter (fun p =>
              ProviderConfig.enabled (providers s p)
              && (0 <? ProviderConfig.daily_limit (providers s p))
              && supports st (ProviderConfig.name (providers s p)))%bool
           all_providers.
Proof.
  unfold get_available_providers.
  rewrite stable_sort_all_equal.
  - apply filter_ext. intros p. unfold is_available.
    rewrite reset_daily_counts_providers. simpl.
    destruct (ProviderConfig.enabled (providers s p)); simpl; [|reflexivity].
    destruct (Z.leb_spec (ProviderConfig.daily_limit (providers s p)) 0),
             (Z.ltb_spec 0 (ProviderConfig.daily_limit (providers s p)));
      try lia; reflexivity.
  - intros a b. unfold selection_key_leb. rewrite !reset_daily_counts_providers.
    reflexivity.
Qed.

(** ** The chat sessions *)

Module ChatSessionsFacts.
Import ChatSessions.

Lemma lookup_None u sessions : lookup u sessions = None <-> ~ In u (map fst sessions).
Proof.
  induction sessions as [|[u0 x] l IH]; simpl; [tauto|].
  destruct (Z.eqb_spec u0 u); [intuition discriminate|tauto].
Qed.

Lemma lookup_store k v u sessions :
  lookup u (store k v sessions) = if k =? u then Some v else lookup u sessions.
Proof.
  induction sessions as [|[u0 x] l IH]; simpl.
  - reflexivity.
  - destruct (Z.eqb_spec u0 k) as [->|Hk]; simpl.
    + now destruct (k =? u).
    + rewrite IH. destruct (Z.eqb_spec u0 u), (Z.eqb_spec k u); congruence.
Qed.

Lemma store_keys k v sessions :
  map fst (store k v sessions)
  = match lookup k sessions with
    | Some _ => map fst sessions
    | None => (map fst sessions ++ [k])%list
    end.
Proof.
  induction sessions as [|[u0 x] l IH]; simpl; [reflexivity|].
  destruct (Z.eqb_spec u0 k) as [->|Hk]; simpl; [reflexivity|].
  rewrite IH. now destruct (lookup k l).
Qed.

Lemma store_NoDup k v sessions :
  NoDup (map fst sessions) -> NoDup (map fst (store k v sessions)).
Proof.
  intros H. rewrite store_keys. destruct (lookup k sessions) eqn:E; [exact H|].
  apply NoDup_snoc; [exact H|now apply lookup_None].
Qed.

Lemma lookup_filter (keep : Z * Session -> bool) u sessions :
  NoDup (map fst sessions) ->
  lookup u (filter keep sessions)
  = match lookup u sessions with
    | Some session => if keep (u, session) then Some session else None
    | None => None
    end.
Proof.
  induction sessions as [|[u0 x] l IH]; simpl; [reflexivity|].
  intros H. inversion H as [|? ? Hn Hl]; subst. specialize (IH Hl).
  destruct (Z.eqb_spec u0 u) as [->|Hne].
  - destruct (keep (u, x)) eqn:Ek; simpl.
    + now rewrite Z.eqb_refl.
    + rewrite IH. apply lookup_None in Hn. now rewrite Hn.
  - destruct (keep (u0, x)); simpl; [|exact IH].
    destruct (Z.eqb_spec u0 u); [contradiction|exact IH].
Qed.

Lemma filter_keys_NoDup (keep : Z * Session -> bool) sessions :
  NoDup (map fst sessions) -> NoDup (map fst (filter keep sessions)).
Proof.
  induction sessions as [|[u0 x] l IH]; simpl; [auto|].
  intros H. inversion H as [|? ? Hn Hl]; subst.
  destruct (keep (u0, x)); simpl; [|auto]. constructor; [|auto].
  intros Hin. apply Hn. apply in_map_iff in Hin as (us & <- & Hin).
  apply filter_In in Hin as (Hin & _). now apply in_map.
Qed.

Lemma fold_delete to_delete : forall sessions,
  fold_left (fun sessions user_id => delete user_id sessions) to_delete sessions
  = filter (fun us => negb (existsb (Z.eqb (fst us)) to_delete)) sessions.
Proof.
  induction to_delete as [|k keys IH]; intros sessions; simpl.
  - induction sessions as [|us l IHl]; simpl; [reflexivity|]. now rewrite <- IHl.
  - rewrite IH. unfold delete.
    induction sessions as [|us l IHl]; simpl; [reflexivity|].
    destruct (fst us =? k); simpl; [exact IHl|].
    destruct (existsb _ keys); simpl; [exact IHl|]. now rewrite IHl.
Qed.

(** With one session for a user, the clean-up drops the sessions that
    have been idle for more than an hour and no other. *)
Lemma _cleanup_old_sessions_filter now sessions :
  NoDup (map fst sessions) ->
  _cleanup_old_sessions now sessions
  = filter (fun us => negb (session_timeout <? now - last_activity (snd us))) sessions.
Proof.
  intros Hnd. unfold _cleanup_old_sessions. rewrite fold_delete.
  apply filter_ext_in. intros [u x] Hin. simpl. f_equal.
  destruct (session_timeout <? now - last_activity x) eqn:Ex.
  - apply existsb_exists. exists u. split; [|apply Z.eqb_refl].
    apply in_map_iff. exists (u, x). split; [reflexivity|].
    apply filter_In. auto.
  - destruct (existsb _ _) eqn:Ee; [|reflexivity].
    apply existsb_exists in Ee as (u' & Hu' & Eu).
    apply Z.eqb_eq in Eu. subst u'.
    apply in_map_iff in Hu' as ([u' x'] & Eu & Hin'). simpl in Eu. subst u'.
    apply filter_In in Hin' as (Hin' & Ex'). simpl in Ex'.
    assert (x' = x); [|congruence].
    clear - Hnd Hin Hin'. induction sessions as [|[u0 x0] l IH]; [contradiction|].
    simpl in Hnd. inversion Hnd as [|? ? Hn Hl]; subst.
    destruct Hin as [E|Hin]; destruct Hin' as [E'|Hin']; auto.
    + congruence.
    + injection E as -> ->. exfalso. apply Hn. apply in_map_iff. now exists (u, x').
    + injection E' as -> ->. exfalso. apply Hn. apply in_map_iff. now exists (u, x).
Qed.

End ChatSessionsFacts.

(** X15.  A chat session keeps the model it was opened on.  When the
    user has a session that has not been idle for more than an hour,
    [_chat_with_google] sends the message on the chat of that session,
    whatever model it is called with: a model the fallback engine has
    rotated to is not used for this user.  A chat is opened on the model
    of the call only when the user has no session or his session has
    expired.  In both cases the user has one session afterwards, of that
    chat and with the new time of activity; the sessions of the other
    users are the ones that have not expired, as they were. *)
Theorem chat_session_keeps_its_model model_name user_id now0 now1 now2 sessions :
  NoDup (map fst sessions) ->
  let expired (session : ChatSessions.Session) :=
    ChatSessions.session_timeout <? now0 - ChatSessions.last_activity session in
  let chat :=
    match ChatSessions.lookup user_id sessions with
    | Some session =>
        if expired session then model_name else ChatSessions.chat session
    | None => model_name
    end in
  exists sessions',
    ChatSessions.open_session model_name user_id now0 now1 now2 sessions
    = (Return chat, sessions') /\
    ChatSessions.lookup user_id sessions' = Some (ChatSessions.mkSession chat now2) /\
    NoDup (map fst sessions') /\
    forall u, u <> user_id ->
      ChatSessions.lookup u sessions'
      = match ChatSessions.lookup u sessions with
        | Some session => if expired session then None else Some session
        | None => None
        end.
Proof.
  intros Hnd expired chat. unfold ChatSessions.open_session.
  rewrite (ChatSessionsFacts._cleanup_old_sessions_filter now0 sessions Hnd).
  set (keep := fun us : Z * ChatSessions.Session =>
                 negb (ChatSessions.session_timeout
                       <? now0 - ChatSessions.last_activity (snd us))).
  set (sessions1 := filter keep sessions).
  assert (Hnd1 : NoDup (map fst sessions1)) by now apply ChatSessionsFacts.filter_keys_NoDup.
  assert (Hl1 : forall u,
            ChatSessions.lookup u sessions1
            = match ChatSessions.lookup u sessions with
              | Some session => if expired session then None else Some session
              | None => None
              end).
  { intros u. subst sessions1. rewrite ChatSessionsFacts.lookup_filter by exact Hnd.
    destruct (ChatSessions.lookup u sessions) as [x|]; [|reflexivity].
    unfold keep, expired. simpl. now destruct (_ <? _). }
  cbv zeta.
  destruct (ChatSessions.lookup user_id sessions1) as [x1|] eqn:E1.
  - rewrite E1. eexists. split; [|split; [|split]].
    + f_equal. f_equal. subst chat. rewrite Hl1 in E1.
      destruct (ChatSessions.lookup user_id sessions) as [x|]; [|discriminate].
      destruct (expired x); [discriminate|]. now injection E1 as ->.
    + rewrite ChatSessionsFacts.lookup_store, Z.eqb_refl. do 2 f_equal.
      subst chat. rewrite Hl1 in E1.
      destruct (ChatSessions.lookup user_id sessions) as [x|]; [|discriminate].
      destruct (expired x); [discriminate|]. now injection E1 as ->.
    + now apply ChatSessionsFacts.store_NoDup.
    + intros u Hu. rewrite ChatSessionsFacts.lookup_store.
      destruct (Z.eqb_spec user_id u); [congruence|]. apply Hl1.
  - rewrite ChatSessionsFacts.lookup_store, Z.eqb_refl.
    assert (Ec : chat = model_name).
    { subst chat. rewrite Hl1 in E1.
      destruct (ChatSessions.lookup user_id sessions) as [x|]; [|reflexivity].
      now destruct (expired x). }
    rewrite Ec. eexists. split; [reflexivity|]. split; [|split].
    + now rewrite ChatSessionsFacts.lookup_store, Z.eqb_refl.
    + now do 2 apply ChatSessionsFacts.store_NoDup.
    + intros u Hu. rewrite !ChatSessionsFacts.lookup_store.
      destruct (Z.eqb_spec user_id u); [congruence|]. apply Hl1.
Qed.

(** ** The command layer *)

Lemma lstrip_solid c s : Py.is_space c = false -> Py.lstrip (String c s) = String c s.
Proof. intros H. simpl. now rewrite H. Qed.

Lemma rstrip_solid s c :
  last_char s = Some c -> Py.is_space c = false -> Py.rstrip s = s.
Proof.
  intros Hl Hc. induction s as [|a s IH]; [reflexivity|].
  destruct s as [|b s].
  - simpl in *. injection Hl as ->. now rewrite Hc.
  - change (last_char (String a (String b s))) with (last_char (String b s)) in Hl.
    specialize (IH Hl). cbn [Py.rstrip] in *. now rewrite IH.
Qed.

Lemma no_space_last w c : no_space w = true -> last_char w = Some c -> Py.is_space c = false.
Proof.
  induction w as [|a w IH]; [discriminate|].
  intros H Hl. cbn [no_space] in H. apply andb_prop in H as (Ha & Hw).
  destruct w as [|b w].
  - simpl in Hl. injection Hl as <-. now destruct (Py.is_space a).
  - apply IH; assumption.
Qed.

Lemma last_char_nonempty s : s <> EmptyString -> exists c, last_char s = Some c.
Proof.
  induction s as [|a s IH]; [contradiction|]. intros _.
  destruct s as [|b s]; [now exists a|]. apply IH. discriminate.
Qed.

Lemma len_app a b : Py.len (a ++ b) = Py.len a + Py.len b.
Proof. induction a as [|c a IH]; simpl; [reflexivity|]. rewrite IH. lia. Qed.

Lemma len_nonneg s : 0 <= Py.len s.
Proof. induction s as [|c s IH]; simpl; [lia|]. destruct (Py.is_continuation c); lia. Qed.

Lemma is_word_nonempty w : is_word w -> w <> EmptyString.
Proof. intros (H & _) ->. simpl in H. lia. Qed.

(** Words joined by spaces: nothing for [strip()] to remove. *)
Lemma strip_join_words words :
  Forall is_word words -> Py.strip (Py.join " " words) = Py.join " " words.
Proof.
  intros H. destruct words as [|w words]; [reflexivity|].
  assert (Hlast : exists c, last_char (Py.join " " (w :: words)) = Some c /\
                            Py.is_space c = false).
  { revert w H. induction words as [|w' words IH]; intros w H.
    - inversion H as [|? ? Hw _]; subst. simpl.
      destruct (last_char_nonempty w (is_word_nonempty w Hw)) as (c & Hc). exists c.
      split; [exact Hc|]. destruct Hw as (_ & Hns). eapply no_space_last; eauto.
    - inversion H as [|? ? _ H']; subst.
      destruct (IH w' H') as (c & Hc & Hs). exists c. split; [|exact Hs].
      change (Py.join " " (w :: w' :: words))
        with (w ++ " " ++ Py.join " " (w' :: words)).
      rewrite last_char_app; [|discriminate].
      rewrite last_char_app; [exact Hc|].
      intros E. rewrite E in Hc. discriminate. }
  destruct Hlast as (c & Hc & Hs).
  inversion H as [|? ? Hw _]; subst.
  pose proof (is_word_nonempty w Hw) as Hne. destruct Hw as (_ & Hns).
  assert (Hfirst : exists a rest, Py.join " " (w :: words) = String a rest /\
                                  Py.is_space a = false).
  { destruct w as [|a w]; [contradiction|].
    cbn [no_space] in Hns. apply andb_prop in Hns as (Ha & _).
    exists a. destruct words; simpl; eexists; (split; [reflexivity|]);
      now destruct (Py.is_space a). }
  destruct Hfirst as (a & rest & Ej & Ha).
  unfold Py.strip. rewrite Ej in *. rewrite (lstrip_solid a rest Ha).
  now apply (rstrip_solid _ c).
Qed.

Lemma truthy_join_len s : 1 <= Py.len s -> Py.truthy (Some s) = true.
Proof. destruct s; simpl; [lia|reflexivity]. Qed.

(** The bot's test on the length implies the manager's. *)
Lemma words_not_too_short words n :
  Forall is_word words -> 1 <= n -> n <= Py.len (Py.join " " words) ->
  too_short (Py.join " " words) n = false.
Proof.
  intros Hw Hn Hlen. unfold too_short.
  rewrite strip_join_words by exact Hw.
  rewrite truthy_join_len by lia. simpl.
  apply Z.ltb_ge. exact Hlen.
Qed.

Lemma join_words_len w words : is_word w -> 1 <= Py.len (Py.join " " (w :: words)).
Proof.
  intros (H & _). destruct words as [|w' words]; [exact H|].
  change (Py.join " " (w :: w' :: words)) with (w ++ " " ++ Py.join " " (w' :: words)).
  rewrite len_app. pose proof (len_nonneg (" " ++ Py.join " " (w' :: words))). lia.
Qed.

Lemma serve_not_invalid env st svc mr enh today u s s' :
  serve env st svc mr enh today u s <> (Return InvalidInput, s').
Proof.
  intros E. apply serve_cases in E as (allowed & remaining & s1 & Ec & E).
  destruct E as [(_ & ? & _)|[(_ & _ & ? & _)|(_ & _ & s2 & _ & E)]]; try discriminate.
  destruct (provider_loop_outcome env st svc mr today u (get_available_providers st s1) [] s2)
    as (o & s3 & E3 & Ho).
  rewrite E3 in E. injection E as -> _.
  destruct Ho as [(payload & ? & _)|(new & Ho & _)]; [discriminate|].
  unfold after_loop in Ho. destruct ([] ++ new)%list; discriminate.
Qed.

(** An entry point answers that the text is too short only when it is. *)
Lemma entry_point_invalid_input env st today u text s s' :
  entry_point env st today u text s = (Return InvalidInput, s') ->
  too_short text (min_length_of st) = true.
Proof.
  rewrite entry_point_eq. intros E.
  destruct (too_short text (min_length_of st)) eqn:Et; [reflexivity|]. exfalso.
  destruct (ensure_discovery_completes env s) as (sd & Ed & _).
  unfold handle_request, try_except, bind at 1 in E. rewrite Ed in E.
  destruct (u <=? 0); [discriminate|]. rewrite Et in E.
  destruct (serve env st (usage_service_of st) (max_retries_of st) (enhances_prompt st)
                  today u sd) as [[o|msg] s0] eqn:Es; [|discriminate].
  injection E as -> ->. now apply serve_not_invalid in Es.
Qed.

Lemma removelast_words args : Forall is_word args -> Forall is_word (removelast args).
Proof.
  intros H. apply Forall_forall. intros w Hw. rewrite Forall_forall in H. apply H.
  clear - Hw. induction args as [|a args IH]; [contradiction|].
  simpl in Hw. destruct args as [|b args]; [contradiction|].
  destruct Hw as [<-|Hw]; [now left|right; auto].
Qed.

Lemma image_prompt_words args :
  Forall is_word args ->
  exists words, Forall is_word words /\
                fst (Bot.image_prompt_and_style args) = Py.join " " words.
Proof.
  intros H. unfold Bot.image_prompt_and_style. cbv zeta. cbn [fst].
  match goal with |- context [if ?b then args else removelast args] => destruct b end.
  - now exists args.
  - exists (removelast args). split; [now apply removelast_words|reflexivity].
Qed.

(** X16.  What the command layer lets through, the manager does not turn
    away as too short, for chat and for images.  With the words a
    command is called with, words that hold a character at least and no
    white space, [chat_command] answers with its help text or with what
    [chat_with_ai] returns, [image_command] with its help text, with
    its own message for a prompt of less than 3 characters, or with what
    [generate_image] returns; and what the manager returns is never its
    message for a text that is empty or too short.  The style
    [image_command] reads is one of the five it knows. *)
Theorem accepted_commands_are_long_enough env today user_id args s :
  Forall is_word args ->
  (exists reply s',
     Bot.chat_command env today user_id args s = (Return reply, s') /\
     ((args = [] /\ reply = Bot.UsageText /\ s' = s) \/
      (exists o, reply = Bot.Answer o /\ o <> InvalidInput /\
                 chat_with_ai env today user_id (Py.join " " args) s = (Return o, s')))) /\
  (exists reply s',
     Bot.image_command env today user_id args s = (Return reply, s') /\
     ((args = [] /\ reply = Bot.UsageText /\ s' = s) \/
      (reply = Bot.PromptTooShort /\ s' = s) \/
      (exists o, reply = Bot.Answer o /\ o <> InvalidInput /\
                 generate_image env today user_id
                   (fst (Bot.image_prompt_and_style args)) s = (Return o, s')))) /\
  In (snd (Bot.image_prompt_and_style args)) Bot.image_styles.
Proof.
  intros Hw. split; [|split].
  - unfold Bot.chat_command. destruct args as [|w args].
    + exists Bot.UsageText, s. split; [reflexivity|]. left. auto.
    + set (message := Py.join " " (w :: args)).
      assert (Hlen : 1 <= Py.len message).
      { subst message. apply join_words_len. now inversion Hw. }
      rewrite (truthy_join_len message Hlen). cbn [negb].
      destruct (entry_point_returns env CHAT today user_id message s) as (o & s' & E).
      change (entry_point env CHAT) with (chat_with_ai env) in E.
      exists (Bot.Answer o), s'. unfold try_except, bind. rewrite E.
      split; [reflexivity|]. right. exists o. repeat split; auto.
      intros ->. change (chat_with_ai env) with (entry_point env CHAT) in E.
      apply entry_point_invalid_input in E. subst message.
      rewrite words_not_too_short in E; [discriminate|exact Hw|simpl; lia|exact Hlen].
  - unfold Bot.image_command. destruct args as [|w args].
    + exists Bot.UsageText, s. split; [reflexivity|]. left. auto.
    + destruct (image_prompt_words (w :: args) Hw) as (words & Hwords & Ep).
      destruct (Bot.image_prompt_and_style (w :: args)) as [prompt style].
      cbn [fst] in *. subst prompt.
      destruct (Z.ltb_spec (Py.len (Py.join " " words)) 3) as [Hlt|Hge].
      * exists Bot.PromptTooShort, s. split; [reflexivity|]. right; left. auto.
      * destruct (entry_point_returns env IMAGE today user_id (Py.join " " words) s)
          as (o & s' & E).
        change (entry_point env IMAGE) with (generate_image env) in E.
        exists (Bot.Answer o), s'. unfold try_except, bind. rewrite E.
        split; [reflexivity|]. right; right. exists o. repeat split; auto.
        intros ->. change (generate_image env) with (entry_point env IMAGE) in E.
        apply entry_point_invalid_input in E.
        rewrite words_not_too_short in E; [discriminate|exact Hwords|simpl; lia|exact Hge].
  - unfold Bot.image_prompt_and_style. cbv zeta. cbn [snd].
    destruct (existsb (String.eqb (last args "")) Bot.image_styles) eqn:E.
    + now apply existsb_eqb_In in E.
    + now left.
Qed.

Lemma len_lstrip_le s : Py.len (Py.lstrip s) <= Py.len s.
Proof.
  induction s as [|c s IH]; simpl; [lia|].
  destruct (Py.is_space c); simpl; destruct (Py.is_continuation c); lia.
Qed.

Lemma len_rstrip_le s : Py.len (Py.rstrip s) <= Py.len s.
Proof.
  induction s as [|c s IH]; [simpl; lia|]. cbn [Py.rstrip].
  destruct (Py.rstrip s) as [|a r].
  - destruct (Py.is_space c); simpl in *; destruct (Py.is_continuation c);
      pose proof (len_nonneg s); lia.
  - cbn [Py.len] in *. lia.
Qed.

Lemma len_strip_le s : Py.len (Py.strip s) <= Py.len s.
Proof.
  unfold Py.strip. pose proof (len_rstrip_le (Py.lstrip s)). pose proof (len_lstrip_le s). lia.
Qed.

(** X17.  [video_command] and [generate_video] do not agree on the
    shortest prompt: the command layer lets a prompt of 4 characters
    through, and the manager turns away every prompt of less than 5
    characters.  Such a command, from a valid user, is answered with
    the manager's message for a text that is too short; no backend is
    called and the quota of the user is not touched. *)
Theorem video_prompt_of_four_characters_is_turned_away env today user_id args s :
  args <> [] ->
  Py.len (Py.join " " args) = 4 ->
  0 < user_id ->
  exists s',
    Bot.video_command env today user_id args s = (Return (Bot.Answer InvalidInput), s') /\
    calls s' = calls s /\ user_limits_cache s' = user_limits_cache s /\
    ai_usage s' = ai_usage s /\ db_ops s' = db_ops s.
Proof.
  intros Hne Hlen Hu. unfold Bot.video_command.
  destruct args as [|w args]; [contradiction|].
  set (prompt := Py.join " " (w :: args)) in *. rewrite Hlen. cbn [Z.ltb Z.compare Pos.compare Pos.compare_cont].
  assert (Hshort : too_short prompt (min_length_of VIDEO) = true).
  { unfold too_short. apply orb_true_intro. right.
    apply Z.ltb_lt. pose proof (len_strip_le prompt). simpl. lia. }
  destruct (ensure_discovery_completes env s) as (sd & Ed & _).
  pose proof (ensure_discovery_same_store env s _ sd Ed) as (Hc & _ & Hus & Ho & Hcalls).
  exists sd. split; [|auto].
  unfold try_except, bind at 1, generate_video, try_except, bind at 1. rewrite Ed.
  destruct (Z.leb_spec user_id 0); [lia|].
  change 5 with (min_length_of VIDEO). now rewrite Hshort.
Qed.

(** ** Backends without a catalogue *)

Lemma no_models_msg_is_not_quota_style st : quota_style (no_models_msg st) = false.
Proof. destruct st; vm_compute; reflexivity. Qed.

Lemma reached_bearer_has_no_model env s p st :
  reached_inv env s -> is_bearer p = true ->
  models_of (providers s p) st = [] /\
  ProviderConfig.active_models (providers s p) st = None.
Proof.
  intros (Hl & Hi) Hb.
  assert (Hm : models_of (providers s p) st = []).
  { destruct (Hl p st) as [E|E]; [exact E|]. rewrite E.
    destruct p; try discriminate; reflexivity. }
  split; [exact Hm|].
  destruct (ProviderConfig.active_models (providers s p) st) as [m|] eqn:Ea; [|reflexivity].
  exfalso. destruct (discovery_completed s).
  - destruct Hi as [H1 _ _]. specialize (H1 p st m Ea). unfold listed in H1.
    now rewrite Hm in H1.
  - destruct Hi as (Hcat & _). destruct (Hcat p st) as ([Hn|(m0 & rest & Em & _)] & _);
      congruence.
Qed.

Lemma get_available_services_In s st :
  In (service_label st, true) (get_available_services s) <->
  exists p, In p (get_available_providers st s).
Proof.
  assert (H : forall l : list Provider, (0 <? length l)%nat = true <-> exists p, In p l).
  { intros [|p l]; simpl; split; try discriminate; eauto. intros (p & []). }
  unfold get_available_services. rewrite <- H.
  destruct st; simpl; split; intros Hin.
  all: try (repeat destruct Hin as [Hin|Hin]; try discriminate; try contradiction;
            now injection Hin).
  all: rewrite Hin; auto.
Qed.

(** X18.  Stability, Luma and Kling are offered but never answer.
    Discovery enables them on their credential and lists no model for
    them; so, in every state the manager reaches from its creation by
    requests and resets, the fallback engine asked for one of them
    raises its failure without a call and leaves the manager as it is.
    Yet such a backend, once enabled and under its daily limit, is
    among the available backends of the capabilities it serves, and
    [get_available_services] reports these capabilities as available. *)
Theorem bearer_backends_are_offered_but_never_answer
    env ADMIN_IDS rows es p st max_retries :
  is_bearer p = true ->
  let s := run_events env ADMIN_IDS es (init env rows) in
  _execute_with_fallback env p st max_retries s
  = (Raise (if ProviderConfig.enabled (providers s p)
            then all_attempts_failed_msg p max_retries
            else not_enabled_msg p), s) /\
  (ProviderConfig.enabled (providers s p) = true ->
   ProviderConfig.usage_today (providers s p) < ProviderConfig.daily_limit (providers s p) ->
   supports st p = true ->
   In p (get_available_providers st s) /\
   In (service_label st, true) (get_available_services s)).
Proof.
  intros Hb s.
  assert (Hinv : reached_inv env s).
  { apply run_events_reached;
      [apply init_registry_ok|apply init_keys_respected|apply init_reached]. }
  pose proof (reached_registry_ok env ADMIN_IDS rows es) as Hr. fold s in Hr.
  destruct (reached_bearer_has_no_model env s p st Hinv Hb) as (Hm & Ha).
  split.
  - unfold _execute_with_fallback.
    destruct (ProviderConfig.enabled (providers s p)) eqn:He; cbn [negb]; [|reflexivity].
    unfold get_active_model. rewrite He, Ha. cbn [negb].
    destruct max_retries as [|n]; [reflexivity|].
    simpl attempts. unfold attempt_body. cbn [Py.truthy negb].
    unfold models_of in Hm.
    assert (E : match ProviderConfig.discovered_models (providers s p) st with
                | Some (m0 :: _) => False
                | _ => True
                end).
    { destruct (ProviderConfig.discovered_models (providers s p) st) as [[|? ?]|];
        [exact I|discriminate|exact I]. }
    destruct (ProviderConfig.discovered_models (providers s p) st) as [[|? ?]|];
      try contradiction;
      now rewrite (on_attempt_error_other p st None _ s (no_models_msg_is_not_quota_style st)).
  - intros He Hlt Hs.
    assert (Hin : In p (get_available_providers st s)).
    { apply get_available_providers_In, is_available_iff. rewrite Hr. auto. }
    split; [exact Hin|]. apply get_available_services_In. eauto.
Qed.

(** ** Discovery runs once *)

Lemma run_event_settings env ADMIN_IDS e s :
  registry_ok s -> discovery_completed s = true ->
  discovery_completed (run_event env ADMIN_IDS s e) = true /\
  forall p, same_settings (providers s p) (providers (run_event env ADMIN_IDS s e) p).
Proof.
  intros Hr Hd. destruct e as [[[[st today] u] text]|today user_id]; simpl.
  - destruct (entry_point env st today u text s) as [r s'] eqn:E. simpl.
    rewrite entry_point_eq in E.
    apply handle_request_discovers in E as (sd & Ed & E).
    unfold ensure_discovery in Ed. rewrite Hd in Ed. injection Ed as <-.
    destruct E as [(-> & _)|(_ & _ & r0 & E)].
    + split; [exact Hd|]. intros p. repeat split.
    + pose proof (serve_flag _ _ _ _ _ _ _ _ _ _ Hr E) as Hf.
      apply serve_footprint in E as (_ & Hset & _); [|exact Hr].
      split; [congruence|exact Hset].
  - destruct (reset_cache_command_fields ADMIN_IDS today user_id s) as (_ & Hf & _).
    split; [congruence|]. intros p.
    destruct (reset_cache_command_providers ADMIN_IDS today user_id s p) as [->| ->];
      repeat split.
Qed.

Lemma same_settings_trans a b c : same_settings a b -> same_settings b c -> same_settings a c.
Proof.
  intros (? & ? & ? & ? & ?) (? & ? & ? & ? & ?). repeat split; congruence.
Qed.

Lemma run_events_settings env ADMIN_IDS es : forall s,
  registry_ok s -> keys_respected env s -> discovery_completed s = true ->
  discovery_completed (run_events env ADMIN_IDS es s) = true /\
  forall p, same_settings (providers s p) (providers (run_events env ADMIN_IDS es s) p).
Proof.
  induction es as [|e es IH]; intros s Hr Hk Hd; simpl.
  - split; [exact Hd|]. intros p. repeat split.
  - destruct (run_event_settings env ADMIN_IDS e s Hr Hd) as (Hd1 & Hs1).
    destruct (run_event_registry env ADMIN_IDS e s Hr Hk) as (Hr1 & Hk1).
    destruct (IH _ Hr1 Hk1 Hd1) as (Hd2 & Hs2). split; [exact Hd2|].
    intros p. eapply same_settings_trans; [apply Hs1|apply Hs2].
Qed.

(** X19.  Discovery runs once, with the first request, and what it
    decides is final: whatever requests and resets come after the first
    request, every backend keeps its credential, its daily limit, its
    being enabled or not, and its ranked lists of models.  A backend
    that discovery has left disabled is not enabled later, and a
    catalogue is not refreshed. *)
Theorem first_request_settles_the_backends env ADMIN_IDS rows before request after p :
  let s1 := run_events env ADMIN_IDS (before ++ [Ask request]) (init env rows) in
  let s2 := run_events env ADMIN_IDS after s1 in
  discovery_completed s1 = true /\ discovery_completed s2 = true /\
  ProviderConfig.api_key (providers s2 p) = ProviderConfig.api_key (providers s1 p) /\
  ProviderConfig.daily_limit (providers s2 p) = ProviderConfig.daily_limit (providers s1 p) /\
  ProviderConfig.enabled (providers s2 p) = ProviderConfig.enabled (providers s1 p) /\
  ProviderConfig.discovered_models (providers s2 p)
  = ProviderConfig.discovered_models (providers s1 p).
Proof.
  intros s1 s2.
  destruct (run_events_registry env ADMIN_IDS (before ++ [Ask request]) (init env rows)
              (init_registry_ok env rows) (init_keys_respected env rows)) as (Hr1 & Hk1).
  fold s1 in Hr1, Hk1.
  assert (Hd1 : discovery_completed s1 = true).
  { subst s1. unfold run_events. rewrite fold_left_app. simpl.
    set (s0 := fold_left (run_event env ADMIN_IDS) before (init env rows)).
    assert (Hr0 : registry_ok s0) by apply reached_registry_ok.
    destruct request as [[[st today] u] text]. simpl.
    destruct (entry_point env st today u text s0) as [r s'] eqn:E. simpl.
    rewrite entry_point_eq in E.
    apply handle_request_discovers in E as (sd & Ed & E).
    destruct (ensure_discovery_completes env s0) as (sd' & Ed' & Hdone).
    assert (sd' = sd) by congruence. subst sd'.
    destruct E as [(-> & _)|(_ & _ & r0 & E)]; [exact Hdone|].
    pose proof (ensure_discovery_registry env s0 _ sd Hr0 Ed) as Hrd.
    rewrite (serve_flag _ _ _ _ _ _ _ _ _ _ Hrd E). exact Hdone. }
  destruct (run_events_settings env ADMIN_IDS after s1 Hr1 Hk1 Hd1) as (Hd2 & Hs).
  destruct (Hs p) as (_ & Hkey & Hen & Hlim & Hdisc).
  fold s2 in Hd2, Hkey, Hen, Hlim, Hdisc.
  repeat split; assumption.
Qed.

(** ** What a request charges *)

Lemma nothing_charged_refl s : nothing_charged s s.
Proof. split; reflexivity. Qed.

Lemma charges_after_nothing k ps s s1 r s' :
  nothing_charged s s1 -> charges k ps s1 r s' -> charges k ps s r s'.
Proof.
  intros (Hu & Hq) H. unfold charges in *.
  destruct r as [[reply| | | | | | |]|msg];
    try (destruct H as (Hu' & Hq'); split; [congruence|intros q; rewrite Hq'; apply Hq]).
  destruct H as (Hne & (Hk & Hk') & p & Hin & Hp & Hp').
  split; [exact Hne|]. split.
  - unfold charged_once, stored in *. rewrite Hu in *. auto.
  - exists p. split; [exact Hin|]. split; [now rewrite <- Hq|].
    intros q Hqp. rewrite <- Hq. now apply Hp'.
Qed.

Lemma charges_incl k ps ps' s r s' :
  incl ps ps' -> charges k ps s r s' -> charges k ps' s r s'.
Proof.
  intros Hi H. unfold charges in *. destruct r as [[reply| | | | | | |]|msg]; auto.
  destruct H as (Hne & Hc & p & Hin & Hp). eauto 6.
Qed.

Section Charges.
Variable env : Environment.
Hypothesis store_answers : forall n, db_fault env n = None.

Lemma try_provider_charges st svc mr today u pc s r s' :
  cache_inv (u, today, svc) s ->
  try_provider env st svc mr today u pc s = (r, s') ->
  match r with
  | Return (Some o) => charges (u, today, svc) [pc] s (Return o) s' /\ is_success o
  | _ => nothing_charged s s'
  end.
Proof.
  intros Hi E. apply try_provider_steps in E as (r1 & s1 & E1 & E).
  apply _execute_with_fallback_footprint in E1.
  destruct E1 as [Hc1 Hz1 _ Hu1 _ Hoth1 (_ & _ & _ & _ & Hus1 & _) _ _].
  pose proof (cache_inv_ext _ _ _ Hc1 Hz1 Hu1 Hi) as Hi1.
  assert (Hq1 : forall q, ProviderConfig.usage_today (providers s1 q)
                          = ProviderConfig.usage_today (providers s q)).
  { intros q.
    destruct (Provider_eqb_spec q (ProviderConfig.name (providers s pc))) as [->|Hne];
      [exact Hus1|now rewrite Hoth1]. }
  destruct E as [(msg & _ & -> & ->)|[(_ & -> & ->)|(resp & b & s2 & r4 & _ & Hne & E2 & E4 & Hr)]];
    [split; assumption|split; assumption|].
  destruct Hi1 as (Hinv1 & Hlen1 & Hin1).
  destruct (update_user_usage_spec env today u svc s1 Hinv1 Hin1 (store_answers _))
    as (s2' & E2' & _ & _ & Hst & Hst').
  rewrite E2 in E2'. injection E2' as _ <-.
  apply update_user_usage_footprint in E2. destruct E2 as [Hp2 _ _ _].
  rewrite db_save_answers in E4 by exact store_answers. injection E4 as <- <-.
  destruct Hr as [(_ & ->)|(msg & ? & _)]; [|discriminate].
  split; [|exists resp; auto].
  split; [exact Hne|]. split.
  - unfold stored in *. simpl. rewrite Hu1 in *. split; [exact Hst|exact Hst'].
  - exists pc. split; [now left|]. split; simpl.
    + rewrite Provider_eqb_refl. simpl. now rewrite Hp2, Hq1.
    + intros q Hq. destruct (Provider_eqb_spec pc q); [congruence|]. now rewrite Hp2, Hq1.
Qed.

Lemma provider_loop_charges st svc mr today u ps : forall errors s r s',
  cache_inv (u, today, svc) s ->
  provider_loop env st svc mr today u ps errors s = (r, s') ->
  charges (u, today, svc) ps s r s'.
Proof.
  induction ps as [|pc rest IH]; simpl provider_loop; intros errors s r s' Hi E.
  - inversion E; subst. unfold charges, after_loop.
    destruct errors; apply nothing_charged_refl.
  - destruct (try_provider env st svc mr today u pc s) as [r1 s1] eqn:E1.
    pose proof (try_provider_charges _ _ _ _ _ _ _ _ _ Hi E1) as Hc1.
    apply try_provider_cache in E1 as (Hi1 & _); [|exact store_answers|exact Hi].
    destruct r1 as [[o|]|msg].
    + inversion E; subst. destruct Hc1 as (Hc1 & _).
      eapply charges_incl; [|exact Hc1]. intros x [->|[]]. now left.
    + apply IH in E; [|exact Hi1].
      eapply charges_after_nothing; [exact Hc1|].
      eapply charges_incl; [|exact E]. intros x Hx. now right.
    + apply IH in E.
      * eapply charges_after_nothing; [exact Hc1|].
        eapply charges_after_nothing;
          [|eapply charges_incl; [|exact E]; intros x Hx; now right].
        split; [reflexivity|]. intros q. simpl.
        now destruct (Provider_eqb_spec pc q) as [<-|].
      * eapply (cache_inv_ext _ s1); try reflexivity. exact Hi1.
Qed.

Lemma serve_charges st svc mr enh today u s r s' :
  quota_inv s -> (length (user_limits_cache s) <= max_cache_size s)%nat ->
  serve env st svc mr enh today u s = (r, s') ->
  charges (u, today, svc) (get_available_providers st s) s r s'.
Proof.
  intros Hinv Hlen E.
  apply serve_cases in E as (allowed & remaining & s1 & Ec & E).
  destruct (check_user_limit_spec env today u svc s Hinv (or_intror (store_answers _)))
    as (s1' & Ec' & Hinv1 & Hlast1 & Hu1).
  destruct (check_user_limit_length env today u svc s Hlen) as (Hlen1 & _).
  rewrite Ec in Ec', Hlen1. injection Ec' as _ <-. cbn [snd] in Hlen1.
  apply check_user_limit_footprint in Ec. destruct Ec as [Hp1 _ _ _].
  assert (Hn1 : nothing_charged s s1) by (split; [exact Hu1|intros q; now rewrite Hp1]).
  assert (Hi1 : cache_inv (u, today, svc) s1).
  { split; [exact Hinv1|]. split; [exact Hlen1|].
    rewrite (cached_last_get _ _ _ Hlast1). discriminate. }
  destruct E as [(_ & -> & ->)|[(_ & _ & -> & ->)|(_ & _ & s2 & Hs2 & E)]];
    [exact Hn1|exact Hn1|].
  apply provider_loop_charges in E.
  - rewrite (get_available_providers_ext s s1) in E by exact Hp1.
    eapply charges_after_nothing; [|exact E].
    destruct Hn1 as (Hu & Hq). destruct Hs2 as [->|(m & _ & ->)]; split; auto.
  - destruct Hs2 as [->|(m & _ & ->)]; [exact Hi1|].
    eapply (cache_inv_ext _ s1); try reflexivity. exact Hi1.
Qed.

Lemma entry_point_charges st today u text s r s' :
  quota_inv s -> (length (user_limits_cache s) <= max_cache_size s)%nat ->
  entry_point env st today u text s = (r, s') ->
  exists sd,
    ensure_discovery env s = (Return tt, sd) /\
    charges (u, today, usage_service_of st) (get_available_providers st sd) s r s'.
Proof.
  intros Hinv Hlen E. rewrite entry_point_eq in E. pose proof E as E0.
  apply handle_request_discovers in E as (sd & Ed & E). exists sd. split; [exact Ed|].
  pose proof (ensure_discovery_same_store env s _ sd Ed) as Hsame.
  pose proof (quota_inv_same_store _ _ Hsame Hinv) as Hinvd.
  pose proof (ensure_discovery_counters env s _ sd Ed) as Hcd.
  destruct Hsame as (Hc & Hz & Hu & _).
  assert (Hnd : nothing_charged s sd).
  { split; [exact Hu|]. intros q. specialize (Hcd q). unfold counters_of in Hcd.
    now injection Hcd. }
  destruct E as [(-> & [->| ->])|(Hpos & Ht & r0 & E)]; [exact Hnd|exact Hnd|].
  rewrite (handle_request_after_discovery env st today u text s sd Ed Hpos Ht) in E0.
  rewrite E in E0.
  apply serve_charges in E; [| exact Hinvd | now rewrite Hc, Hz].
  eapply charges_after_nothing; [exact Hnd|].
  destruct r0 as [o|msg]; injection E0 as <-; exact E.
Qed.

(** X20.  An answer is charged once, and nothing else is charged.
    While the store answers, in every state the manager reaches from its
    creation by requests and resets, a request that returns a result has
    added one to the stored count of its user, day and service, and one
    to the usage of one of the backends that were available, and has
    changed no other stored count and no other usage.  A request that
    returns anything else, a refusal or a failure of every backend,
    leaves the store and the usage of every backend as they were. *)
Theorem answer_is_charged_once_and_nothing_else ADMIN_IDS rows es st today user_id text :
  let s := run_events env ADMIN_IDS es (init env rows) in
  let k : UsageKey := (user_id, today, usage_service_of st) in
  exists o s' sd,
    entry_point env st today user_id text s = (Return o, s') /\
    ensure_discovery env s = (Return tt, sd) /\
    match o with
    | Success reply =>
        reply <> EmptyString /\
        stored s' k = stored s k + 1 /\
        (forall k', k' <> k -> stored s' k' = stored s k') /\
        exists p,
          In p (get_available_providers st sd) /\
          ProviderConfig.usage_today (providers s' p)
          = ProviderConfig.usage_today (providers s p) + 1 /\
          forall q, q <> p ->
            ProviderConfig.usage_today (providers s' q)
            = ProviderConfig.usage_today (providers s q)
    | _ =>
        ai_usage s' = ai_usage s /\
        forall q,
          ProviderConfig.usage_today (providers s' q)
          = ProviderConfig.usage_today (providers s q)
    end.
Proof.
  intros s k.
  destruct (run_events_cache env store_answers ADMIN_IDS es (init env rows))
    as (Hinv & Hl & _).
  { constructor; simpl; [|lia]. split; [constructor|]. intros k0 v H. discriminate H. }
  { simpl. lia. }
  fold s in Hinv, Hl.
  destruct (entry_point_returns env st today user_id text s) as (o & s' & E).
  destruct (entry_point_charges st today user_id text s _ s' Hinv Hl E) as (sd & Ed & Hc).
  exists o, s', sd. split; [exact E|]. split; [exact Ed|].
  unfold charges in Hc. fold k in Hc.
  destruct o; try exact Hc.
  destruct Hc as (Hne & (Hk & Hk') & p & Hin & Hp & Hp').
  split; [exact Hne|]. split; [exact Hk|]. split; [exact Hk'|]. eauto.
Qed.

End Charges.

(** ** Discovery keeps the backends apart *)

Lemma google_step_others env s q :
  q <> GOOGLE -> providers (google_step env s) q = providers s q.
Proof.
  intros Hq. unfold google_step, _setup_and_discover_google.
  destruct (negb _); [reflexivity|].
  destruct (genai_configure env); simpl snd;
    now rewrite providers_set_provider_other by exact Hq.
Qed.

Lemma openai_step_agree env1 env2 s1 s2 :
  openai_client env1 = openai_client env2 ->
  (forall q, q <> GOOGLE -> providers s1 q = providers s2 q) ->
  forall q, q <> GOOGLE ->
    providers (openai_step env1 s1) q = providers (openai_step env2 s2) q.
Proof.
  intros Hc H q Hq. unfold openai_step, _setup_and_discover_openai.
  rewrite (H OPENAI) by discriminate. rewrite Hc.
  destruct (negb _); [now apply H|].
  destruct (openai_client env2); simpl snd;
    (destruct (Provider_eqb_spec q OPENAI) as [->|Hne];
     [now rewrite !providers_set_provider_same
     |rewrite !providers_set_provider_other by exact Hne; now apply H]).
Qed.

Lemma setup_bearer_api_agree b s1 s2 :
  b <> GOOGLE ->
  (forall q, q <> GOOGLE -> providers s1 q = providers s2 q) ->
  forall q, q <> GOOGLE ->
    providers (setup_bearer_api b s1) q = providers (setup_bearer_api b s2) q.
Proof.
  intros Hb H q Hq. unfold setup_bearer_api. rewrite (H b Hb).
  destruct (ProviderConfig.api_key (providers s2 b)) as [key|]; [|now apply H].
  destruct (_ && _)%bool; [|now apply H].
  destruct (Provider_eqb_spec q b) as [->|Hne];
    [now rewrite !providers_set_provider_same
    |rewrite !providers_set_provider_other by exact Hne; now apply H].
Qed.

Lemma init_providers_agree env1 env2 q :
  (forall name, getenv env1 name = getenv env2 name) ->
  (forall name, getenv_int env1 name = getenv_int env2 name) ->
  _init_providers env1 q = _init_providers env2 q.
Proof.
  intros Hg Hi. unfold _init_providers, getenv_int_default. now rewrite Hg, Hi.
Qed.

(** X21.  Discovery keeps the backends apart.  When no step of
    discovery is interrupted, what discovery decides for OpenAI,
    Stability, Luma and Kling does not depend on what Google answers:
    with the same environment variables and the same answer of the
    OpenAI client, these four backends come out of discovery the same,
    whether [genai.configure] raises or not and whatever models
    [genai.list_models] lists. *)
Theorem discovery_of_google_does_not_reach_the_other_backends env1 env2 rows1 rows2 q :
  (forall name, getenv env1 name = getenv env2 name) ->
  (forall name, getenv_int env1 name = getenv_int env2 name) ->
  openai_client env1 = openai_client env2 ->
  (forall step, step_fault env1 step = None) ->
  (forall step, step_fault env2 step = None) ->
  q <> GOOGLE ->
  providers (snd (ensure_discovery env1 (init env1 rows1))) q
  = providers (snd (ensure_discovery env2 (init env2 rows2))) q.
Proof.
  intros Hg Hi Hc Hf1 Hf2 Hq.
  rewrite (ensure_discovery_runs env1 (init env1 rows1) eq_refl Hf1).
  rewrite (ensure_discovery_runs env2 (init env2 rows2) eq_refl Hf2).
  cbn [snd]. rewrite !providers_set_discovery_completed, !select_step_providers.
  f_equal. unfold other_step.
  assert (H0 : forall p, p <> GOOGLE ->
            providers (google_step env1 (init env1 rows1)) p
            = providers (google_step env2 (init env2 rows2)) p).
  { intros p Hp. rewrite !google_step_others by exact Hp. simpl.
    now apply init_providers_agree. }
  pose proof (openai_step_agree env1 env2 _ _ Hc H0) as H1.
  pose proof (setup_bearer_api_agree STABILITY _ _ ltac:(discriminate) H1) as H2.
  pose proof (setup_bearer_api_agree LUMA _ _ ltac:(discriminate) H2) as H3.
  exact (setup_bearer_api_agree KLING _ _ ltac:(discriminate) H3 q Hq).
Qed.

(** ** The statistics of the system *)

Lemma fold_sum_filter {A} (f : A -> Z) (g : A -> bool) l : forall a,
  (forall x, In x l -> g x = false -> f x = 0) ->
  fold_left (fun total x => total + f x) (filter g l) a
  = fold_left (fun total x => total + f x) l a.
Proof.
  induction l as [|x l IH]; intros a H; simpl; [reflexivity|].
  destruct (g x) eqn:Eg; simpl.
  - apply IH. intros y Hy. apply H. now right.
  - rewrite (H x (or_introl eq_refl) Eg), Z.add_0_r. apply IH.
    intros y Hy. apply H. now right.
Qed.

Lemma total_requests_today_total_usage active_sessions timestamp s :
  unused_when_disabled s ->
  SystemStats.total_requests_today (get_system_stats active_sessions timestamp s)
  = total_usage s.
Proof.
  intros (_ & H). unfold get_system_stats, total_usage. cbn [SystemStats.total_requests_today].
  apply (fold_sum_filter (fun p => ProviderConfig.usage_today (providers s p))).
  intros p _. apply H.
Qed.

Lemma total_usage_used_once p s s' : used_once p s s' -> total_usage s' = total_usage s + 1.
Proof.
  intros (Hp & Hq). unfold total_usage. simpl.
  destruct p; rewrite Hp, !Hq by discriminate; lia.
Qed.

Lemma total_usage_same s s' :
  (forall q, ProviderConfig.usage_today (providers s' q)
             = ProviderConfig.usage_today (providers s q)) ->
  total_usage s' = total_usage s.
Proof. intros H. unfold total_usage. simpl. now rewrite !H. Qed.

Lemma total_usage_zero s :
  (forall q, ProviderConfig.usage_today (providers s q) = 0) -> total_usage s = 0.
Proof. intros H. unfold total_usage. simpl. now rewrite !H. Qed.

Lemma fst_fold_count_event env ADMIN_IDS es : forall s n,
  fst (fold_left (count_event env ADMIN_IDS) es (s, n)) = run_events env ADMIN_IDS es s.
Proof.
  induction es as [|e es IH]; intros s n; simpl; [reflexivity|].
  destruct e as [[[[st today] u] text]|today user_id]; simpl.
  - destruct (entry_point env st today u text s) as [[[]|] s']; apply IH.
  - apply IH.
Qed.

Section Statistics.
Variable env : Environment.
Hypothesis store_answers : forall n, db_fault env n = None.

(** What a request does to the total and to the backends that are not
    enabled. *)
Lemma entry_point_totals st today u text s r s' :
  registry_ok s -> quota_inv s ->
  (length (user_limits_cache s) <= max_cache_size s)%nat ->
  unused_when_disabled s ->
  entry_point env st today u text s = (r, s') ->
  unused_when_disabled s' /\
  total_usage s'
  = total_usage s + match r with Return (Success _) => 1 | _ => 0 end.
Proof.
  intros Hr Hinv Hlen (Hbefore & Hdis) E.
  destruct (entry_point_charges env store_answers st today u text s r s' Hinv Hlen E)
    as (sd & Ed & Hc).
  destruct (ensure_discovery_completes env s) as (sd' & Ed' & Hdone).
  assert (sd' = sd) by congruence. subst sd'.
  pose proof (ensure_discovery_registry env s _ sd Hr Ed) as Hrd.
  pose proof (ensure_discovery_counters env s _ sd Ed) as Hcd.
  assert (Hud : forall q, ProviderConfig.usage_today (providers sd q)
                          = ProviderConfig.usage_today (providers s q)).
  { intros q. specialize (Hcd q). unfold counters_of in Hcd. injection Hcd as _ Hu _. exact Hu. }
  assert (Hdisd : forall q, ProviderConfig.enabled (providers sd q) = false ->
                            ProviderConfig.usage_today (providers s q) = 0).
  { intros q He. destruct (discovery_completed s) eqn:Ec.
    - unfold ensure_discovery in Ed. rewrite Ec in Ed. injection Ed as <-. now apply Hdis.
    - now apply Hbefore. }
  assert (Hset : discovery_completed s' = true /\
                 forall q, ProviderConfig.enabled (providers s' q)
                           = ProviderConfig.enabled (providers sd q)).
  { rewrite entry_point_eq in E.
    apply handle_request_discovers in E as (sd' & Ed'' & E).
    assert (sd' = sd) by congruence. subst sd'.
    destruct E as [(-> & _)|(_ & _ & r0 & E)]; [auto|].
    pose proof (serve_flag _ _ _ _ _ _ _ _ _ _ Hrd E) as Hf.
    apply serve_footprint in E as (_ & Hs & _); [|exact Hrd].
    split; [congruence|]. intros q. now destruct (Hs q) as (_ & _ & ? & _). }
  destruct Hset as (Hdone' & Hen).
  assert (Hcases :
    (exists reply p, r = Return (Success reply) /\
                     ProviderConfig.enabled (providers sd p) = true /\ used_once p s s') \/
    ((forall reply, r <> Return (Success reply)) /\
     forall q, ProviderConfig.usage_today (providers s' q)
               = ProviderConfig.usage_today (providers s q))).
  { unfold charges in Hc. destruct r as [[reply| | | | | | |]|msg];
      try (right; split; [discriminate|apply Hc]).
    destruct Hc as (_ & _ & p & Hin & Hp). left. exists reply, p.
    apply (proj1 (get_available_providers_In _ _ _)) in Hin.
    apply (proj1 (is_available_iff _ _ _)) in Hin as (He & _). auto. }
  destruct Hcases as [(reply & p & -> & Hep & Hp)|(Hno & Hq)].
  - split; [|exact (total_usage_used_once p s s' Hp)].
    split; [congruence|]. intros q He. rewrite Hen in He.
    destruct Hp as (_ & Hp'). rewrite Hp' by congruence. now apply Hdisd.
  - split.
    + split; [congruence|]. intros q He. rewrite Hen in He. rewrite Hq. now apply Hdisd.
    + rewrite (total_usage_same _ _ Hq).
      destruct r as [[reply| | | | | | |]|msg]; try lia. now contradiction (Hno reply).
Qed.

Lemma reset_cache_command_totals ADMIN_IDS today user_id s :
  unused_when_disabled s ->
  let s' := snd (Bot.reset_cache_command ADMIN_IDS today user_id s) in
  unused_when_disabled s' /\
  total_usage s' = if Bot.is_admin ADMIN_IDS user_id then 0 else total_usage s.
Proof.
  intros (Hbefore & Hdis).
  destruct (reset_cache_command_fields ADMIN_IDS today user_id s) as (_ & Hf & _).
  unfold Bot.reset_cache_command in *.
  destruct (Bot.is_admin ADMIN_IDS user_id); cbn [negb] in *.
  - assert (H0 : forall q,
              ProviderConfig.usage_today
                (providers (snd (try_except
                   (reset_daily_counts today ;;; modify (fun s0 => set_cache s0 []) ;;;
                    ret Bot.ResetDone) (fun _ => ret Bot.ResetFailed) s)) q) = 0).
    { intros q. unfold try_except, bind, modify, ret.
      pose proof (reset_daily_counts_providers today s q) as H.
      destruct (reset_daily_counts today s) as [e s1]. cbn [snd] in H.
      destruct e; cbn [snd]; [change (providers (set_cache s1 []) q) with (providers s1 q)|];
        rewrite H; reflexivity. }
    split; [split; intros; apply H0|now apply total_usage_zero].
  - split; [split; assumption|reflexivity].
Qed.

(** X22.  The total the statistics show is the number of answers.
    While the store answers, in every state the manager reaches from its
    creation by requests and resets, [total_requests_today] of
    [get_system_stats] is the number of requests that have returned a
    result since the last reset by an administrator, or since the
    creation of the manager. *)
Theorem total_requests_today_counts_the_answers
    ADMIN_IDS rows es active_sessions timestamp :
  let s := run_events env ADMIN_IDS es (init env rows) in
  SystemStats.total_requests_today (get_system_stats active_sessions timestamp s)
  = answered_since_reset env ADMIN_IDS es (init env rows).
Proof.
  intros s. subst s. unfold answered_since_reset.
  assert (Hgen : forall s n,
    registry_ok s -> keys_respected env s -> quota_inv s ->
    (length (user_limits_cache s) <= max_cache_size s)%nat ->
    unused_when_disabled s -> total_usage s = n ->
    unused_when_disabled (run_events env ADMIN_IDS es s) /\
    total_usage (run_events env ADMIN_IDS es s)
    = snd (fold_left (count_event env ADMIN_IDS) es (s, n))).
  { induction es as [|e es IH]; intros s n Hr Hk Hinv Hlen Hun Hn; simpl; [auto|].
    destruct (run_event_registry env ADMIN_IDS e s Hr Hk) as (Hr1 & Hk1).
    destruct (run_events_cache env store_answers ADMIN_IDS [e] s Hinv Hlen)
      as (Hinv1 & Hlen1 & _).
    simpl in Hinv1, Hlen1.
    destruct e as [[[[st today] u] text]|today user_id]; simpl in *.
    - destruct (entry_point env st today u text s) as [r s'] eqn:E. simpl in *.
      destruct (entry_point_totals st today u text s r s' Hr Hinv Hlen Hun E) as (Hun1 & Ht).
      destruct r as [[reply| | | | | | |]|msg];
        apply IH; auto; rewrite Ht, Hn; lia.
    - destruct (reset_cache_command_totals ADMIN_IDS today user_id s Hun) as (Hun1 & Ht).
      apply IH; auto. rewrite Ht. now destruct (Bot.is_admin ADMIN_IDS user_id). }
  destruct (Hgen (init env rows) 0) as (Hun & Ht).
  - apply init_registry_ok.
  - apply init_keys_respected.
  - constructor; simpl; [|lia]. split; [constructor|]. intros k v H. discriminate H.
  - simpl. lia.
  - assert (H0 : forall q, ProviderConfig.usage_today (providers (init env rows) q) = 0).
    { intros q. simpl. unfold _init_providers.
      pose proof (validate_api_key_counters
                    (ProviderConfig.make q (getenv env (api_key_var q))
                       (getenv_int_default env (daily_limit_var q)))) as Hc.
      unfold counters_of in Hc. cbn in Hc. injection Hc as _ Hu _. exact Hu. }
    split; intros; apply H0.
  - apply total_usage_zero. intros q. simpl. unfold _init_providers.
    pose proof (validate_api_key_counters
                  (ProviderConfig.make q (getenv env (api_key_var q))
                     (getenv_int_default env (daily_limit_var q)))) as Hc.
    unfold counters_of in Hc. cbn in Hc. injection Hc as _ Hu _. exact Hu.
  - rewrite <- Ht. now apply total_requests_today_total_usage.
Qed.

End Statistics.

(** * Runs of the scenarios *)

Lemma nodupb_sound l : nodupb l = true -> NoDup l.
Proof.
  induction l as [|x l IH]; simpl; intros H; constructor;
    apply andb_prop in H as (Hx & Hl); [|auto].
  intros Hin. apply existsb_eqb_In in Hin. rewrite Hin in Hx. discriminate.
Qed.

Lemma nonempty_names_sound l :
  forallb (fun m => Py.truthy (Some (ModelInfo.name m))) l = true ->
  Forall (fun m => ModelInfo.name m <> EmptyString) l.
Proof.
  intros H. apply Forall_forall. intros m Hm.
  rewrite forallb_forall in H. now apply truthy_Some_iff, H.
Qed.

Lemma discovered_registry_ok env : registry_ok (Scenario.discovered env).
Proof.
  unfold Scenario.discovered.
  destruct (ensure_discovery env (init env Scenario.no_rows)) as [r s] eqn:E.
  simpl. eapply ensure_discovery_registry; [apply init_registry_ok|exact E].
Qed.


(** C2 on [Scenario.throttled_google]: Google receives the sixteen calls
    of the chat budget, then the loop goes on with OpenAI. *)
Lemma throttled_google_receives_whole_budget :
  let env := Scenario.throttled_google in
  let s := Scenario.discovered env in
  let failure := all_attempts_failed_msg GOOGLE 16 in
  get_available_providers CHAT s = [GOOGLE; OPENAI] /\
  exists s2 made,
    provider_loop env CHAT "ai_chat" 16 Scenario.today 7 [GOOGLE; OPENAI] [] s
    = provider_loop env CHAT "ai_chat" 16 Scenario.today 7 [OPENAI]
        [error_summary_of GOOGLE failure] s2 /\
    calls s2 = made /\ length made = 16%nat /\
    Forall (is_generate_of GOOGLE CHAT) made /\
    ProviderConfig.errors_today (providers s2 GOOGLE) = 1.
Proof.
  intros env s failure. split; [vm_compute; reflexivity|].
  set (models := models_of (providers s GOOGLE) CHAT).
  destruct (quota_failures_use_whole_budget env CHAT Scenario.today 7 GOOGLE [OPENAI] [] s
              (hd no_model models) (tl models))
    as (s2 & made & H1 & H2 & H3 & H4 & H5 & _).
  - apply discovered_registry_ok.
  - vm_compute. reflexivity.
  - reflexivity.
  - vm_compute. reflexivity.
  - vm_compute. reflexivity.
  - vm_compute. lia.
  - apply nodupb_sound. vm_compute. reflexivity.
  - apply nonempty_names_sound. vm_compute. reflexivity.
  - intros model t. exists Scenario.quota_message. split; [reflexivity|].
    vm_compute. reflexivity.
  - repeat constructor; simpl; intuition discriminate.
  - exists s2, made. repeat split; assumption.
Defined.

(** C1 on [Scenario.one_chat_model]: the one model is called once. *)
Lemma one_chat_model_called_once :
  let env := Scenario.one_chat_model in
  let s := Scenario.discovered env in
  exists s',
    _execute_with_fallback env GOOGLE CHAT 16 s
    = (Raise (all_attempts_failed_msg GOOGLE 16), s') /\
    calls s' = [Generate GOOGLE CHAT "gemini-2.5-flash"] /\
    ProviderConfig.active_models (providers s' GOOGLE) CHAT = Some "gemini-2.5-flash".
Proof.
  intros env s.
  destruct (single_model_backend_one_attempt env GOOGLE CHAT s
              (hd no_model (models_of (providers s GOOGLE) CHAT)) Scenario.quota_message)
    as (_ & s' & H1 & H2 & H3).
  - vm_compute. reflexivity.
  - reflexivity.
  - vm_compute. reflexivity.
  - vm_compute. reflexivity.
  - vm_compute. discriminate.
  - right. vm_compute. reflexivity.
  - reflexivity.
  - vm_compute. reflexivity.
  - exists s'. repeat split; assumption.
Defined.

(** C1 as stated fails on [Scenario.one_chat_model]: the list has one
    model, every call fails with a quota error, and one call is made of a
    budget of sixteen. *)
Lemma single_model_budget_is_not_exhausted :
  let env := Scenario.one_chat_model in
  let s := Scenario.discovered env in
  length (models_of (providers s GOOGLE) CHAT) = 1%nat /\
  always_quota_style env GOOGLE CHAT /\
  max_retries_of CHAT = 16%nat /\
  calls (snd (_execute_with_fallback env GOOGLE CHAT (max_retries_of CHAT) s))
  = [Generate GOOGLE CHAT "gemini-2.5-flash"] /\
  length (calls (snd (_execute_with_fallback env GOOGLE CHAT (max_retries_of CHAT) s)))
  <> max_retries_of CHAT.
Proof.
  cbv zeta. split; [vm_compute; reflexivity|]. split.
  - intros model t. exists Scenario.quota_message. split; [reflexivity|].
    vm_compute. reflexivity.
  - split; [reflexivity|]. split; [vm_compute; reflexivity|].
    vm_compute. discriminate.
Qed.

(** C2 as stated fails on [Scenario.one_image_model]: the backend has a
    ranked model, every call fails with a not-found error, and the image
    request makes one call of a budget of six before it gives the backend up. *)
Lemma quota_failures_can_stop_before_the_budget :
  let env := Scenario.one_image_model in
  let run := generate_image env Scenario.today 7 "a red fox" (init env Scenario.no_rows) in
  (1 <= length (models_of (providers (Scenario.discovered env) GOOGLE) IMAGE))%nat /\
  always_quota_style env GOOGLE IMAGE /\
  max_retries_of IMAGE = 6%nat /\
  calls (snd run) = [Generate GOOGLE IMAGE "imagen-3.0-generate-001"] /\
  length (calls (snd run)) <> max_retries_of IMAGE /\
  fst run = Return (AllFailed (error_summary_of GOOGLE (all_attempts_failed_msg GOOGLE 6))).
Proof.
  cbv zeta. split; [vm_compute; lia|]. split.
  - intros model t. eexists. split; [reflexivity|]. vm_compute. reflexivity.
  - split; [reflexivity|]. split; [vm_compute; reflexivity|].
    split; [vm_compute; discriminate|]. vm_compute. reflexivity.
Qed.


(** C4 as stated fails on [Scenario.wrong_prefix]: Google's credential
    lacks the expected prefix, the new manager has Google disabled, and
    after discovery Google is enabled and selected for chat. *)
Lemma malformed_key_backend_is_selected :
  let env := Scenario.wrong_prefix in
  spec_credential_rejected GOOGLE (getenv env (api_key_var GOOGLE)) = true /\
  ProviderConfig.enabled (providers (init env Scenario.no_rows) GOOGLE) = false /\
  ProviderConfig.enabled (providers (Scenario.discovered env) GOOGLE) = true /\
  In GOOGLE (get_available_providers CHAT (Scenario.discovered env)).
Proof.
  cbv zeta. split; [vm_compute; reflexivity|]. split; [vm_compute; reflexivity|].
  split; [vm_compute; reflexivity|]. vm_compute. now left.
Qed.

(** C7 on [Scenario.throttled]: the ranked lists after discovery. *)
Lemma static_list_is_ranked :
  let s := Scenario.discovered Scenario.throttled in
  discovery_completed s = true /\
  map ModelInfo.name (models_of (providers s GOOGLE) CHAT)
  = ["gemini-3-flash-preview"; "gemini-3-pro-preview"; "gemini-2.5-flash";
     "gemini-2.5-pro"; "gemini-2.0-flash"] /\
  StronglySorted priority_le (models_of (providers s GOOGLE) CHAT) /\
  ProviderConfig.active_models (providers s GOOGLE) CHAT = Some "gemini-3-flash-preview".
Proof.
  intros s.
  destruct (discovered_models_sorted_and_active_is_best Scenario.throttled Scenario.no_rows)
    as (Hd & H).
  - intros step. reflexivity.
  - destruct (H GOOGLE CHAT) as (Hs & _ & _ & Ha).
    + vm_compute. reflexivity.
    + split; [exact Hd|]. split; [vm_compute; reflexivity|]. split; [exact Hs|].
      vm_compute. reflexivity.
Defined.

(** C10 on [Scenario.store_down]: the check answers allowed, 999. *)
Lemma store_down_check_is_open :
  let env := Scenario.store_down in
  exists s',
    check_user_limit env Scenario.today 7 "ai_chat" (init env Scenario.no_rows)
    = (Return (true, 999), s') /\
    user_limits_cache s' = [].
Proof.
  intros env.
  destruct (check_user_limit_fails_open env Scenario.today 7 "ai_chat"
              (init env Scenario.no_rows) "database is locked")
    as ((s' & H1 & H2 & _) & _).
  - reflexivity.
  - reflexivity.
  - exists s'. split; assumption.
Defined.


(** C5 as stated fails on [Scenario.luma_at_its_limit].  Luma is
    enabled with a usage that has reached its daily limit of zero, so the
    list of the available video backends holds Google only; the video
    call made for Google is the call of Luma, and it is the API of Luma
    that answers the request. *)
Lemma luma_at_its_limit_is_called :
  let env := Scenario.luma_at_its_limit in
  let sd := Scenario.discovered env in
  let run := generate_video env Scenario.today 7 "a cat on a mat" sd in
  ProviderConfig.enabled (providers sd LUMA) = true /\
  ProviderConfig.usage_today (providers sd LUMA) = 0 /\
  ProviderConfig.daily_limit (providers sd LUMA) = 0 /\
  get_available_providers VIDEO sd = [GOOGLE] /\
  calls (snd run)
  = [Enhance "gemini-3-flash-preview"; Generate GOOGLE VIDEO "veo-3.0-generate-001"] /\
  map api_reached (calls (snd run)) = [GOOGLE; LUMA] /\
  (forall model t, backend env GOOGLE VIDEO model t = Raise "connection reset by peer") /\
  fst run = Return (Success "https://storage.example/video.mp4") /\
  ProviderConfig.usage_today (providers (snd run) GOOGLE) = 1 /\
  ProviderConfig.usage_today (providers (snd run) LUMA) = 0.
Proof.
  cbv zeta. repeat split; vm_compute; reflexivity.
Qed.

(** C9 as stated fails on [Scenario.unreachable]: the call to Google
    fails with a connection error, and what the request records as the
    last error of Google, and sums up in its answer, is the message of the
    engine, which speaks of sixteen attempts where one was made. *)
Lemma last_error_is_not_the_error_of_the_backend :
  let env := Scenario.unreachable in
  let s := Scenario.discovered env in
  let run := chat_with_ai env Scenario.today 7 "hello" s in
  (forall model t,
     backend env GOOGLE CHAT model t
     = Raise "Google Gemini error: connection reset by peer") /\
  is_quota_error "Google Gemini error: connection reset by peer" = false /\
  is_model_error "Google Gemini error: connection reset by peer" = false /\
  calls (snd run) = [Generate GOOGLE CHAT "gemini-3-flash-preview"] /\
  ProviderConfig.errors_today (providers (snd run) GOOGLE) = 1 /\
  ProviderConfig.last_error (providers (snd run) GOOGLE)
  = Some "فشلت جميع محاولات google (16 محاولات)" /\
  ProviderConfig.last_error (providers (snd run) GOOGLE)
  <> Some "Google Gemini error: connection reset by peer" /\
  fst run = Return (AllFailed "google: فشلت جميع محاولات google (16 محاولات)").
Proof.
  cbv zeta. repeat split; try (vm_compute; reflexivity). vm_compute. discriminate.
Qed.

(** C6 as stated fails on [Scenario.store_fails_once], where the daily
    limit is two.  After a commit the cache is cleared and the next check
    finds the store locked: it answers 999.  The commit that follows
    starts the cache of the key again at one, while the store counts two.
    Both commits have succeeded, the count has reached the limit, and the
    check still allows the user one request, which is served. *)
Lemma failed_read_lets_the_count_pass_the_limit :
  let env := Scenario.store_fails_once in
  let s0 := init env Scenario.no_rows in
  let k : UsageKey := (7, Scenario.today, "ai_chat") in
  let check := OpCheck 7 Scenario.today "ai_chat" in
  let commit := OpCommit 7 Scenario.today "ai_chat" in
  let ops := [check; commit; OpClear; check; commit] in
  let s := run_ops env ops s0 in
  user_daily_limit env "ai_chat" = 2 /\
  quota_inv s0 /\ stored s0 k = 0 /\
  commits_follow_checks None ops = true /\
  commits_of k ops = 2 /\
  fst (update_user_usage env Scenario.today 7 "ai_chat" (run_ops env [check] s0))
  = Return true /\
  fst (update_user_usage env Scenario.today 7 "ai_chat"
         (run_ops env [check; commit; OpClear; check] s0))
  = Return true /\
  fst (check_user_limit env Scenario.today 7 "ai_chat"
         (run_ops env [check; commit; OpClear] s0))
  = Return (true, 999) /\
  stored s k = 2 /\
  cache_get k (user_limits_cache s) = Some 1 /\
  fst (check_user_limit env Scenario.today 7 "ai_chat" s) = Return (true, 1) /\
  fst (check_user_limit env Scenario.today 7 "ai_chat" s) <> Return (false, 0) /\
  fst (chat_with_ai env Scenario.today 7 "hello" s) = Return (Success "hello").
Proof.
  cbv zeta. split; [vm_compute; reflexivity|]. split.
  { constructor; simpl; [|lia]. split; [constructor|]. intros k v H. discriminate H. }
  repeat split; try (vm_compute; reflexivity). vm_compute. discriminate.
Qed.


(** C3 as stated fails on [Scenario.interrupted_discovery].  An
    exception leaves the discovery routine, and the flag stays false as
    the claim says; but the registry holds the models that the
    interrupted run has found, and the next request, which runs discovery
    again, is answered by one of them. *)
Lemma escaped_failure_does_not_hide_the_models :
  let env := Scenario.answering in
  let s := init env Scenario.no_rows in
  let routine := Scenario.interrupted_discovery env in
  let first := handle_request_around routine env CHAT Scenario.today 7 "hello" s in
  let second := chat_with_ai env Scenario.today 7 "hello" (snd first) in
  fst (routine s) = Raise "cancelled" /\
  fst (ensure_discovery_around routine s) = Raise "cancelled" /\
  fst first = Return SystemError /\
  discovery_completed (snd first) = false /\
  get_available_providers CHAT (snd first) = [GOOGLE] /\
  models_of (providers (snd first) GOOGLE) CHAT <> [] /\
  fst second = Return (Success "hello") /\
  fst second <> Return NoProviders /\
  calls (snd second) = [Generate GOOGLE CHAT "gemini-3-flash-preview"] /\
  discovery_completed (snd second) = true.
Proof.
  cbv zeta. repeat split; try (vm_compute; reflexivity); vm_compute; discriminate.
Qed.

(** ** Runs of the further properties *)

Lemma discovered_quota_inv env : quota_inv (Scenario.discovered env).
Proof.
  unfold Scenario.discovered.
  destruct (ensure_discovery env (init env Scenario.no_rows)) as [r s] eqn:E.
  simpl. apply ensure_discovery_same_store in E.
  apply (quota_inv_same_store _ _ E).
  constructor; simpl; [|lia]. split; [constructor|]. intros k v H. discriminate H.
Qed.

(** X1 on the static list of Google: rotation goes from the first chat
    model to the second, and from the last back to the first. *)
Lemma static_chat_list_is_walked_in_order :
  let s := Scenario.discovered Scenario.throttled in
  fst (rotate_model GOOGLE CHAT (Some "gemini-3-flash-preview") s)
  = Return (Some "gemini-3-pro-preview") /\
  fst (rotate_model GOOGLE CHAT (Some "gemini-2.0-flash") s)
  = Return (Some "gemini-3-flash-preview") /\
  fst (rotate_model GOOGLE CHAT (Some "gpt-4o") s)
  = Return (Some "gemini-3-flash-preview").
Proof.
  intros s.
  set (models := models_of (providers s GOOGLE) CHAT).
  destruct (rotate_model_follows_ranked_order GOOGLE CHAT s models no_model)
    as (Hin & Hout).
  - vm_compute. reflexivity.
  - apply nodupb_sound. vm_compute. reflexivity.
  - assert (E0 : ModelInfo.name (nth 0 models no_model) = "gemini-3-flash-preview")
      by (vm_compute; reflexivity).
    assert (E4 : ModelInfo.name (nth 4 models no_model) = "gemini-2.0-flash")
      by (vm_compute; reflexivity).
    split; [|split].
    + rewrite <- E0 at 1. rewrite (Hin 0%nat); [|vm_compute; lia|rewrite E0; discriminate].
      cbn [fst]. vm_compute. reflexivity.
    + rewrite <- E4 at 1. rewrite (Hin 4%nat); [|vm_compute; lia|rewrite E4; discriminate].
      cbn [fst]. vm_compute. reflexivity.
    + rewrite (Hout "gpt-4o").
      * cbn [fst]. vm_compute. reflexivity.
      * vm_compute. discriminate.
      * vm_compute. intuition discriminate.
Defined.

(** X2 on [Scenario.throttled]: the sixteen calls of a chat request walk
    the five chat models of the static list three times, and one more. *)
Lemma throttled_google_is_walked_in_order :
  let env := Scenario.throttled in
  let s := Scenario.discovered env in
  exists s',
    _execute_with_fallback env GOOGLE CHAT 16 s
    = (Raise (all_attempts_failed_msg GOOGLE 16), s') /\
    calls s' =
    map (Generate GOOGLE CHAT)
        [ "gemini-3-flash-preview"; "gemini-3-pro-preview"; "gemini-2.5-flash";
          "gemini-2.5-pro"; "gemini-2.0-flash";
          "gemini-3-flash-preview"; "gemini-3-pro-preview"; "gemini-2.5-flash";
          "gemini-2.5-pro"; "gemini-2.0-flash";
          "gemini-3-flash-preview"; "gemini-3-pro-preview"; "gemini-2.5-flash";
          "gemini-2.5-pro"; "gemini-2.0-flash";
          "gemini-3-flash-preview" ].
Proof.
  intros env s.
  set (models := models_of (providers s GOOGLE) CHAT).
  destruct (quota_failures_walk_the_ranked_list env GOOGLE CHAT eq_refl 16 s
              (hd no_model models) (tl models) no_model 0)
    as (s' & E & Hc).
  - vm_compute. reflexivity.
  - vm_compute. reflexivity.
  - vm_compute. reflexivity.
  - apply nodupb_sound. vm_compute. reflexivity.
  - vm_compute. lia.
  - apply nonempty_names_sound. vm_compute. reflexivity.
  - intros model t. exists Scenario.quota_message. split; [reflexivity|].
    vm_compute. reflexivity.
  - vm_compute. lia.
  - vm_compute. reflexivity.
  - exists s'. split; [exact E|]. rewrite Hc. vm_compute. reflexivity.
Defined.

(** X4 on [Scenario.answering]: the first call is answered, by the top
    chat model, which stays the active one. *)
Lemma answering_google_answers_the_first_call :
  let env := Scenario.answering in
  let s := Scenario.discovered env in
  let s' := snd (_execute_with_fallback env GOOGLE CHAT 16 s) in
  exists before m,
    calls s' = (calls s ++ before ++ [Generate GOOGLE CHAT m])%list /\
    (length before < 16)%nat /\
    backend env GOOGLE CHAT m (length (calls s ++ before)) = Return "hello" /\
    ProviderConfig.active_models (providers s' GOOGLE) CHAT = Some m /\
    get_active_model GOOGLE CHAT s' = Some m.
Proof.
  intros env s s'.
  apply (fallback_result_is_the_last_answer env GOOGLE CHAT 16 s "hello" s').
  assert (E : fst (_execute_with_fallback env GOOGLE CHAT 16 s) = Return "hello")
    by (vm_compute; reflexivity).
  subst s'. rewrite <- E. apply surjective_pairing.
Defined.

(** X7: a request of the user 0 is turned away. *)
Lemma user_zero_is_turned_away :
  let env := Scenario.answering in
  let s := Scenario.discovered env in
  exists o s',
    entry_point env CHAT Scenario.today 0 "hello" s = (Return o, s') /\
    o = InvalidUser /\
    calls s' = calls s /\ db_ops s' = db_ops s /\
    user_limits_cache s' = user_limits_cache s /\ ai_usage s' = ai_usage s /\
    (discovery_completed s = true -> s' = s).
Proof.
  intros env s.
  apply (invalid_request_changes_nothing env CHAT Scenario.today 0 "hello" s).
  left. lia.
Defined.

(** X8 on [Scenario.answering]: a chat request is answered by the top
    chat model of Google and counted once. *)
Lemma answering_google_is_accounted_once :
  let env := Scenario.answering in
  let s := Scenario.discovered env in
  let k : UsageKey := (7, Scenario.today, "ai_chat") in
  exists s',
    entry_point env CHAT Scenario.today 7 "hi" s = (Return (Success "hello"), s') /\
    stored s' k = 1 /\
    cache_get k (user_limits_cache s') = Some 1 /\
    ProviderConfig.usage_today (providers s' GOOGLE) = 1 /\
    calls s' = [Generate GOOGLE CHAT "gemini-3-flash-preview"].
Proof.
  intros env s k.
  destruct (answered_request_is_accounted_once env (fun _ => eq_refl) CHAT Scenario.today 7
              "hi" s GOOGLE [] "gemini-3-flash-preview" "hello")
    as (s' & E & Hst & Hc & Hu & _ & _ & _ & enhancement & Hcalls & [->|(m & He & _)]).
  - vm_compute. reflexivity.
  - apply discovered_registry_ok.
  - apply discovered_quota_inv.
  - lia.
  - vm_compute. reflexivity.
  - vm_compute. reflexivity.
  - vm_compute. reflexivity.
  - vm_compute. reflexivity.
  - vm_compute. reflexivity.
  - intros t. reflexivity.
  - discriminate.
  - exists s'. split; [exact E|]. split; [exact Hst|]. split; [exact Hc|].
    split; [rewrite Hu; vm_compute; reflexivity|].
    rewrite Hcalls. vm_compute. reflexivity.
  - discriminate He.
Defined.

(** X10: after a chat request and a reset by an administrator. *)
Lemma cache_after_a_request_and_a_reset :
  let env := Scenario.answering in
  let s := run_events env Scenario.admins
             [Ask (CHAT, Scenario.today, 7, "hi"); Reset Scenario.today 1]
             (init env Scenario.no_rows) in
  (length (user_limits_cache s) <= 1000)%nat /\
  NoDup (map fst (user_limits_cache s)) /\
  (forall k v, cache_get k (user_limits_cache s) = Some v -> v = stored s k) /\
  (forall today user_id service_type v,
     In (service_type, v) (get_user_stats today user_id s) ->
     v = stored s (user_id, today, service_type) \/
     (v = 0 /\ cache_get (user_id, today, service_type) (user_limits_cache s) = None)).
Proof.
  intros env s.
  apply (cache_repeats_the_store_within_its_size env (fun _ => eq_refl)).
Defined.

(** X11 on [Scenario.full_cache]: the check of a third user evicts the
    entry of the first. *)
Lemma full_cache_evicts_its_first_entry :
  let env := Scenario.answering in
  let s' := snd (check_user_limit env Scenario.today 3 "ai_chat" Scenario.full_cache) in
  user_limits_cache s'
  = [((2, Scenario.today, "ai_chat"), 1); ((3, Scenario.today, "ai_chat"), 0)].
Proof.
  intros env s'.
  destruct (check_keeps_the_cache_in_order_of_use env Scenario.today 3 "ai_chat"
              Scenario.full_cache) as (Hmiss & _).
  - simpl. lia.
  - destruct (Hmiss ((1, Scenario.today, "ai_chat"), 3)
                    [((2, Scenario.today, "ai_chat"), 1)]
                    eq_refl eq_refl eq_refl eq_refl) as (Hc & _).
    subst s'. rewrite Hc. reflexivity.
Defined.

(** X12 on [Scenario.store_down]: the commit is refused and counted in
    the cache. *)
Lemma store_down_commit_is_counted_in_the_cache :
  let env := Scenario.store_down in
  let s := Scenario.discovered env in
  exists s',
    update_user_usage env Scenario.today 7 "ai_chat" s = (Return false, s') /\
    ai_usage s' = ai_usage s /\
    cache_get (7, Scenario.today, "ai_chat") (user_limits_cache s') = Some 1 /\
    fst (check_user_limit env Scenario.today 7 "ai_chat" s') = Return (true, 19).
Proof.
  intros env s.
  destruct (refused_commit_is_counted_in_the_cache_only env Scenario.today 7 "ai_chat" s
              "database is locked") as (s' & E & Hu & Hc & Hk).
  - reflexivity.
  - exists s'. split; [exact E|]. split; [exact Hu|]. split.
    + rewrite Hc. vm_compute. reflexivity.
    + rewrite Hk. vm_compute. reflexivity.
Defined.

(** X13 on [Scenario.full_cache]: the reset drops the counts of the
    day. *)
Lemma reset_drops_the_counts_of_the_day :
  let env := Scenario.answering in
  let s' := snd (reset_daily_counts Scenario.today Scenario.full_cache) in
  user_limits_cache s' = [] /\
  cache_get (1, Scenario.today, "ai_chat") (user_limits_cache s') = None /\
  fst (check_user_limit env Scenario.today 1 "ai_chat" s') = Return (true, 20).
Proof.
  intros env s'.
  destruct (reset_daily_counts_forgets_the_cache_not_the_store env Scenario.today
              Scenario.full_cache 1 Scenario.today "ai_chat")
    as (Hc & _ & _ & Hk).
  - vm_compute. reflexivity.
  - now left.
  - subst s'. split; [vm_compute; reflexivity|]. split; [exact Hc|].
    rewrite Hk; [vm_compute; reflexivity|reflexivity].
Defined.

(** X15 on [Scenario.one_session]: a minute later the message goes to the
    chat of the session, not to the model of the call. *)
Lemma live_session_ignores_the_model_of_the_call :
  fst (ChatSessions.open_session "gemini-2.5-pro" 7 Scenario.a_minute Scenario.a_minute
         Scenario.a_minute Scenario.one_session)
  = Return "gemini-2.5-flash".
Proof.
  destruct (chat_session_keeps_its_model "gemini-2.5-pro" 7 Scenario.a_minute
              Scenario.a_minute Scenario.a_minute Scenario.one_session)
    as (sessions' & E & _).
  - repeat constructor. simpl. tauto.
  - rewrite E. reflexivity.
Defined.

(** X16 on the words of [/image draw a cat anime]. *)
Lemma image_command_reads_a_style :
  let env := Scenario.answering in
  let s := Scenario.discovered env in
  let args := ["draw"; "a"; "cat"; "anime"] in
  Bot.image_prompt_and_style args = ("draw a cat", "anime") /\
  exists reply s',
    Bot.image_command env Scenario.today 7 args s = (Return reply, s') /\
    exists o, reply = Bot.Answer o /\ o <> InvalidInput.
Proof.
  intros env s args. split; [reflexivity|].
  destruct (accepted_commands_are_long_enough env Scenario.today 7 args s)
    as (_ & (reply & s' & E & H) & _).
  - repeat constructor; vm_compute; discriminate.
  - exists reply, s'. split; [exact E|].
    destruct H as [(Ha & _)|[(Hr & _)|(o & Hr & Ho & _)]].
    + discriminate Ha.
    + exfalso. subst reply. vm_compute in E. discriminate E.
    + eauto.
Defined.

(** X17 on the words of [/video abcd]. *)
Lemma video_command_of_four_characters :
  let env := Scenario.answering in
  let s := Scenario.discovered env in
  exists s',
    Bot.video_command env Scenario.today 7 ["abcd"] s
    = (Return (Bot.Answer InvalidInput), s') /\
    calls s' = calls s /\ user_limits_cache s' = user_limits_cache s /\
    ai_usage s' = ai_usage s /\ db_ops s' = db_ops s.
Proof.
  intros env s.
  apply (video_prompt_of_four_characters_is_turned_away env Scenario.today 7 ["abcd"] s).
  - discriminate.
  - reflexivity.
  - lia.
Defined.

(** X18 on [Scenario.luma_only]: after a video request Luma is enabled
    and video is reported as available, and Luma has not been called and
    is not called. *)
Lemma luma_is_offered_and_never_called :
  let env := Scenario.luma_only in
  let s := run_events env Scenario.admins
             [Ask (VIDEO, Scenario.today, 7, "a sunset over the sea")]
             (init env Scenario.no_rows) in
  _execute_with_fallback env LUMA VIDEO 6 s
  = (Raise (all_attempts_failed_msg LUMA 6), s) /\
  In LUMA (get_available_providers VIDEO s) /\
  In ("video_generation", true) (get_available_services s) /\
  calls s = [].
Proof.
  intros env s.
  destruct (bearer_backends_are_offered_but_never_answer env Scenario.admins
              Scenario.no_rows [Ask (VIDEO, Scenario.today, 7, "a sunset over the sea")]
              LUMA VIDEO 6 eq_refl) as (E & H).
  fold s in E, H.
  assert (He : ProviderConfig.enabled (providers s LUMA) = true)
    by (vm_compute; reflexivity).
  rewrite He in E. split; [exact E|].
  destruct (H He) as (Hin & Hs); [vm_compute; reflexivity|reflexivity|].
  split; [exact Hin|]. split; [exact Hs|]. vm_compute. reflexivity.
Defined.

(** X20 on a Google that answers: the first chat request of user 7 is
    answered, charged once to the user and once to Google. *)
Lemma answering_google_is_charged_once :
  let s := init Scenario.answering Scenario.no_rows in
  let s' := snd (entry_point Scenario.answering CHAT Scenario.today 7 "hi" s) in
  fst (entry_point Scenario.answering CHAT Scenario.today 7 "hi" s)
  = Return (Success "hello") /\
  stored s' (7, Scenario.today, "ai_chat") = 1 /\
  stored s' (8, Scenario.today, "ai_chat") = 0 /\
  ProviderConfig.usage_today (providers s' GOOGLE) = 1 /\
  ProviderConfig.usage_today (providers s' OPENAI) = 0.
Proof.
  intros s s'.
  destruct (answer_is_charged_once_and_nothing_else Scenario.answering
              (fun _ => eq_refl) Scenario.admins Scenario.no_rows [] CHAT
              Scenario.today 7 "hi")
    as (o & s1 & sd & E & Ed & H).
  unfold run_events in E, Ed, H. cbn [fold_left] in E, Ed, H. fold s in E, Ed, H.
  assert (Eo : fst (entry_point Scenario.answering CHAT Scenario.today 7 "hi" s)
               = Return (Success "hello")) by (vm_compute; reflexivity).
  assert (Es : s1 = s') by (subst s'; now rewrite E).
  split; [exact Eo|].
  rewrite E in Eo. cbn [fst] in Eo. injection Eo as ->. rewrite Es in H.
  destruct H as (_ & Hk & Hother & p & Hin & Hp & Hq).
  assert (Hp0 : p = GOOGLE).
  { assert (Esd : sd = snd (ensure_discovery Scenario.answering s))
      by now rewrite Ed.
    rewrite Esd in Hin. vm_compute in Hin. destruct Hin as [<-|[]]. reflexivity. }
  subst p.
  change (usage_service_of CHAT) with "ai_chat" in Hk, Hother.
  split; [rewrite Hk; reflexivity|].
  split; [rewrite Hother by discriminate; reflexivity|].
  split; [rewrite Hp; reflexivity|].
  rewrite Hq by discriminate. reflexivity.
Defined.

(** X21 on two environments with the same keys, one with a Google
    library that refuses its key: Google is disabled in the second, and
    OpenAI is discovered as in the first. *)
Lemma refused_google_leaves_openai_as_it_is :
  providers (Scenario.discovered Scenario.throttled_google) OPENAI
  = providers (Scenario.discovered Scenario.google_rejected) OPENAI /\
  ProviderConfig.enabled (providers (Scenario.discovered Scenario.throttled_google) GOOGLE)
  = true /\
  ProviderConfig.enabled (providers (Scenario.discovered Scenario.google_rejected) GOOGLE)
  = false.
Proof.
  split; [|split; vm_compute; reflexivity].
  apply (discovery_of_google_does_not_reach_the_other_backends
           Scenario.throttled_google Scenario.google_rejected
           Scenario.no_rows Scenario.no_rows OPENAI).
  - intros name. reflexivity.
  - intros name. reflexivity.
  - reflexivity.
  - intros step. reflexivity.
  - intros step. reflexivity.
  - discriminate.
Defined.

(** X22 on a Google that answers: three requests are answered, a user
    who is no administrator asks for a reset, an invalid request
    follows, and the statistics show three; after the reset of the
    administrator and one more answer they show one. *)
Lemma statistics_count_three_answers_then_one :
  let ask u := Ask (CHAT, Scenario.today, u, "hi") in
  let es := [ask 7; ask 8; ask 7; Reset Scenario.today 7; ask 0] in
  let es' := (es ++ [Reset Scenario.today 1; ask 9])%list in
  let stats es :=
    get_system_stats 0 Scenario.today
      (run_events Scenario.answering Scenario.admins es
                  (init Scenario.answering Scenario.no_rows)) in
  SystemStats.total_requests_today (stats es) = 3 /\
  SystemStats.total_requests_today (stats es') = 1.
Proof.
  intros ask es es' stats. subst stats. cbn beta. split.
  - rewrite (total_requests_today_counts_the_answers Scenario.answering
               (fun _ => eq_refl) Scenario.admins Scenario.no_rows es 0 Scenario.today).
    vm_compute. reflexivity.
  - rewrite (total_requests_today_counts_the_answers Scenario.answering
               (fun _ => eq_refl) Scenario.admins Scenario.no_rows es' 0 Scenario.today).
    vm_compute. reflexivity.
Defined.
